(** * repo-check: a shallow embedding of [src/repo_check/cli.py]

    Python [str] values are modelled as Rocq [string]s holding the UTF-8
    encoding of the text: concatenation, equality and the code-point order
    of Python coincide with their byte-wise counterparts, and [len] counts
    the bytes that start a code point.  Python [int] is [Z]; [Optional[T]]
    is [option T]; exceptions are an explicit result type. *)

From Stdlib Require Import String Ascii List ZArith Lia Bool Arith.
From Stdlib Require Import DecimalString DecimalPos Sorted Permutation.
Import ListNotations.

Local Open Scope string_scope.
Local Open Scope list_scope.

(** ** Python string primitives *)

Module PyStr.

(** [str.isspace] on the ASCII range: TAB..CR, FS..US and SPACE.  The
    non-ASCII Unicode spaces are not modelled. *)
Definition is_space (c : ascii) : bool :=
  let n := nat_of_ascii c in
  ((9 <=? n)%nat && (n <=? 13)%nat) || ((28 <=? n)%nat && (n <=? 32)%nat).

(** A decimal digit, ['0'..'9']. *)
Definition is_digit (c : ascii) : bool :=
  let n := nat_of_ascii c in (48 <=? n)%nat && (n <=? 57)%nat.

Definition truthy (s : string) : bool := negb (s =? "").

(** An [Optional[str]] in a boolean position: [None] and [""] are false. *)
Definition otruthy (o : option string) : bool :=
  match o with
  | Some s => truthy s
  | None => false
  end.

Fixpoint lstrip (s : string) : string :=
  match s with
  | String c r => if is_space c then lstrip r else s
  | EmptyString => EmptyString
  end.

Fixpoint rstrip (s : string) : string :=
  match s with
  | String c r =>
      match rstrip r with
      | EmptyString => if is_space c then EmptyString else String c EmptyString
      | r' => String c r'
      end
  | EmptyString => EmptyString
  end.

(** [s.strip()] *)
Definition strip (s : string) : string := lstrip (rstrip s).

Definition flush (word : string) : list string :=
  match word with
  | EmptyString => []
  | _ => [word]
  end.

Fixpoint split_from (word s : string) : list string :=
  match s with
  | String c r =>
      if is_space c then flush word ++ split_from EmptyString r
      else split_from (word ++ String c EmptyString) r
  | EmptyString => flush word
  end.

(** [s.split()]: the maximal runs of non-space characters. *)
Definition split (s : string) : list string := split_from EmptyString s.

Fixpoint all_digits (s : string) : bool :=
  match s with
  | String c r => is_digit c && all_digits r
  | EmptyString => true
  end.

Fixpoint all_spaces (s : string) : bool :=
  match s with
  | String c r => is_space c && all_spaces r
  | EmptyString => true
  end.

(** [s.isdigit()]: non-empty and made of decimal digits. *)
Definition isdigit (s : string) : bool := truthy s && all_digits s.

Definition digit_value (c : ascii) : Z := Z.of_nat (nat_of_ascii c) - 48.

Fixpoint int_from (acc : Z) (s : string) : Z :=
  match s with
  | String c r => int_from (10 * acc + digit_value c) r
  | EmptyString => acc
  end.

(** [int(s)] for a string that passed [isdigit]. *)
Definition int (s : string) : Z := int_from 0 s.

(** [str(n)] *)
Definition str_of_int (n : Z) : string := NilZero.string_of_int (Z.to_int n).

(** A byte of the form [10xxxxxx] continues a code point. *)
Definition is_continuation (c : ascii) : bool :=
  let n := nat_of_ascii c in (128 <=? n)%nat && (n <? 192)%nat.

(** [len(s)]: the number of code points. *)
Fixpoint len (s : string) : nat :=
  match s with
  | String c r => if is_continuation c then len r else S (len r)
  | EmptyString => 0
  end.

(** [" " * n] *)
Fixpoint spaces (n : nat) : string :=
  match n with
  | S k => String " " (spaces k)
  | O => EmptyString
  end.

(** [sep.join(parts)] *)
Definition join (sep : string) (parts : list string) : string :=
  String.concat sep parts.

End PyStr.

(** ** The result record, labels and colours *)

Record RepoResult : Type := mkRepoResult {
  name : string;
  path : string;
  is_repo : bool;
  branch : option string;
  is_clean : option bool;
  origin_url : option string;
  upstream_ref : option string;
  ahead_count : option Z;
  behind_count : option Z;
  error : option string
}.

Definition ESC : string := String (ascii_of_nat 27) EmptyString.

Definition ANSI_RESET : string := ESC ++ "[0m".
Definition ANSI_RED : string := ESC ++ "[31m".
Definition ANSI_GREEN : string := ESC ++ "[32m".
Definition ANSI_YELLOW : string := ESC ++ "[33m".
Definition ANSI_BLUE : string := ESC ++ "[34m".
Definition ANSI_CYAN : string := ESC ++ "[36m".
Definition ANSI_DIM : string := ESC ++ "[2m".

Definition LABEL_PENDING : string := "pending".
Definition LABEL_NOT_INIT : string := "not-init".
Definition LABEL_UNKNOWN : string := "unknown".
Definition LABEL_DETACHED : string := "detached".
Definition LABEL_CLEAN : string := "clean".
Definition LABEL_DIRTY : string := "dirty".
Definition LABEL_ORIGIN : string := "origin".
Definition LABEL_NO_REMOTE : string := "no-remote".
Definition LABEL_IN_SYNC : string := "in-sync".
Definition LABEL_NO_UPSTREAM : string := "no-upstream".
Definition LABEL_ERROR : string := "error".

Definition _color (text code : string) (use_color : bool) : string :=
  if negb use_color then text else code ++ text ++ ANSI_RESET.

(** ** The probe: [_run_git] and [_check_repo] *)

(** What a finished [git] process hands back: return code, standard
    output and standard error, before [_run_git] strips them. *)
Definition GitResult : Type := (Z * string * string)%type.

(** One invocation [git -C path args...]. *)
Definition GitCall : Type := (string * list string)%type.

(** The outside world of a probe: the outcome of every possible
    invocation.  [_check_repo] issues each of its queries at most once,
    so an outcome per invocation loses nothing over an outcome per
    point in time. *)
Definition Env : Type := string -> list string -> GitResult.

(** Computations that read the environment and record the invocations
    they make, oldest first. *)
Definition Git (A : Type) : Type := Env -> list GitCall -> A * list GitCall.

Definition ret {A} (a : A) : Git A := fun _ log => (a, log).

Definition bind {A B} (m : Git A) (k : A -> Git B) : Git B :=
  fun env log => let '(a, log') := m env log in k a env log'.

Declare Scope git_scope.
Delimit Scope git_scope with git.
Notation "' pat <- m ;; k" :=
  (bind m (fun x => match x with pat => k end))
    (at level 61, pat pattern, m at next level, right associativity) : git_scope.

Definition _run_git (path : string) (args : list string) : Git GitResult :=
  fun env log =>
    let '(returncode, stdout, stderr) := env path args in
    ((returncode, PyStr.strip stdout, PyStr.strip stderr), log ++ [(path, args)]).

(** The result of running a computation against [env], and the calls made. *)
Definition result_of {A} (m : Git A) (env : Env) : A := fst (m env []).
Definition calls_of {A} (m : Git A) (env : Env) : list GitCall := snd (m env []).

Definition ARGS_WORK_TREE : list string := ["rev-parse"; "--is-inside-work-tree"].
Definition ARGS_HEAD : list string := ["rev-parse"; "--abbrev-ref"; "HEAD"].
Definition ARGS_STATUS : list string := ["status"; "--porcelain"].
Definition ARGS_ORIGIN : list string := ["remote"; "get-url"; "origin"].
Definition ARGS_UPSTREAM : list string :=
  ["rev-parse"; "--abbrev-ref"; "--symbolic-full-name"; "@{u}"].
Definition ARGS_COUNTS : list string :=
  ["rev-list"; "--left-right"; "--count"; "HEAD...@{u}"].

(** [err or None] *)
Definition or_None (s : string) : option string :=
  if PyStr.truthy s then Some s else None.

(** Lines 248-254: the two counts [(behind_count, ahead_count)] read off
    the output of the divergence query. *)
Definition parse_counts (counts : string) : option Z * option Z :=
  let parts := PyStr.split counts in
  if (length parts =? 2)%nat && forallb PyStr.isdigit parts then
    (Some (PyStr.int (nth 0 parts "")), Some (PyStr.int (nth 1 parts "")))
  else (None, None).

Local Open Scope git_scope.

Definition _check_repo (path name : string) : Git RepoResult :=
  '(code, _, _) <- _run_git path ARGS_WORK_TREE ;;
  if negb (code =? 0)%Z then
    ret (mkRepoResult name path false None None None None None None None)
  else
  '(code, branch, err) <- _run_git path ARGS_HEAD ;;
  if negb (code =? 0)%Z then
    ret (mkRepoResult name path true None None None None None None (or_None err))
  else
  '(code, status, err) <- _run_git path ARGS_STATUS ;;
  if negb (code =? 0)%Z then
    ret (mkRepoResult name path true (Some branch) None None None None None (or_None err))
  else
  '(code, origin, _) <- _run_git path ARGS_ORIGIN ;;
  let origin_url := if (code =? 0)%Z && PyStr.truthy origin then Some origin else None in
  '(code, upstream, _) <- _run_git path ARGS_UPSTREAM ;;
  '(upstream_ref, behind_count, ahead_count) <-
    (if (code =? 0)%Z && PyStr.truthy upstream then
       '(code, counts, _) <- _run_git path ARGS_COUNTS ;;
       let '(behind_count, ahead_count) :=
         if (code =? 0)%Z && PyStr.truthy counts then parse_counts counts
         else (None, None) in
       ret (Some upstream, behind_count, ahead_count)
     else ret (None, None, None)) ;;
  let is_clean := status =? "" in
  ret (mkRepoResult name path true (Some branch) (Some is_clean) origin_url
         upstream_ref ahead_count behind_count None).

Local Close Scope git_scope.

(** The outcome of the invocation [git -C path args], as [_run_git]
    returns it. *)
Definition code_of (env : Env) (path : string) (args : list string) : Z :=
  fst (fst (result_of (_run_git path args) env)).

Definition stdout_of (env : Env) (path : string) (args : list string) : string :=
  snd (fst (result_of (_run_git path args) env)).

Definition stderr_of (env : Env) (path : string) (args : list string) : string :=
  snd (result_of (_run_git path args) env).

(** [code == 0] *)
Definition succeeded (env : Env) (path : string) (args : list string) : bool :=
  (code_of env path args =? 0)%Z.

(** The probe passes its three fatal checks: work tree, HEAD, status. *)
Definition is_probed (env : Env) (path : string) : bool :=
  succeeded env path ARGS_WORK_TREE && succeeded env path ARGS_HEAD
  && succeeded env path ARGS_STATUS.

(** The upstream query names an upstream ref. *)
Definition has_upstream (env : Env) (path : string) : bool :=
  succeeded env path ARGS_UPSTREAM && PyStr.truthy (stdout_of env path ARGS_UPSTREAM).

(** The refresh of a remote's refs that the repository's tests script
    between the upstream query and the divergence query. *)
Definition ARGS_FETCH (remote : string) : list string :=
  ["fetch"; "--quiet"; "--prune"; "--no-tags"; remote].

(** ** Exceptions *)

Inductive PyExn : Type :=
| ValueError
| IndexError
| OSError
| RecursionError.

Inductive PyResult (A : Type) : Type :=
| Ok (a : A)
| Raise (e : PyExn).

Arguments Ok {A} a.
Arguments Raise {A} e.

Definition py_bind {A B} (m : PyResult A) (k : A -> PyResult B) : PyResult B :=
  match m with
  | Ok a => k a
  | Raise e => Raise e
  end.

Declare Scope py_scope.
Delimit Scope py_scope with py.
Notation "x <- m ;; k" := (py_bind m (fun x => k))
  (at level 61, m at next level, right associativity) : py_scope.
Notation "' pat <- m ;; k" :=
  (py_bind m (fun x => match x with pat => k end))
    (at level 61, pat pattern, m at next level, right associativity) : py_scope.

Local Open Scope py_scope.

(** ** [os.path] on POSIX *)

Module PyPath.

Definition sep : string := "/".
Definition curdir : string := ".".

(** [s.startswith(p)] *)
Definition startswith (s p : string) : bool := String.prefix p s.

Fixpoint endswith_sep (s : string) : bool :=
  match s with
  | String c EmptyString => Ascii.eqb c "/"
  | String _ r => endswith_sep r
  | EmptyString => false
  end.

(** [os.path.isabs] *)
Definition isabs (s : string) : bool := startswith s sep.

(** [os.path.join(a, b)] *)
Definition join (a b : string) : string :=
  if startswith b sep || negb (PyStr.truthy a) then b
  else if endswith_sep a then a ++ b
  else a ++ sep ++ b.

Fixpoint split_sep_from (word s : string) : list string :=
  match s with
  | String c r =>
      if Ascii.eqb c "/" then word :: split_sep_from EmptyString r
      else split_sep_from (word ++ String c EmptyString) r
  | EmptyString => [word]
  end.

(** [path.split(sep)]: every separator cuts, empty pieces are kept. *)
Definition split_sep (s : string) : list string := split_sep_from EmptyString s.

(** [c and c != curdir] *)
Definition keeps (c : string) : bool := PyStr.truthy c && negb (c =? curdir).

(** Python's [<] on lists of strings. *)
Fixpoint list_ltb (a b : list string) : bool :=
  match a, b with
  | x :: a', y :: b' => if x =? y then list_ltb a' b' else String.ltb x y
  | [], _ :: _ => true
  | _, [] => false
  end.

(** [min] and [max] of a non-empty sequence [first :: rest]: the first
    smallest, respectively largest, element. *)
Definition py_min (first : list string) (rest : list (list string)) : list string :=
  fold_left (fun m x => if list_ltb x m then x else m) rest first.

Definition py_max (first : list string) (rest : list (list string)) : list string :=
  fold_left (fun m x => if list_ltb m x then x else m) rest first.

(** The loop [for i, c in enumerate(s1): if c != s2[i]: common = s1[:i]; break]
    started from [common = s1]. *)
Fixpoint common_of (s1 s2 : list string) : PyResult (list string) :=
  match s1 with
  | c :: r1 =>
      match s2 with
      | d :: r2 =>
          if c =? d then rest <- common_of r1 r2 ;; Ok (c :: rest) else Ok []
      | [] => Raise IndexError
      end
  | [] => Ok []
  end.

(** Whether [p[:1] == sep] takes a single value over all of [paths]. *)
Definition same_isabs (paths : list string) : bool :=
  match paths with
  | p :: rest => forallb (fun q => Bool.eqb (isabs q) (isabs p)) rest
  | [] => true
  end.

(** [os.path.commonpath(paths)] *)
Definition commonpath (paths : list string) : PyResult string :=
  match paths with
  | [] => Raise ValueError
  | p :: _ =>
      if negb (same_isabs paths) then Raise ValueError
      else
        match map (fun q => filter keeps (split_sep q)) paths with
        | [] => Raise ValueError
        | first :: rest =>
            let s1 := py_min first rest in
            let s2 := py_max first rest in
            common <- common_of s1 s2 ;;
            Ok ((if isabs p then sep else EmptyString) ++ PyStr.join sep common)%string
        end
  end.

End PyPath.

(** ** Enumeration: ignore rules, sub-folder listing, the scan list *)

(** One entry of [os.scandir]: its name and [is_dir(follow_symlinks=False)]. *)
Record DirEntry : Type := mkDirEntry {
  entry_name : string;
  entry_is_dir : bool
}.

(** The operating system the enumeration runs against.  [scandir],
    [expanduser], [normpath] and [abspath] depend on the file system, the
    home and the working directory; [lower] is [str.lower]. *)
Record OS : Type := mkOS {
  scandir : string -> PyResult (list DirEntry);
  expanduser : string -> string;
  normpath : string -> string;
  abspath : string -> string;
  lower : string -> string
}.

(** [entry.path] of an entry found by [os.scandir(base_path)]. *)
Definition entry_path (base_path : string) (e : DirEntry) : string :=
  PyPath.join base_path (entry_name e).

Definition _resolve_ignore_paths (os : OS) (base_path : string) (entries : list string)
  : list string :=
  map (fun entry =>
         let expanded := expanduser os entry in
         if PyPath.isabs expanded then abspath os (normpath os expanded)
         else abspath os (normpath os (PyPath.join base_path expanded)))
      entries.

(** The [for ignored in ignored_paths] loop of [_is_ignored]; a
    [ValueError] of [commonpath] moves on to the next ignored path. *)
Fixpoint is_ignored_loop (path : string) (ignored_paths : list string) : PyResult bool :=
  match ignored_paths with
  | ignored :: rest =>
      match PyPath.commonpath [path; ignored] with
      | Raise ValueError => is_ignored_loop path rest
      | Raise e => Raise e
      | Ok common => if common =? ignored then Ok true else is_ignored_loop path rest
      end
  | [] => Ok false
  end.

Definition _is_ignored (path : string) (ignored_paths : list string) : PyResult bool :=
  match ignored_paths with
  | [] => Ok false
  | _ => is_ignored_loop path ignored_paths
  end.

(** [entries.sort(key=...)]: a stable sort comparing keys with [<]. *)
Fixpoint insert_by {A} (key : A -> string) (x : A) (l : list A) : list A :=
  match l with
  | y :: l' => if String.ltb (key y) (key x) then y :: insert_by key x l' else x :: l
  | [] => [x]
  end.

Fixpoint sort_by {A} (key : A -> string) (l : list A) : list A :=
  match l with
  | x :: l' => insert_by key x (sort_by key l')
  | [] => []
  end.

(** The body of the [for entry in it] loop of [_list_subfolders]. *)
Fixpoint collect_subfolders (base_path : string) (include_hidden : bool)
  (ignored_paths : list string) (it : list DirEntry) : PyResult (list (string * string)) :=
  match it with
  | entry :: it' =>
      if negb (entry_is_dir entry) then
        collect_subfolders base_path include_hidden ignored_paths it'
      else
        ignored <- _is_ignored (entry_path base_path entry) ignored_paths ;;
        if ignored then collect_subfolders base_path include_hidden ignored_paths it'
        else if negb include_hidden && PyPath.startswith (entry_name entry) "." then
          collect_subfolders base_path include_hidden ignored_paths it'
        else
          entries <- collect_subfolders base_path include_hidden ignored_paths it' ;;
          (* os.path.relpath(entry.path, base_path) of a direct child is its name *)
          Ok ((entry_name entry, entry_path base_path entry) :: entries)
  | [] => Ok []
  end.

Definition _list_subfolders (os : OS) (base_path : string) (include_hidden : bool)
  (ignored_paths : list string) : PyResult (list (string * string)) :=
  it <- scandir os base_path ;;
  entries <- collect_subfolders base_path include_hidden ignored_paths it ;;
  Ok (sort_by (fun item => lower os (fst item)) entries).

(** The [for other in candidates] loop of [_has_ancestor]. *)
Fixpoint _has_ancestor (path : string) (candidates : list string) : PyResult bool :=
  match candidates with
  | other :: rest =>
      if other =? path then _has_ancestor path rest
      else
        match PyPath.commonpath [path; other] with
        | Raise ValueError => _has_ancestor path rest
        | Raise e => Raise e
        | Ok common => if common =? other then Ok true else _has_ancestor path rest
        end
  | [] => Ok false
  end.

(** [path in target_set] *)
Definition in_set (path : string) (target_set : list string) : bool :=
  existsb (String.eqb path) target_set.

(** The nesting marker [U+2514 U+2500 U+0020], in UTF-8. *)
Definition NEST : string := "└─ ".

(** The [for name, path in entries] loop of [add_for_base]; [nested] is
    the recursive call, and the entries appended to [names_and_paths] are
    returned. *)
Fixpoint add_entries (nested : string -> string -> PyResult (list (string * string)))
  (target_set : list string) (prefix : string) (entries : list (string * string))
  : PyResult (list (string * string)) :=
  match entries with
  | (name, path) :: entries' =>
      let display := (prefix ++ name)%string in
      children <- (if in_set path target_set then nested path (prefix ++ NEST)%string
                   else Ok []) ;;
      later <- add_entries nested target_set prefix entries' ;;
      Ok ((display, path) :: children ++ later)
  | [] => Ok []
  end.

(** The nested function [add_for_base].  [fuel] bounds the depth of the
    recursion, which follows a chain of ever longer target paths. *)
Fixpoint add_for_base (os : OS) (target_set : list string) (include_hidden : bool)
  (ignore_entries : list string) (fuel : nat) (base_path prefix : string)
  : PyResult (list (string * string)) :=
  match fuel with
  | O => Raise RecursionError
  | S fuel' =>
      let ignored_paths := _resolve_ignore_paths os base_path ignore_entries in
      entries <- _list_subfolders os base_path include_hidden ignored_paths ;;
      add_entries (add_for_base os target_set include_hidden ignore_entries fuel')
        target_set prefix entries
  end.

(** [[path for path in target_paths if not _has_ancestor(path, target_set)]] *)
Fixpoint root_targets_of (target_paths target_set : list string) : PyResult (list string) :=
  match target_paths with
  | path :: rest =>
      anc <- _has_ancestor path target_set ;;
      roots <- root_targets_of rest target_set ;;
      Ok (if anc then roots else path :: roots)
  | [] => Ok []
  end.

(** The [for base_path in root_targets] loop. *)
Fixpoint add_for_roots (os : OS) (target_set : list string) (include_hidden : bool)
  (ignore_entries : list string) (fuel : nat) (root_targets : list string)
  : PyResult (list (string * string)) :=
  match root_targets with
  | base_path :: rest =>
      here <- add_for_base os target_set include_hidden ignore_entries fuel base_path "" ;;
      later <- add_for_roots os target_set include_hidden ignore_entries fuel rest ;;
      Ok (here ++ later)
  | [] => Ok []
  end.

Definition _build_scan_list (os : OS) (target_paths : list string) (include_hidden : bool)
  (ignore_entries : list string) : PyResult (list (string * string)) :=
  let target_set := target_paths in
  root_targets <- root_targets_of target_paths target_set ;;
  add_for_roots os target_set include_hidden ignore_entries
    (S (length target_paths)) root_targets.

(** ** Rendering *)

(** The five column widths [_render_lines] pads to. *)
Record Widths : Type := mkWidths {
  max_name : nat;
  max_branch : nat;
  max_clean : nat;
  max_remote : nat;
  max_sync : nat
}.

(** The raw and the coloured text of the four status cells of a row. *)
Record Cells : Type := mkCells {
  branch_raw : string;
  branch_colored : string;
  clean_raw : string;
  clean_colored : string;
  remote_raw : string;
  remote_colored : string;
  sync_raw : string;
  sync_colored : string
}.

Definition format_cell (raw colored : string) (width : nat) : string :=
  colored ++ PyStr.spaces (Nat.max 0 (width - PyStr.len raw)).

(** [max(len(name) for name in names)] *)
Definition max_len (names : list string) : PyResult nat :=
  match names with
  | first :: rest => Ok (fold_left (fun m n => Nat.max m (PyStr.len n)) rest (PyStr.len first))
  | [] => Raise ValueError
  end.

(** The list [parts] built from the two counts. *)
Definition divergence_parts (ahead_count behind_count : Z) : list string :=
  (if (ahead_count >? 0)%Z then [("ahead " ++ PyStr.str_of_int ahead_count)%string] else [])
  ++ (if (behind_count >? 0)%Z then [("behind " ++ PyStr.str_of_int behind_count)%string] else []).

(** [upstream_ref and ahead_count is not None and behind_count is not None] *)
Definition divergence_known (result : RepoResult) : option (Z * Z) :=
  if PyStr.otruthy (upstream_ref result) then
    match ahead_count result, behind_count result with
    | Some a, Some b => Some (a, b)
    | _, _ => None
    end
  else None.

(** One turn of the loop at lines 368-380, on [(max_branch, max_sync)]. *)
Definition widen (show_remote : bool) (acc : nat * nat) (slot : option RepoResult)
  : nat * nat :=
  let '(max_branch, max_sync) := acc in
  match slot with
  | None => acc
  | Some result =>
      if negb (is_repo result) then acc
      else
        let max_branch :=
          match branch result with
          | Some b => if PyStr.truthy b then Nat.max max_branch (PyStr.len b) else max_branch
          | None => max_branch
          end in
        let max_sync :=
          if show_remote then
            match divergence_known result with
            | Some (a, b) =>
                let parts := divergence_parts a b in
                let label :=
                  match parts with
                  | [] => LABEL_IN_SYNC
                  | _ => PyStr.join ", " parts
                  end in
                Nat.max max_sync (PyStr.len label)
            | None => max_sync
            end
          else max_sync in
        (max_branch, max_sync)
  end.

Definition max_of (lens : list nat) : nat := fold_left Nat.max lens 0.

(** Lines 362-380. *)
Definition column_widths (names : list string) (results : list (option RepoResult))
  (show_remote : bool) : PyResult Widths :=
  max_name <- max_len names ;;
  let max_branch := max_of [PyStr.len LABEL_DETACHED; PyStr.len LABEL_UNKNOWN] in
  let max_clean :=
    max_of [PyStr.len LABEL_CLEAN; PyStr.len LABEL_DIRTY; PyStr.len LABEL_UNKNOWN;
            PyStr.len LABEL_NOT_INIT; PyStr.len LABEL_PENDING] in
  let max_remote := max_of [PyStr.len LABEL_ORIGIN; PyStr.len LABEL_NO_REMOTE] in
  let max_sync :=
    max_of [PyStr.len LABEL_IN_SYNC; PyStr.len LABEL_NO_UPSTREAM; PyStr.len LABEL_ERROR] in
  let '(max_branch, max_sync) := fold_left (widen show_remote) results (max_branch, max_sync) in
  Ok (mkWidths max_name max_branch max_clean max_remote max_sync).

(** The cells of a row whose slot is unresolved or not a repository. *)
Definition placeholder_cells (label code : string) (use_color : bool) : Cells :=
  mkCells label (_color label code use_color) "" "" "" "" "" "".

(** The cells of a repository row, lines 425-474. *)
Definition repo_cells (result : RepoResult) (use_color show_remote : bool) : Cells :=
  let branch :=
    match branch result with
    | Some b => if PyStr.truthy b then b else LABEL_UNKNOWN
    | None => LABEL_UNKNOWN
    end in
  let branch_raw := if branch =? "HEAD" then LABEL_DETACHED else branch in
  let branch_colored := _color branch_raw ANSI_BLUE use_color in
  let '(clean_raw, clean_colored) :=
    match is_clean result with
    | Some true => (LABEL_CLEAN, _color LABEL_CLEAN ANSI_GREEN use_color)
    | Some false => (LABEL_DIRTY, _color LABEL_DIRTY ANSI_RED use_color)
    | None => (LABEL_UNKNOWN, _color LABEL_UNKNOWN ANSI_YELLOW use_color)
    end in
  let '(remote_raw, remote_colored, sync_raw, sync_colored) :=
    if show_remote then
      let '(remote_raw, remote_colored) :=
        if PyStr.otruthy (origin_url result)
        then (LABEL_ORIGIN, _color LABEL_ORIGIN ANSI_CYAN use_color)
        else (LABEL_NO_REMOTE, _color LABEL_NO_REMOTE ANSI_RED use_color) in
      let '(sync_raw, sync_colored) :=
        match divergence_known result with
        | Some (a, b) =>
            if (b =? 0)%Z && (a =? 0)%Z then
              (LABEL_IN_SYNC, _color LABEL_IN_SYNC ANSI_GREEN use_color)
            else
              let parts := divergence_parts a b in
              let label :=
                match parts with
                | [] => "out-of-sync"
                | _ => PyStr.join ", " parts
                end in
              let color := if (b >? 0)%Z then ANSI_RED else ANSI_YELLOW in
              (label, _color label color use_color)
        | None => (LABEL_NO_UPSTREAM, _color LABEL_NO_UPSTREAM ANSI_YELLOW use_color)
        end in
      (remote_raw, remote_colored, sync_raw, sync_colored)
    else ("", "", "", "") in
  let '(sync_raw, sync_colored) :=
    if PyStr.otruthy (error result)
    then (LABEL_ERROR, _color LABEL_ERROR ANSI_RED use_color)
    else (sync_raw, sync_colored) in
  mkCells branch_raw branch_colored clean_raw clean_colored
    remote_raw remote_colored sync_raw sync_colored.

(** The cells of the row of one slot. *)
Definition row_cells (slot : option RepoResult) (use_color show_remote : bool) : Cells :=
  match slot with
  | None => placeholder_cells LABEL_PENDING ANSI_DIM use_color
  | Some result =>
      if negb (is_repo result) then placeholder_cells LABEL_NOT_INIT ANSI_YELLOW use_color
      else repo_cells result use_color show_remote
  end.

(** The f-string that lays a row out: five cells in extended mode, three
    otherwise. *)
Definition format_line (w : Widths) (name : string) (c : Cells) (show_remote : bool)
  : string :=
  if show_remote then
    format_cell name name (max_name w) ++ "  "
    ++ format_cell (branch_raw c) (branch_colored c) (max_branch w) ++ "  "
    ++ format_cell (clean_raw c) (clean_colored c) (max_clean w) ++ "  "
    ++ format_cell (remote_raw c) (remote_colored c) (max_remote w) ++ "  "
    ++ format_cell (sync_raw c) (sync_colored c) (max_sync w)
  else
    format_cell name name (max_name w) ++ "  "
    ++ format_cell (branch_raw c) (branch_colored c) (max_branch w) ++ "  "
    ++ format_cell (clean_raw c) (clean_colored c) (max_clean w).

(** The loop [for idx, name in enumerate(names)] from index [idx] on. *)
Fixpoint render_rows (w : Widths) (results : list (option RepoResult))
  (use_color show_remote : bool) (idx : nat) (names : list string)
  : PyResult (list string) :=
  match names with
  | name :: names' =>
      match nth_error results idx with
      | None => Raise IndexError
      | Some slot =>
          let line :=
            format_line w name (row_cells slot use_color show_remote) show_remote in
          lines <- render_rows w results use_color show_remote (S idx) names' ;;
          Ok (line :: lines)
      end
  | [] => Ok []
  end.

Definition _render_lines (names : list string) (results : list (option RepoResult))
  (use_color show_remote : bool) : PyResult (list string) :=
  w <- column_widths names results show_remote ;;
  render_rows w results use_color show_remote 0 names.

(** ** The scheduler's output: [_run_checks] *)

(** What reaches the terminal: [_clear_lines] erasing a block of
    [line_count] lines, and [_print_block] writing a block. *)
Inductive Event : Type :=
| Cleared (line_count : nat)
| Printed (lines : list string).

Definition _clear_lines (line_count : nat) : list Event :=
  if (line_count <=? 0)%nat then [] else [Cleared line_count].

Definition _print_block (lines : list string) : list Event := [Printed lines].

(** [results[idx] = result] *)
Fixpoint set_item {A} (l : list A) (idx : nat) (a : A) : PyResult (list A) :=
  match l, idx with
  | _ :: l', O => Ok (a :: l')
  | x :: l', S idx' => l'' <- set_item l' idx' a ;; Ok (x :: l'')
  | [], _ => Raise IndexError
  end.

(** The part of [run_one] that follows the probe of task [idx]. *)
Definition run_one (names : list string) (use_color allow_dynamic show_remote : bool)
  (results : list (option RepoResult)) (idx : nat) (result : RepoResult)
  : PyResult (list (option RepoResult) * list Event) :=
  results' <- set_item results idx (Some result) ;;
  if allow_dynamic then
    lines <- _render_lines names results' use_color show_remote ;;
    Ok (results', _clear_lines (length names) ++ _print_block lines)
  else Ok (results', []).

(** The tasks finishing in the order [schedule]. *)
Fixpoint complete (env : Env) (names_and_paths : list (string * string))
  (names : list string) (use_color allow_dynamic show_remote : bool)
  (results : list (option RepoResult)) (schedule : list nat)
  : PyResult (list (option RepoResult) * list Event) :=
  match schedule with
  | idx :: schedule' =>
      match nth_error names_and_paths idx with
      | None => Raise IndexError
      | Some (name, path) =>
          let result := result_of (_check_repo path name) env in
          '(results', out) <- run_one names use_color allow_dynamic show_remote
                                results idx result ;;
          '(results'', out') <- complete env names_and_paths names use_color
                                  allow_dynamic show_remote results' schedule' ;;
          Ok (results'', out ++ out')
      end
  | [] => Ok (results, [])
  end.

(** [_run_checks], for the order [schedule] in which the probes finish.
    [max_workers] bounds how many probes are in flight, hence which
    orders can occur, not what an order prints. *)
Definition _run_checks (env : Env) (schedule : list nat)
  (names_and_paths : list (string * string)) (use_color allow_dynamic : bool)
  (max_workers : Z) (show_remote : bool) : PyResult (list Event) :=
  let names := map fst names_and_paths in
  let results := repeat (@None RepoResult) (length names) in
  first <- (if allow_dynamic then
              lines <- _render_lines names results use_color show_remote ;;
              Ok (_print_block lines)
            else Ok []) ;;
  '(results', out) <- complete env names_and_paths names use_color allow_dynamic
                        show_remote results schedule ;;
  last <- (if negb allow_dynamic then
             lines <- _render_lines names results' use_color show_remote ;;
             Ok (_print_block lines)
           else Ok []) ;;
  Ok (first ++ out ++ last).

(** ** The remote named by an upstream ref *)

Fixpoint before_slash (s : string) : option string :=
  match s with
  | String c r =>
      if Ascii.eqb c "/" then Some EmptyString
      else option_map (String c) (before_slash r)
  | EmptyString => None
  end.

(** Modelled from the spec: [_upstream_remote_name] is exercised by
    [tests/test_cli_sync_status.py] but [cli.py] does not define it.  The
    spec gives it as the text before the first slash of the upstream ref,
    and no remote name when the ref has no slash. *)
Definition _upstream_remote_name (upstream : string) : option string :=
  before_slash upstream.

(** ** Scripted environments, after [tests/test_cli_sync_status.py] *)

Fixpoint args_eqb (a b : list string) : bool :=
  match a, b with
  | x :: a', y :: b' => (x =? y) && args_eqb a' b'
  | [], [] => true
  | _, _ => false
  end.

(** The environment that answers the scripted invocations and fails
    every other one. *)
Fixpoint scripted (script : list (list string * GitResult)) : Env :=
  fun path args =>
    match script with
    | (expected, response) :: script' =>
        if args_eqb args expected then response else scripted script' path args
    | [] => (128%Z, "", "unexpected git call")
    end.

Definition script_maps_ahead_behind : list (list string * GitResult) :=
  [ (ARGS_WORK_TREE, (0%Z, "true", ""));
    (ARGS_HEAD, (0%Z, "main", ""));
    (ARGS_STATUS, (0%Z, "", ""));
    (ARGS_ORIGIN, (0%Z, "git@example.com:org/repo.git", ""));
    (ARGS_UPSTREAM, (0%Z, "origin/main", ""));
    (ARGS_FETCH "origin", (0%Z, "", ""));
    (ARGS_COUNTS, (0%Z, "3 1", "")) ].

Definition script_fetch_fails : list (list string * GitResult) :=
  [ (ARGS_WORK_TREE, (0%Z, "true", ""));
    (ARGS_HEAD, (0%Z, "main", ""));
    (ARGS_STATUS, (0%Z, "", ""));
    (ARGS_ORIGIN, (0%Z, "git@example.com:org/repo.git", ""));
    (ARGS_UPSTREAM, (0%Z, "origin/main", ""));
    (ARGS_FETCH "origin", (128%Z, "", "offline"));
    (ARGS_COUNTS, (0%Z, "0 2", "")) ].

(** A folder that is not a work tree, and a repository whose status
    query fails. *)
Definition script_plain_folder : list (list string * GitResult) :=
  [ (ARGS_WORK_TREE, (128%Z, "", "fatal: not a git repository")) ].

Definition script_status_fails : list (list string * GitResult) :=
  [ (ARGS_WORK_TREE, (0%Z, "true", ""));
    (ARGS_HEAD, (0%Z, "main", ""));
    (ARGS_STATUS, (128%Z, "", "fatal: index file corrupt")) ].

(** ** Frames *)

(** An output event concerns a block of [n] lines. *)
Definition block_of (n : nat) (e : Event) : Prop :=
  match e with
  | Cleared line_count => line_count = n
  | Printed lines => length lines = n
  end.

(** A later state of the slot array: resolved slots keep their result. *)
Definition resolves_further (earlier later : list (option RepoResult)) : Prop :=
  Forall2 (fun a b => a = None \/ a = b) earlier later.

(** The labels of a slot fit the fixed label widths: the branch name has at
    most [len(LABEL_DETACHED)] characters and the divergence label at most
    [len(LABEL_NO_UPSTREAM)]. *)
Definition fits_fixed_widths (show_remote : bool) (slot : option RepoResult) : bool :=
  let '(b, s) := widen show_remote (PyStr.len LABEL_DETACHED, PyStr.len LABEL_NO_UPSTREAM) slot in
  (b =? PyStr.len LABEL_DETACHED)%nat && (s =? PyStr.len LABEL_NO_UPSTREAM)%nat.

(** ** Sample results *)

Definition result_long_branch : RepoResult :=
  mkRepoResult "a" "/r/a" true (Some "feature/sync-status") (Some true)
    (Some "git@example.com:org/a.git") (Some "origin/feature/sync-status")
    (Some 0%Z) (Some 0%Z) None.

Definition result_in_sync : RepoResult :=
  mkRepoResult "a" "/r/a" true (Some "main") (Some true)
    (Some "git@example.com:org/a.git") (Some "origin/main") (Some 0%Z) (Some 0%Z) None.

Definition result_in_sync_with_error : RepoResult :=
  mkRepoResult "a" "/r/a" true (Some "main") (Some true)
    (Some "git@example.com:org/a.git") (Some "origin/main") (Some 0%Z) (Some 0%Z)
    (Some "fatal: bad object").

Definition result_counts_unknown : RepoResult :=
  mkRepoResult "a" "/r/a" true (Some "main") (Some true)
    (Some "git@example.com:org/a.git") (Some "origin/main") None None None.

Definition result_no_upstream : RepoResult :=
  mkRepoResult "a" "/r/a" true (Some "main") (Some true)
    (Some "git@example.com:org/a.git") None None None None.

(** The same result with its upstream and both counts absent: what the
    probe returns for a repository without an upstream. *)
Definition without_upstream (r : RepoResult) : RepoResult :=
  mkRepoResult (name r) (path r) (is_repo r) (branch r) (is_clean r) (origin_url r)
    None None None (error r).

(** What one slot asks of the branch and the sync column. *)
Definition slot_needs (show_remote : bool) (slot : option RepoResult) : nat * nat :=
  widen show_remote (0, 0) slot.

(** Two frames of a live render of two entries: nothing resolved yet,
    then the first entry resolved. *)
Definition frame_names : list string := ["a"; "b"].
Definition frame_pending : list (option RepoResult) := [None; None].
Definition frame_first_done : list (option RepoResult) := [Some result_long_branch; None].

(** [sep in s] *)
Fixpoint has_slash (s : string) : bool :=
  match s with
  | String c r => Ascii.eqb c "/" || has_slash r
  | EmptyString => false
  end.

(** ** Normalised absolute paths *)

(** A path component: non-empty, without a separator, and not [curdir]. *)
Definition valid_component (c : string) : bool :=
  PyPath.keeps c && negb (has_slash c).

(** The absolute path with the given components: ["/"] for none,
    ["/a/b"] for [["a"; "b"]]. *)
Definition abs_path (components : list string) : string :=
  PyPath.sep ++ PyStr.join PyPath.sep components.

Fixpoint common_prefix (a b : list string) : list string :=
  match a, b with
  | x :: a', y :: b' => if x =? y then x :: common_prefix a' b' else []
  | _, _ => []
  end.

(** [a] is [b] or an ancestor of [b], component-wise. *)
Fixpoint is_prefix (a b : list string) : bool :=
  match a, b with
  | x :: a', y :: b' => (x =? y) && is_prefix a' b'
  | [], _ => true
  | _ :: _, [] => false
  end.

(** ** Enumeration, entry by entry *)

(** The verdict of [_is_ignored]. *)
Definition is_ignoredb (path : string) (ignored_paths : list string) : bool :=
  match _is_ignored path ignored_paths with
  | Ok b => b
  | Raise _ => false
  end.

(** The entries that survive the three [continue]s of [_list_subfolders]. *)
Definition listed (base_path : string) (include_hidden : bool)
  (ignored_paths : list string) (entry : DirEntry) : bool :=
  entry_is_dir entry
  && negb (is_ignoredb (entry_path base_path entry) ignored_paths)
  && negb (negb include_hidden && PyPath.startswith (entry_name entry) ".").

(** Keys in non-decreasing order: no key is [<] an earlier one. *)
Definition sorted_by {A} (key : A -> string) (l : list A) : Prop :=
  StronglySorted (fun a b => String.leb (key a) (key b) = true) l.

(** [folder] is [ancestor] or lies under it. *)
Definition equal_or_under (folder ancestor : list string) : Prop :=
  exists rest, folder = ancestor ++ rest.

(** ** A sample file system

    [/srv] holds the folders [foo], [foo-bar], [Zeta], [alpha], [.cache]
    and the file [notes.txt]; [/srv/alpha] holds [lib] and [App]; and
    [//srv] is a directory with the folders [vendor] and [app]. *)

(** [str.lower] on ASCII letters. *)
Definition ascii_lower (c : ascii) : ascii :=
  let n := nat_of_ascii c in
  if (65 <=? n)%nat && (n <=? 90)%nat then ascii_of_nat (n + 32) else c.

Fixpoint lower_ascii (s : string) : string :=
  match s with
  | String c r => String (ascii_lower c) (lower_ascii r)
  | EmptyString => EmptyString
  end.

Definition sample_scandir (path : string) : PyResult (list DirEntry) :=
  if path =? "/srv" then
    Ok [mkDirEntry "foo-bar" true; mkDirEntry "notes.txt" false; mkDirEntry "Zeta" true;
        mkDirEntry "foo" true; mkDirEntry ".cache" true; mkDirEntry "alpha" true]
  else if path =? "/srv/alpha" then
    Ok [mkDirEntry "lib" true; mkDirEntry "App" true]
  else if path =? "/srv/Zeta" then Ok []
  else if path =? "/srv/foo-bar" then Ok []
  else if path =? "//srv" then Ok [mkDirEntry "vendor" true; mkDirEntry "app" true]
  else Raise OSError.

(** Paths that are already absolute and normalised are left alone by
    [expanduser], [normpath] and [abspath]. *)
Definition sample_os : OS :=
  mkOS sample_scandir (fun p => p) (fun p => p) (fun p => p) lower_ascii.

(** ** The shape of a scan list *)

Section Shape.

Variable os : OS.
Variable target_set : list string.
Variable include_hidden : bool.
Variable ignore_entries : list string.

(** [Listing base prefix out]: [out] lists the sub-folders of [base] in
    case-insensitive order of their names, each name after [prefix].
    [Blocks prefix entries out]: [out] goes through [entries] in order and
    gives each entry its own row, followed at once, when the entry is a
    target itself, by the listing of its sub-folders one nesting marker
    deeper, before the row of the next entry. *)
Inductive Listing : string -> string -> list (string * string) -> Prop :=
| Listing_intro (base_path prefix : string) (entries out : list (string * string)) :
    _list_subfolders os base_path include_hidden
      (_resolve_ignore_paths os base_path ignore_entries) = Ok entries ->
    sorted_by (fun item => lower os (fst item)) entries ->
    Blocks prefix entries out ->
    Listing base_path prefix out
with Blocks : string -> list (string * string) -> list (string * string) -> Prop :=
| Blocks_nil (prefix : string) : Blocks prefix [] []
| Blocks_plain (prefix name path : string) (entries out : list (string * string)) :
    in_set path target_set = false ->
    Blocks prefix entries out ->
    Blocks prefix ((name, path) :: entries) (((prefix ++ name)%string, path) :: out)
| Blocks_target (prefix name path : string)
    (entries children out : list (string * string)) :
    in_set path target_set = true ->
    Listing path (prefix ++ NEST)%string children ->
    Blocks prefix entries out ->
    Blocks prefix ((name, path) :: entries)
      (((prefix ++ name)%string, path) :: children ++ out).

(** The scan list of the top-level roots: their listings, one after the
    other, without prefix. *)
Inductive ScanList : list string -> list (string * string) -> Prop :=
| ScanList_nil : ScanList [] []
| ScanList_cons (base_path : string) (roots : list string)
    (here later : list (string * string)) :
    Listing base_path "" here ->
    ScanList roots later ->
    ScanList (base_path :: roots) (here ++ later).

End Shape.

(** The number of targets with a longer path than [base_path]: the depth
    the recursion of [add_for_base] can still reach. *)
Definition longer_targets (target_set : list string) (base_path : string) : nat :=
  length (filter (fun t => (String.length base_path <? String.length t)%nat) target_set).

(** What [main] has checked of the targets, and what [os.scandir] yields:
    every target is a non-empty path that can be scanned, and the names
    found are non-empty and do not start with a separator. *)
Definition scannable (os : OS) (target_paths : list string) : Prop :=
  forall p, In p target_paths ->
    p <> ""
    /\ exists it, scandir os p = Ok it
         /\ Forall (fun e => entry_name e <> ""
                             /\ PyPath.startswith (entry_name e) PyPath.sep = false) it.

(** ** Configuration: [_parse_bool], [_load_config], [_write_config],
    [_coerce_config], [_ensure_config], [_load_ignore_entries] *)

(** Text within ASCII, where [strip], [isdigit], [int] and [lower] of this
    development are those of Python. *)
Fixpoint is_ascii (s : string) : bool :=
  match s with
  | String c r => (nat_of_ascii c <? 128)%nat && is_ascii r
  | EmptyString => true
  end.

(** The dictionary of [_default_config], [_coerce_config] and
    [_write_config]: its keys are ["paths"], ["exclude_hidden"] and
    ["max_workers"], the last two with string values. *)
Record Config : Type := mkConfig {
  paths : list string;
  exclude_hidden : string;
  max_workers : string
}.

(** [_default_config], given [os.getcwd()] and [os.cpu_count()]. *)
Definition _default_config (cwd : string) (cpu_count : option Z) : Config :=
  let count :=
    match cpu_count with
    | Some n => if (n =? 0)%Z then 4%Z else n
    | None => 4%Z
    end in
  mkConfig [cwd] "false" (PyStr.str_of_int count).

(** [value in {...}] for a set of string literals. *)
Definition in_tokens (value : string) (tokens : list string) : bool :=
  existsb (String.eqb value) tokens.

Definition TRUE_TOKENS : list string := ["1"; "true"; "yes"; "on"].
Definition FALSE_TOKENS : list string := ["0"; "false"; "no"; "off"].

(** [_parse_bool].  The tokens are ASCII and no character outside ASCII
    lower-cases to one of their letters, so [lower_ascii] decides the
    membership as [str.lower] does. *)
Definition _parse_bool (value : string) : option bool :=
  let normalized := lower_ascii (PyStr.strip value) in
  if in_tokens normalized TRUE_TOKENS then Some true
  else if in_tokens normalized FALSE_TOKENS then Some false
  else None.

(** A line break of a text file read with universal newlines. *)
Definition is_newline (c : ascii) : bool :=
  Ascii.eqb c (ascii_of_nat 10) || Ascii.eqb c (ascii_of_nat 13).

Fixpoint file_lines_from (line content : string) : list string :=
  match content with
  | String c r =>
      if is_newline c then line :: file_lines_from EmptyString r
      else file_lines_from (line ++ String c EmptyString) r
  | EmptyString =>
      match line with
      | EmptyString => []
      | _ => [line]
      end
  end.

(** [for line in handle]: the lines of a file, here without their
    terminators.  Both readers strip each line first, which removes the
    terminator, and skip blank lines, so that a CR LF pair counted as two
    breaks changes nothing. *)
Definition file_lines (content : string) : list string :=
  file_lines_from EmptyString content.

(** The files the configuration code reads and writes, by path.
    Directories, and errors other than a missing file, are left out. *)
Definition FS : Type := string -> option string.

(** [os.path.exists(path)] *)
Definition fs_exists (fs : FS) (path : string) : bool :=
  match fs path with
  | Some _ => true
  | None => false
  end.

(** [open(path, "w")] followed by the writes that make up [content]. *)
Definition fs_write (fs : FS) (path content : string) : FS :=
  fun p => if p =? path then Some content else fs p.

(** [stripped.split("=", 1)] for a string that contains ["="]. *)
Fixpoint split_first_eq (s : string) : option (string * string) :=
  match s with
  | String c r =>
      if Ascii.eqb c "=" then Some (EmptyString, r)
      else
        match split_first_eq r with
        | Some (key, value) => Some (String c key, value)
        | None => None
        end
  | EmptyString => None
  end.

(** One turn of the loop of [_load_config]: the pair a line contributes,
    if any. *)
Definition config_line (line : string) : option (string * string) :=
  let stripped := PyStr.strip line in
  if negb (PyStr.truthy stripped) || PyPath.startswith stripped "#" then None
  else
    match split_first_eq stripped with
    | Some (key, value) => Some (PyStr.strip key, PyStr.strip value)
    | None => None
    end.

Fixpoint collect_some {A B} (f : A -> option B) (l : list A) : list B :=
  match l with
  | a :: l' =>
      match f a with
      | Some b => b :: collect_some f l'
      | None => collect_some f l'
      end
  | [] => []
  end.

Definition _load_config (fs : FS) (path : string) : list (string * string) :=
  match fs path with
  | Some content => collect_some config_line (file_lines content)
  | None => []
  end.

Definition NL : string := String (ascii_of_nat 10) EmptyString.

(** What [_write_config] writes. *)
Definition config_text (values : Config) : string :=
  (String.concat ""
     (map (fun entry => "path=" ++ entry ++ NL)%string (paths values))
   ++ ("exclude_hidden=" ++ exclude_hidden values ++ NL)
   ++ ("max_workers=" ++ max_workers values ++ NL))%string.

Definition _write_config (fs : FS) (path : string) (values : Config) : FS :=
  fs_write fs path (config_text values).

(** One turn of the loop of [_coerce_config]. *)
Definition coerce_step (config : Config) (item : string * string) : Config :=
  let '(key, value) := item in
  if (key =? "path") && PyStr.truthy value then
    mkConfig (paths config ++ [value]) (exclude_hidden config) (max_workers config)
  else if key =? "exclude_hidden" then
    match _parse_bool value with
    | Some parsed =>
        mkConfig (paths config) (if parsed then "true" else "false") (max_workers config)
    | None => config
    end
  else if key =? "max_workers" then
    if PyStr.isdigit value && (PyStr.int value >? 0)%Z then
      mkConfig (paths config) (exclude_hidden config) value
    else config
  else config.

Definition _coerce_config (values : list (string * string)) (defaults : Config) : Config :=
  let config :=
    fold_left coerce_step values
      (mkConfig [] (exclude_hidden defaults) (max_workers defaults)) in
  match paths config with
  | [] => mkConfig (paths defaults) (exclude_hidden config) (max_workers config)
  | _ => config
  end.

(** [_ensure_config], given the defaults and the two paths
    [_config_file_path()] and [_legacy_config_file_path()]: the
    configuration and the files afterwards. *)
Definition _ensure_config (defaults : Config) (config_path legacy_path : string)
  (fs : FS) : Config * FS :=
  let fs' :=
    if negb (fs_exists fs config_path) then
      if fs_exists fs legacy_path then
        let legacy := _load_config fs legacy_path in
        _write_config fs config_path (_coerce_config legacy defaults)
      else _write_config fs config_path defaults
    else fs in
  let raw := _load_config fs' config_path in
  (_coerce_config raw defaults, fs').

(** One turn of the loop of [_load_ignore_entries]. *)
Definition ignore_line (line : string) : option string :=
  let stripped := PyStr.strip line in
  if negb (PyStr.truthy stripped) || PyPath.startswith stripped "#" then None
  else Some stripped.

(** [_load_ignore_entries], given [_ignore_file_path()]. *)
Definition _load_ignore_entries (fs : FS) (ignore_path : string) : list string :=
  match fs ignore_path with
  | Some content => collect_some ignore_line (file_lines content)
  | None => []
  end.

(** ** [_normalize_paths] *)

(** The loop of [_normalize_paths] on the lists [normalized] and [seen]. *)
Fixpoint normalize_loop (os : OS) (normalized seen paths : list string) : list string :=
  match paths with
  | path :: rest =>
      if negb (PyStr.truthy path) then normalize_loop os normalized seen rest
      else
        let expanded := abspath os (expanduser os path) in
        if in_set expanded seen then normalize_loop os normalized seen rest
        else normalize_loop os (normalized ++ [expanded]) (expanded :: seen) rest
  | [] => normalized
  end.

Definition _normalize_paths (os : OS) (paths : list string) : list string :=
  normalize_loop os [] [] paths.

(** ** Well-formed configurations *)

(** No white space at either end. *)
Definition trimmed (s : string) : Prop := PyStr.lstrip s = s /\ PyStr.rstrip s = s.

Fixpoint no_newline (s : string) : bool :=
  match s with
  | String c r => negb (is_newline c) && no_newline r
  | EmptyString => true
  end.

(** What [build_parser] relies on: some path, a boolean word, a positive
    decimal number. *)
Definition valid_config (c : Config) : Prop :=
  paths c <> []
  /\ (exclude_hidden c = "true" \/ exclude_hidden c = "false")
  /\ PyStr.isdigit (max_workers c) = true
  /\ (0 < PyStr.int (max_workers c))%Z.

(** A path that a configuration line can carry unchanged: ASCII text,
    not empty, without white space at either end and without line break. *)
Definition line_safe (p : string) : Prop :=
  p <> "" /\ is_ascii p = true /\ trimmed p /\ no_newline p = true.

(** ["=" in s] *)
Fixpoint has_eq (s : string) : bool :=
  match s with
  | String c r => Ascii.eqb c "=" || has_eq r
  | EmptyString => false
  end.

(** The pairs [_write_config] writes for a configuration. *)
Definition config_items (c : Config) : list (string * string) :=
  map (fun p => ("path", p)) (paths c)
  ++ [("exclude_hidden", exclude_hidden c); ("max_workers", max_workers c)].

(** Every character of [s] passes [f]. *)
Fixpoint string_forall (f : ascii -> bool) (s : string) : bool :=
  match s with
  | String c r => f c && string_forall f r
  | EmptyString => true
  end.

(** ** Nesting of targets *)

Fixpoint components_eqb (a b : list string) : bool :=
  match a, b with
  | x :: a', y :: b' => (x =? y) && components_eqb a' b'
  | [], [] => true
  | _, _ => false
  end.

(** [other] is a proper ancestor of [folder]. *)
Definition proper_ancestor (folder other : list string) : bool :=
  negb (components_eqb other folder) && is_prefix other folder.

(** The target has no proper ancestor among the candidates. *)
Definition is_root_target (candidates : list (list string)) (target : list string) : bool :=
  negb (existsb (proper_ancestor target) candidates).

(** ** More sample data *)

(** What [sample_scandir] yields for [/srv]. *)
Definition srv_entries : list DirEntry :=
  [mkDirEntry "foo-bar" true; mkDirEntry "notes.txt" false; mkDirEntry "Zeta" true;
   mkDirEntry "foo" true; mkDirEntry ".cache" true; mkDirEntry "alpha" true].

(** The sample file system read in the opposite order. *)
Definition reversed_os : OS :=
  mkOS (fun path => entries <- sample_scandir path ;; Ok (rev entries))
       (fun p => p) (fun p => p) (fun p => p) lower_ascii.

(** ** Rows of a scan list *)

(** The prefix [add_for_base] passes down at the given depth. *)
Fixpoint nest (depth : nat) : string :=
  match depth with
  | O => ""
  | S depth' => (nest depth' ++ NEST)%string
  end.

(** The row shows a folder that [os.scandir] yields for one of the
    targets and that [_list_subfolders] keeps, under its own name behind
    some nesting markers. *)
Definition row_of_target (os : OS) (target_paths : list string) (include_hidden : bool)
  (ignore_entries : list string) (row : string * string) : Prop :=
  exists base_path it e depth,
    In base_path target_paths
    /\ scandir os base_path = Ok it
    /\ In e it
    /\ listed base_path include_hidden
         (_resolve_ignore_paths os base_path ignore_entries) e = true
    /\ row = ((nest depth ++ entry_name e)%string, entry_path base_path e).

(** ** The queries of the probe *)

(** The six read-only queries, in the order [_check_repo] issues them. *)
Definition QUERIES : list (list string) :=
  [ARGS_WORK_TREE; ARGS_HEAD; ARGS_STATUS; ARGS_ORIGIN; ARGS_UPSTREAM; ARGS_COUNTS].

(** How many of them a probe of [path] gets to. *)
Definition queries_made (env : Env) (path : string) : nat :=
  if negb (succeeded env path ARGS_WORK_TREE) then 1
  else if negb (succeeded env path ARGS_HEAD) then 2
  else if negb (succeeded env path ARGS_STATUS) then 3
  else if has_upstream env path then 6
  else 5.

(** ** The width of a frame *)

(** The columns of a row and the two blanks between neighbours. *)
Definition line_width (w : Widths) (show_remote : bool) : nat :=
  if show_remote then
    max_name w + 2 + max_branch w + 2 + max_clean w + 2 + max_remote w + 2 + max_sync w
  else max_name w + 2 + max_branch w + 2 + max_clean w.

(** ** What the scheduler ends with *)

(** Every slot resolved with the result of the probe of its own folder. *)
Definition probe_all (env : Env) (names_and_paths : list (string * string))
  : list (option RepoResult) :=
  map (fun item => Some (result_of (_check_repo (snd item) (fst item)) env))
      names_and_paths.

(** The events of a live run: the first frame, then each later frame
    behind the erasure of [line_count] lines. *)
Definition live_events (line_count : nat) (first : list string)
  (frames : list (list string)) : list Event :=
  Printed first :: flat_map (fun frame => [Cleared line_count; Printed frame]) frames.
(** * Facts about the string primitives *)

Section StringFacts.

Lemma append_nil_r (s : string) : (s ++ "")%string = s.
Proof. induction s; simpl; congruence. Qed.

Lemma append_assoc (a b c : string) : ((a ++ b) ++ c)%string = (a ++ b ++ c)%string.
Proof. induction a; simpl; congruence. Qed.

Lemma is_digit_not_space (c : ascii) :
  PyStr.is_digit c = true -> PyStr.is_space c = false.
Proof.
  unfold PyStr.is_digit, PyStr.is_space.
  generalize (nat_of_ascii c); intros n H.
  apply andb_true_iff in H; destruct H as [H1 H2].
  apply Nat.leb_le in H1; apply Nat.leb_le in H2.
  apply orb_false_iff; split; apply andb_false_iff.
  - right; apply Nat.leb_gt; lia.
  - right; apply Nat.leb_gt; lia.
Qed.

Lemma flush_nonempty (w : string) : w <> "" -> PyStr.flush w = [w].
Proof. destruct w; [congruence | reflexivity]. Qed.

Lemma split_from_spaces (ws r : string) :
  PyStr.all_spaces ws = true ->
  PyStr.split_from "" (ws ++ r) = PyStr.split_from "" r.
Proof.
  induction ws as [|c ws IH]; simpl; [reflexivity|].
  intros H; apply andb_true_iff in H; destruct H as [Hc Hws].
  rewrite Hc; simpl; auto.
Qed.

Lemma split_from_digits (s : string) :
  PyStr.all_digits s = true ->
  forall w r, PyStr.split_from w (s ++ r) = PyStr.split_from (w ++ s) r.
Proof.
  induction s as [|c s IH]; simpl; intros H w r.
  - now rewrite append_nil_r.
  - apply andb_true_iff in H; destruct H as [Hc Hs].
    rewrite (is_digit_not_space _ Hc), IH by assumption.
    now rewrite append_assoc.
Qed.

Lemma split_from_lstrip (s : string) :
  PyStr.split_from "" (PyStr.lstrip s) = PyStr.split_from "" s.
Proof.
  induction s as [|c s IH]; simpl; [reflexivity|].
  destruct (PyStr.is_space c) eqn:Hc; simpl; [assumption|].
  now rewrite Hc.
Qed.

Lemma split_from_rstrip (s : string) :
  forall w, PyStr.split_from w (PyStr.rstrip s) = PyStr.split_from w s.
Proof.
  induction s as [|c s IH]; intros w; simpl; [reflexivity|].
  destruct (PyStr.rstrip s) as [|c' r'] eqn:Hr.
  - assert (Hs : forall v, PyStr.split_from v s = PyStr.flush v)
      by (intros v; rewrite <- IH; reflexivity).
    destruct (PyStr.is_space c) eqn:Hc; simpl.
    + rewrite Hs; simpl. now rewrite app_nil_r.
    + now rewrite Hc, Hs.
  - rewrite <- Hr in IH |- *; simpl. destruct (PyStr.is_space c); now rewrite IH.
Qed.

(** [split] does not see the white space [strip] removes. *)
Lemma split_strip (s : string) : PyStr.split (PyStr.strip s) = PyStr.split s.
Proof.
  unfold PyStr.split, PyStr.strip.
  now rewrite split_from_lstrip, split_from_rstrip.
Qed.

Lemma isdigit_inv (s : string) :
  PyStr.isdigit s = true -> s <> "" /\ PyStr.all_digits s = true.
Proof.
  unfold PyStr.isdigit, PyStr.truthy; intros H.
  apply andb_true_iff in H; destruct H as [H1 H2]; split; [|assumption].
  intros ->; discriminate.
Qed.

(** Two numerals separated and surrounded by white space split into
    exactly the two numerals. *)
Lemma split_two_numerals (ws1 sl ws2 sr ws3 : string) :
  PyStr.all_spaces ws1 = true -> PyStr.isdigit sl = true ->
  PyStr.all_spaces ws2 = true -> ws2 <> "" ->
  PyStr.isdigit sr = true -> PyStr.all_spaces ws3 = true ->
  PyStr.split (PyStr.strip (ws1 ++ sl ++ ws2 ++ sr ++ ws3)) = [sl; sr].
Proof.
  intros H1 Hl H2 Hne Hr H3.
  apply isdigit_inv in Hl; destruct Hl as [Hl0 Hl].
  apply isdigit_inv in Hr; destruct Hr as [Hr0 Hr].
  rewrite split_strip; unfold PyStr.split.
  rewrite split_from_spaces, split_from_digits by assumption; simpl.
  destruct ws2 as [|c ws2]; [congruence|].
  simpl in H2; apply andb_true_iff in H2; destruct H2 as [Hc H2].
  simpl; rewrite Hc, flush_nonempty by assumption; simpl; f_equal.
  rewrite split_from_spaces, split_from_digits by assumption; simpl.
  assert (E : PyStr.split_from sr ws3 = PyStr.split_from sr (ws3 ++ ""))
    by now rewrite append_nil_r.
  destruct ws3 as [|c3 ws3]; simpl; [now apply flush_nonempty|].
  simpl in H3; apply andb_true_iff in H3; destruct H3 as [Hc3 H3].
  rewrite Hc3, flush_nonempty by assumption; simpl; f_equal.
  pose proof (split_from_spaces ws3 "" H3) as E3.
  now rewrite append_nil_r in E3.
Qed.

Lemma all_digits_string_of_uint (d : Decimal.uint) :
  PyStr.all_digits (NilEmpty.string_of_uint d) = true.
Proof. induction d; simpl; auto. Qed.

Lemma int_from_string_of_uint (d : Decimal.uint) :
  forall acc, PyStr.int_from (Zpos acc) (NilEmpty.string_of_uint d)
              = Zpos (Pos.of_uint_acc d acc).
Proof.
  induction d; intros acc;
    cbn [NilEmpty.string_of_uint PyStr.int_from Pos.of_uint_acc];
    try reflexivity;
    rewrite <- IHd; f_equal;
    match goal with
    | |- context [PyStr.digit_value ?c] =>
        let v := eval vm_compute in (PyStr.digit_value c) in
        change (PyStr.digit_value c) with v
    end; lia.
Qed.

Lemma int_string_of_uint (d : Decimal.uint) :
  PyStr.int (NilEmpty.string_of_uint d) = Z.of_N (Pos.of_uint d).
Proof.
  unfold PyStr.int.
  induction d; cbn [NilEmpty.string_of_uint PyStr.int_from Pos.of_uint];
    try reflexivity; try assumption;
    match goal with
    | |- context [PyStr.digit_value ?c] =>
        let v := eval vm_compute in (PyStr.digit_value c) in
        change (PyStr.digit_value c) with v
    end;
    match goal with
    | |- PyStr.int_from ?z _ = _ =>
        let p := eval vm_compute in z in change z with p
    end;
    now rewrite int_from_string_of_uint.
Qed.

Lemma str_of_int_pos (p : positive) :
  PyStr.str_of_int (Zpos p) = NilEmpty.string_of_uint (Pos.to_uint p).
Proof.
  unfold PyStr.str_of_int; simpl.
  pose proof (DecimalPos.Unsigned.to_uint_nonnil p) as H.
  destruct (Pos.to_uint p); [congruence | reflexivity ..].
Qed.

(** [int(str(n)) == n] and [str(n).isdigit()] for a count [n >= 0]. *)
Lemma int_str_of_int (n : Z) : (0 <= n)%Z -> PyStr.int (PyStr.str_of_int n) = n.
Proof.
  destruct n as [|p|p]; intros H; [reflexivity | | lia].
  rewrite str_of_int_pos, int_string_of_uint.
  now rewrite DecimalPos.Unsigned.of_to.
Qed.

Lemma isdigit_str_of_int (n : Z) : (0 <= n)%Z -> PyStr.isdigit (PyStr.str_of_int n) = true.
Proof.
  destruct n as [|p|p]; intros H; [reflexivity | | lia].
  rewrite str_of_int_pos; unfold PyStr.isdigit.
  rewrite all_digits_string_of_uint, andb_true_r.
  pose proof (DecimalPos.Unsigned.to_uint_nonnil p) as Hn.
  destruct (Pos.to_uint p); [congruence | reflexivity ..].
Qed.

End StringFacts.

(** * Facts about the probe *)

Section ProbeFacts.

Variable env : Env.
Variables dir label : string.

Ltac run_probe :=
  destruct (env dir ARGS_WORK_TREE) as [[? ?] ?] eqn:?;
  destruct (env dir ARGS_HEAD) as [[? ?] ?] eqn:?;
  destruct (env dir ARGS_STATUS) as [[? ?] ?] eqn:?;
  destruct (env dir ARGS_ORIGIN) as [[? ?] ?] eqn:?;
  destruct (env dir ARGS_UPSTREAM) as [[? ?] ?] eqn:?;
  destruct (env dir ARGS_COUNTS) as [[? ?] ?] eqn:?;
  unfold succeeded, code_of, stdout_of, stderr_of, calls_of, result_of,
    _check_repo, bind, ret, _run_git in *;
  repeat match goal with
    | E : env dir ?a = _, H : context [env dir ?a] |- _ => rewrite E in H
    end;
  cbn [fst snd] in *.

Ltac probe_steps :=
  repeat (simpl;
          match goal with
          | E : env dir ?a = _ |- context [env dir ?a] => rewrite E
          | H : (?c =? 0)%Z = _ |- context [(?c =? 0)%Z] => rewrite H
          end);
  simpl.

Lemma check_repo_not_work_tree :
  succeeded env dir ARGS_WORK_TREE = false ->
  result_of (_check_repo dir label) env
  = mkRepoResult label dir false None None None None None None None
  /\ calls_of (_check_repo dir label) env = [(dir, ARGS_WORK_TREE)].
Proof. intros H1. run_probe. probe_steps. split; reflexivity. Qed.

Lemma check_repo_head_failed :
  succeeded env dir ARGS_WORK_TREE = true ->
  succeeded env dir ARGS_HEAD = false ->
  result_of (_check_repo dir label) env
  = mkRepoResult label dir true None None None None None None
      (or_None (stderr_of env dir ARGS_HEAD))
  /\ calls_of (_check_repo dir label) env = [(dir, ARGS_WORK_TREE); (dir, ARGS_HEAD)].
Proof. intros H1 H2. run_probe. probe_steps. split; reflexivity. Qed.

Lemma check_repo_status_failed :
  succeeded env dir ARGS_WORK_TREE = true ->
  succeeded env dir ARGS_HEAD = true ->
  succeeded env dir ARGS_STATUS = false ->
  result_of (_check_repo dir label) env
  = mkRepoResult label dir true (Some (stdout_of env dir ARGS_HEAD)) None None None
      None None (or_None (stderr_of env dir ARGS_STATUS))
  /\ calls_of (_check_repo dir label) env
     = [(dir, ARGS_WORK_TREE); (dir, ARGS_HEAD); (dir, ARGS_STATUS)].
Proof. intros H1 H2 H3. run_probe. probe_steps. split; reflexivity. Qed.

(** Past the status query the probe no longer fails: it reads the origin
    and the upstream, and the divergence only when there is an upstream. *)
Lemma check_repo_probed :
  succeeded env dir ARGS_WORK_TREE = true ->
  succeeded env dir ARGS_HEAD = true ->
  succeeded env dir ARGS_STATUS = true ->
  let origin := stdout_of env dir ARGS_ORIGIN in
  let upstream := stdout_of env dir ARGS_UPSTREAM in
  let counts := stdout_of env dir ARGS_COUNTS in
  let has_upstream := succeeded env dir ARGS_UPSTREAM && PyStr.truthy upstream in
  let '(behind, ahead) :=
    if has_upstream && (succeeded env dir ARGS_COUNTS && PyStr.truthy counts)
    then parse_counts counts else (None, None) in
  result_of (_check_repo dir label) env
  = mkRepoResult label dir true (Some (stdout_of env dir ARGS_HEAD))
      (Some (stdout_of env dir ARGS_STATUS =? ""))
      (if succeeded env dir ARGS_ORIGIN && PyStr.truthy origin then Some origin else None)
      (if has_upstream then Some upstream else None) ahead behind None
  /\ calls_of (_check_repo dir label) env
     = [(dir, ARGS_WORK_TREE); (dir, ARGS_HEAD); (dir, ARGS_STATUS);
        (dir, ARGS_ORIGIN); (dir, ARGS_UPSTREAM)]
       ++ (if has_upstream then [(dir, ARGS_COUNTS)] else []).
Proof.
  intros H1 H2 H3. cbv zeta. run_probe. probe_steps.
  repeat first
    [ progress probe_steps
    | match goal with
      | |- context [if ?b then _ else _] => destruct b eqn:?
      | |- context [parse_counts ?c] => destruct (parse_counts c)
      end ];
  try (simpl in *; discriminate); split; reflexivity.
Qed.

End ProbeFacts.

(** * Properties of the probe *)

Section ProbeProperties.

Variable env : Env.
Variables dir label : string.

Let r : RepoResult := result_of (_check_repo dir label) env.

Lemma is_probed_inv :
  is_probed env dir = true ->
  succeeded env dir ARGS_WORK_TREE = true /\ succeeded env dir ARGS_HEAD = true
  /\ succeeded env dir ARGS_STATUS = true.
Proof.
  unfold is_probed; intros H.
  apply andb_true_iff in H; destruct H as [H H3].
  apply andb_true_iff in H; tauto.
Qed.

(** The counts of a probe that reads two numerals [sl] and [sr]: the
    first one lands in [behind_count], the second in [ahead_count]. *)
Lemma check_repo_counts_tokens (sl sr : string) :
  is_probed env dir = true -> has_upstream env dir = true ->
  succeeded env dir ARGS_COUNTS = true ->
  PyStr.split (stdout_of env dir ARGS_COUNTS) = [sl; sr] ->
  PyStr.isdigit sl = true -> PyStr.isdigit sr = true ->
  behind_count r = Some (PyStr.int sl) /\ ahead_count r = Some (PyStr.int sr)
  /\ upstream_ref r = Some (stdout_of env dir ARGS_UPSTREAM) /\ error r = None.
Proof.
  intros Hp Hu Hc Hs Hl Hr.
  destruct (is_probed_inv Hp) as (H1 & H2 & H3).
  pose proof (check_repo_probed env dir label H1 H2 H3) as E.
  cbv zeta in E. fold (has_upstream env dir) in E.
  rewrite Hu, Hc in E.
  assert (Ht : PyStr.truthy (stdout_of env dir ARGS_COUNTS) = true).
  { destruct (stdout_of env dir ARGS_COUNTS); [discriminate Hs | reflexivity]. }
  rewrite Ht in E; simpl in E.
  unfold parse_counts in E; rewrite Hs in E; simpl in E.
  rewrite Hl, Hr in E; simpl in E.
  destruct E as [E _]. subst r. rewrite E. simpl. auto.
Qed.

(** C1.  When the divergence query succeeds and prints the two whole
    numbers [L] and [R], in this order, [_check_repo] returns
    [behind_count = L] (the first, left column) and [ahead_count = R]
    (the second, right column). *)
Theorem check_repo_maps_left_to_behind (L R : Z) :
  is_probed env dir = true -> has_upstream env dir = true ->
  succeeded env dir ARGS_COUNTS = true ->
  (0 <= L)%Z -> (0 <= R)%Z ->
  PyStr.split (stdout_of env dir ARGS_COUNTS)
  = [PyStr.str_of_int L; PyStr.str_of_int R] ->
  behind_count r = Some L /\ ahead_count r = Some R.
Proof.
  intros Hp Hu Hc HL HR Hs.
  destruct (check_repo_counts_tokens _ _ Hp Hu Hc Hs) as (Hb & Ha & _);
    auto using isdigit_str_of_int.
  now rewrite Hb, Ha, !int_str_of_int.
Qed.

(** The probe never invokes [git fetch]: its queries are the six of
    [cli.py], in their order. *)
Lemma check_repo_never_fetches (c : GitCall) :
  In c (calls_of (_check_repo dir label) env) ->
  fst c = dir /\ In (snd c) [ARGS_WORK_TREE; ARGS_HEAD; ARGS_STATUS; ARGS_ORIGIN;
                              ARGS_UPSTREAM; ARGS_COUNTS].
Proof.
  destruct (succeeded env dir ARGS_WORK_TREE) eqn:H1.
  2: { destruct (check_repo_not_work_tree env dir label H1) as [_ ->].
       simpl; intuition (subst; simpl; auto). }
  destruct (succeeded env dir ARGS_HEAD) eqn:H2.
  2: { destruct (check_repo_head_failed env dir label H1 H2) as [_ ->].
       simpl; intuition (subst; simpl; auto). }
  destruct (succeeded env dir ARGS_STATUS) eqn:H3.
  2: { destruct (check_repo_status_failed env dir label H1 H2 H3) as [_ ->].
       simpl; intuition (subst; simpl; auto). }
  pose proof (check_repo_probed env dir label H1 H2 H3) as E; cbv zeta in E.
  match type of E with (let '(_, _) := ?t in _) => destruct t as [b a] end.
  destruct E as [_ ->].
  destruct (_ && _); simpl; intuition (subst; simpl; auto 10).
Qed.

(** The result depends on the environment through the six queries only:
    what a refresh of the remote would have returned does not matter. *)
Lemma check_repo_ext (env' : Env) :
  (forall args,
     In args [ARGS_WORK_TREE; ARGS_HEAD; ARGS_STATUS; ARGS_ORIGIN; ARGS_UPSTREAM;
              ARGS_COUNTS] ->
     env dir args = env' dir args) ->
  _check_repo dir label env [] = _check_repo dir label env' [].
Proof.
  intros H. unfold _check_repo, bind, ret, _run_git.
  repeat first
    [ match goal with
      | |- context [env dir ?a] =>
          rewrite (H a) by (cbn [In]; tauto);
          destruct (env' dir a) as [[? ?] ?]; simpl
      end
    | match goal with
      | |- context [parse_counts ?c] => destruct (parse_counts c); simpl
      | |- context [if ?b then _ else _] => destruct b; simpl
      end ];
  reflexivity.
Qed.



End ProbeProperties.

Lemma check_repo_maps_left_to_behind_witness :
  let env := scripted script_maps_ahead_behind in
  let r := result_of (_check_repo "/tmp/repo" "repo") env in
  stdout_of env "/tmp/repo" ARGS_COUNTS = "3 1"
  /\ behind_count r = Some 3%Z /\ ahead_count r = Some 1%Z.
Proof.
  split; [reflexivity|].
  apply (check_repo_maps_left_to_behind
           (scripted script_maps_ahead_behind) "/tmp/repo" "repo" 3 1);
    solve [reflexivity | discriminate].
Defined.



(** * Facts about the renderer *)

Section RenderFacts.

Variables use_color show_remote : bool.

Lemma max_len_ok (names : list string) :
  names <> [] -> exists m, max_len names = Ok m.
Proof. destruct names; [congruence | simpl; eauto]. Qed.

Lemma column_widths_ok (names : list string) (results : list (option RepoResult)) :
  names <> [] -> exists w, column_widths names results show_remote = Ok w.
Proof.
  intros H; destruct (max_len_ok names H) as [m Hm].
  unfold column_widths; rewrite Hm; simpl.
  destruct (fold_left _ _ _); eauto.
Qed.

Lemma column_widths_empty (results : list (option RepoResult)) :
  column_widths [] results show_remote = Raise ValueError.
Proof. reflexivity. Qed.

Lemma render_rows_length (w : Widths) (results : list (option RepoResult))
  (names : list string) :
  forall idx lines,
    render_rows w results use_color show_remote idx names = Ok lines ->
    length lines = length names.
Proof.
  induction names as [|n names IH]; simpl; intros idx lines H.
  - now inversion H.
  - destruct (nth_error results idx); [|discriminate].
    destruct (render_rows _ _ _ _ _ names) eqn:E; simpl in H; [|discriminate].
    inversion H; subst; simpl; f_equal; eauto.
Qed.

Lemma render_rows_ok (w : Widths) (results : list (option RepoResult))
  (names : list string) :
  forall idx, idx + length names <= length results ->
    exists lines, render_rows w results use_color show_remote idx names = Ok lines.
Proof.
  induction names as [|n names IH]; simpl; intros idx H; [eauto|].
  destruct (nth_error results idx) eqn:E.
  - destruct (IH (S idx)) as [lines ->]; [lia | simpl; eauto].
  - apply nth_error_None in E; lia.
Qed.

(** A frame has as many lines as there are names. *)
Lemma render_lines_length (names : list string) (results : list (option RepoResult))
  (lines : list string) :
  _render_lines names results use_color show_remote = Ok lines ->
  length lines = length names.
Proof.
  unfold _render_lines; intros H.
  destruct (column_widths names results show_remote); simpl in H; [|discriminate].
  eauto using render_rows_length.
Qed.

Lemma render_lines_ok (names : list string) (results : list (option RepoResult)) :
  names <> [] -> length names <= length results ->
  exists lines, _render_lines names results use_color show_remote = Ok lines.
Proof.
  intros Hn Hl; unfold _render_lines.
  destruct (column_widths_ok names results Hn) as [w ->]; simpl.
  now apply render_rows_ok.
Qed.

Lemma set_item_ok {A} (l : list A) (a : A) :
  forall idx, idx < length l ->
    exists l', set_item l idx a = Ok l' /\ length l' = length l.
Proof.
  induction l as [|x l IH]; simpl; intros idx H; [lia|].
  destruct idx as [|idx]; [eexists; split; [reflexivity | reflexivity]|].
  destruct (IH idx) as (l' & -> & E); [lia|]; simpl.
  eexists; split; [reflexivity | simpl; congruence].
Qed.

Lemma run_one_ok (names : list string) (allow_dynamic : bool)
  (results : list (option RepoResult)) (idx : nat) (result : RepoResult) :
  names <> [] -> length results = length names -> idx < length names ->
  exists results' out,
    run_one names use_color allow_dynamic show_remote results idx result
    = Ok (results', out)
    /\ length results' = length names
    /\ Forall (block_of (length names)) out.
Proof.
  intros Hn Hl Hi; unfold run_one.
  destruct (set_item_ok results (Some result) idx) as (results' & -> & E);
    [lia|]; simpl.
  destruct allow_dynamic; [|exists results', []; repeat split; auto; lia].
  destruct (render_lines_ok names results' Hn) as [lines R]; [lia|].
  rewrite R; simpl. exists results'. eexists; split; [reflexivity|].
  split; [lia|].
  unfold _clear_lines, _print_block.
  destruct names; [congruence|]; simpl.
  repeat constructor; simpl. apply (render_lines_length _ _ _ R).
Qed.

Lemma complete_ok (env : Env) (names_and_paths : list (string * string))
  (allow_dynamic : bool) (schedule : list nat) :
  let names := map fst names_and_paths in
  names_and_paths <> [] ->
  Forall (fun idx => idx < length names_and_paths) schedule ->
  forall results, length results = length names ->
    exists results' out,
      complete env names_and_paths names use_color allow_dynamic show_remote
        results schedule = Ok (results', out)
      /\ length results' = length names
      /\ Forall (block_of (length names)) out.
Proof.
  intros names Hn Hs.
  assert (Hnames : names <> []) by (subst names; destruct names_and_paths; simpl; congruence).
  induction Hs as [|idx schedule Hi Hs IH]; intros results Hl; simpl.
  - exists results, []; auto.
  - destruct (nth_error names_and_paths idx) as [[nm p]|] eqn:E.
    2: { apply nth_error_None in E; lia. }
    destruct (run_one_ok names allow_dynamic results idx
                (result_of (_check_repo p nm) env) Hnames Hl)
      as (results' & out & -> & Hl' & Ho).
    { subst names; rewrite length_map; exact Hi. }
    simpl. destruct (IH results' Hl') as (results'' & out' & -> & Hl'' & Ho').
    simpl. exists results'', (out ++ out'); repeat split; auto.
    apply Forall_app; auto.
Qed.

End RenderFacts.

Section WidthFacts.

Variable show_remote : bool.

Lemma widen_needs (slot : option RepoResult) (b s : nat) :
  widen show_remote (b, s) slot
  = (Nat.max b (fst (slot_needs show_remote slot)),
     Nat.max s (snd (slot_needs show_remote slot))).
Proof.
  unfold slot_needs, widen.
  destruct slot as [r|]; [|simpl; now rewrite !Nat.max_0_r].
  destruct (is_repo r); simpl; [|now rewrite !Nat.max_0_r].
  f_equal.
  - destruct (branch r) as [br|]; [destruct (PyStr.truthy br)|]; simpl;
      now rewrite ?Nat.max_0_r.
  - destruct show_remote; [|now rewrite Nat.max_0_r].
    destruct (divergence_known r) as [[a c]|]; simpl; now rewrite ?Nat.max_0_r.
Qed.

Lemma fold_widen_ge (results : list (option RepoResult)) :
  forall b s,
    b <= fst (fold_left (widen show_remote) results (b, s))
    /\ s <= snd (fold_left (widen show_remote) results (b, s)).
Proof.
  induction results as [|slot results IH]; intros b s; cbn [fold_left]; [simpl; auto|].
  rewrite widen_needs.
  destruct (IH (Nat.max b (fst (slot_needs show_remote slot)))
               (Nat.max s (snd (slot_needs show_remote slot)))) as [H1 H2].
  split; lia.
Qed.

Lemma fold_widen_mono (r1 r2 : list (option RepoResult)) :
  resolves_further r1 r2 ->
  forall b1 s1 b2 s2, b1 <= b2 -> s1 <= s2 ->
    fst (fold_left (widen show_remote) r1 (b1, s1))
    <= fst (fold_left (widen show_remote) r2 (b2, s2))
    /\ snd (fold_left (widen show_remote) r1 (b1, s1))
       <= snd (fold_left (widen show_remote) r2 (b2, s2)).
Proof.
  induction 1 as [|a c r1 r2 Hac _ IH]; intros b1 s1 b2 s2 Hb Hs; cbn [fold_left];
    [simpl; auto|].
  rewrite !widen_needs. apply IH.
  - destruct Hac as [-> | ->]; simpl; lia.
  - destruct Hac as [-> | ->]; simpl; lia.
Qed.

Lemma fold_widen_fits (results : list (option RepoResult)) :
  forallb (fits_fixed_widths show_remote) results = true ->
  fold_left (widen show_remote) results
    (PyStr.len LABEL_DETACHED, PyStr.len LABEL_NO_UPSTREAM)
  = (PyStr.len LABEL_DETACHED, PyStr.len LABEL_NO_UPSTREAM).
Proof.
  induction results as [|slot results IH]; cbn [fold_left forallb]; intros H; [reflexivity|].
  apply andb_true_iff in H; destruct H as [Hs Hr].
  unfold fits_fixed_widths in Hs.
  destruct (widen show_remote _ slot) as [b s] eqn:E.
  apply andb_true_iff in Hs; destruct Hs as [Hb Hs'].
  apply Nat.eqb_eq in Hb; apply Nat.eqb_eq in Hs'.
  change (PyStr.len LABEL_DETACHED) with 8 in *.
  change (PyStr.len LABEL_NO_UPSTREAM) with 11 in *.
  subst; auto.
Qed.

(** The widths [column_widths] returns, spelled out. *)
Lemma column_widths_eq (names : list string) (results : list (option RepoResult))
  (w : Widths) :
  column_widths names results show_remote = Ok w ->
  max_len names = Ok (max_name w)
  /\ (max_branch w, max_sync w)
     = fold_left (widen show_remote) results
         (PyStr.len LABEL_DETACHED, PyStr.len LABEL_NO_UPSTREAM)
  /\ max_clean w = PyStr.len LABEL_NOT_INIT
  /\ max_remote w = PyStr.len LABEL_NO_REMOTE.
Proof.
  unfold column_widths; intros H.
  destruct (max_len names); simpl in H; [|discriminate].
  change (max_of [PyStr.len LABEL_DETACHED; PyStr.len LABEL_UNKNOWN])
    with (PyStr.len LABEL_DETACHED) in H.
  change (max_of [PyStr.len LABEL_IN_SYNC; PyStr.len LABEL_NO_UPSTREAM;
                  PyStr.len LABEL_ERROR])
    with (PyStr.len LABEL_NO_UPSTREAM) in H.
  destruct (fold_left _ _ _) as [b s].
  inversion H; subst; simpl; auto.
Qed.

End WidthFacts.

Section RowFacts.

Variables use_color show_remote : bool.

Lemma render_rows_nth (w : Widths) (results : list (option RepoResult))
  (names : list string) :
  forall idx lines,
    render_rows w results use_color show_remote idx names = Ok lines ->
    forall i name, nth_error names i = Some name ->
      exists slot, nth_error results (idx + i) = Some slot
        /\ nth_error lines i
           = Some (format_line w name (row_cells slot use_color show_remote) show_remote).
Proof.
  induction names as [|n names IH]; simpl; intros idx lines H i name Hi.
  - destruct i; discriminate.
  - destruct (nth_error results idx) as [slot|] eqn:E; [|discriminate].
    destruct (render_rows _ _ _ _ _ names) as [rest|] eqn:R; simpl in H; [|discriminate].
    inversion H; subst; clear H.
    destruct i as [|i]; simpl in *.
    + inversion Hi; subst. rewrite Nat.add_0_r; eauto.
    + destruct (IH _ _ R _ _ Hi) as (slot' & Hs & Hl).
      exists slot'; split; [|assumption].
      now replace (idx + S i) with (S idx + i) by lia.
Qed.

(** The row of an entry is the layout of the cells of its slot, padded
    to the widths of the frame. *)
Lemma render_lines_nth (names : list string) (results : list (option RepoResult))
  (lines : list string) (i : nat) (name : string) :
  _render_lines names results use_color show_remote = Ok lines ->
  nth_error names i = Some name ->
  exists w slot,
    column_widths names results show_remote = Ok w
    /\ nth_error results i = Some slot
    /\ nth_error lines i
       = Some (format_line w name (row_cells slot use_color show_remote) show_remote).
Proof.
  unfold _render_lines; intros H Hi.
  destruct (column_widths names results show_remote) as [w|]; simpl in H; [|discriminate].
  destruct (render_rows_nth _ _ _ _ _ H _ _ Hi) as (slot & Hs & Hl).
  exists w, slot; auto.
Qed.

(** Frames whose slots widen alike and show the same cells are equal. *)
Lemma render_rows_ext (w : Widths) (r1 r2 : list (option RepoResult))
  (names : list string) :
  Forall2 (fun a b => row_cells a use_color show_remote
                      = row_cells b use_color show_remote) r1 r2 ->
  forall idx,
    render_rows w r1 use_color show_remote idx names
    = render_rows w r2 use_color show_remote idx names.
Proof.
  intros HF; induction names as [|n names IH]; intros idx; simpl; [reflexivity|].
  rewrite IH.
  assert (Hn : match nth_error r1 idx, nth_error r2 idx with
               | Some a, Some b => row_cells a use_color show_remote
                                   = row_cells b use_color show_remote
               | None, None => True
               | _, _ => False
               end).
  { clear IH. revert idx; induction HF as [|a b r1 r2 Hab HF IHF];
      intros [|idx]; simpl; auto; apply IHF. }
  destruct (nth_error r1 idx), (nth_error r2 idx); try tauto.
  now rewrite Hn.
Qed.

Lemma fold_widen_ext (r1 r2 : list (option RepoResult)) :
  Forall2 (fun a b => slot_needs show_remote a = slot_needs show_remote b) r1 r2 ->
  forall acc, fold_left (widen show_remote) r1 acc = fold_left (widen show_remote) r2 acc.
Proof.
  induction 1 as [|a b r1 r2 Hab _ IH]; intros [bw sw]; cbn [fold_left]; [reflexivity|].
  now rewrite !widen_needs, Hab, IH.
Qed.

Lemma render_lines_ext (names : list string) (r1 r2 : list (option RepoResult)) :
  Forall2 (fun a b => slot_needs show_remote a = slot_needs show_remote b
                      /\ row_cells a use_color show_remote
                         = row_cells b use_color show_remote) r1 r2 ->
  _render_lines names r1 use_color show_remote
  = _render_lines names r2 use_color show_remote.
Proof.
  intros HF.
  assert (H1 : Forall2 (fun a b => slot_needs show_remote a = slot_needs show_remote b) r1 r2)
    by (eapply Forall2_impl; [|exact HF]; simpl; tauto).
  assert (H2 : Forall2 (fun a b => row_cells a use_color show_remote
                                   = row_cells b use_color show_remote) r1 r2)
    by (eapply Forall2_impl; [|exact HF]; simpl; tauto).
  unfold _render_lines, column_widths.
  destruct (max_len names); simpl; [|reflexivity].
  rewrite (fold_widen_ext _ _ H1).
  destruct (fold_left _ r2 _); simpl.
  now apply render_rows_ext.
Qed.

End RowFacts.

(** * Properties of the renderer *)

(** The scheduler prints blocks of one line per entry, whatever the order
    in which the probes finish, in live and in static mode. *)
Lemma run_checks_blocks (env : Env) (schedule : list nat)
  (names_and_paths : list (string * string)) (use_color allow_dynamic : bool)
  (max_workers : Z) (show_remote : bool) :
  names_and_paths <> [] ->
  Forall (fun idx => idx < length names_and_paths) schedule ->
  exists out,
    _run_checks env schedule names_and_paths use_color allow_dynamic max_workers
      show_remote = Ok out
    /\ Forall (block_of (length names_and_paths)) out.
Proof.
  intros Hn Hs; unfold _run_checks.
  set (names := map fst names_and_paths).
  assert (Hnames : names <> [])
    by (subst names; destruct names_and_paths; simpl; congruence).
  assert (Hlen : length names = length names_and_paths)
    by (subst names; apply length_map).
  assert (Hrep : length (repeat (@None RepoResult) (length names)) = length names)
    by apply repeat_length.
  destruct (complete_ok use_color show_remote env names_and_paths allow_dynamic
              schedule Hn Hs _ Hrep) as (results' & out & Hc & Hl & Ho).
  fold names in Hc, Hl, Ho.
  destruct allow_dynamic; simpl.
  - destruct (render_lines_ok use_color show_remote names
                (repeat None (length names)) Hnames) as [lines R]; [lia|].
    rewrite R; simpl. rewrite Hc; simpl.
    eexists; split; [reflexivity|].
    rewrite <- Hlen. constructor.
    + simpl. apply (render_lines_length _ _ _ _ _ R).
    + rewrite app_nil_r; exact Ho.
  - rewrite Hc; simpl.
    destruct (render_lines_ok use_color show_remote names results' Hnames)
      as [lines R]; [lia|].
    rewrite R; simpl.
    eexists; split; [reflexivity|].
    rewrite <- Hlen. apply Forall_app; split; [exact Ho|].
    repeat constructor. simpl. apply (render_lines_length _ _ _ _ _ R).
Qed.




(** C4, as the code has it.  Between any two frames over the same names
    the name, clean and remote columns keep their width.  The branch and
    sync columns keep theirs as long as the resolved results fit the fixed
    label widths, and never narrow when further slots resolve. *)
Theorem column_widths_between_frames
  (names : list string) (r1 r2 : list (option RepoResult)) (show_remote : bool)
  (w1 w2 : Widths) :
  column_widths names r1 show_remote = Ok w1 ->
  column_widths names r2 show_remote = Ok w2 ->
  (max_name w1 = max_name w2 /\ max_clean w1 = max_clean w2
   /\ max_remote w1 = max_remote w2)
  /\ (forallb (fits_fixed_widths show_remote) r1 = true ->
      forallb (fits_fixed_widths show_remote) r2 = true -> w1 = w2)
  /\ (resolves_further r1 r2 ->
      max_branch w1 <= max_branch w2 /\ max_sync w1 <= max_sync w2).
Proof.
  intros H1 H2.
  destruct (column_widths_eq _ _ _ _ H1) as (N1 & F1 & C1 & R1).
  destruct (column_widths_eq _ _ _ _ H2) as (N2 & F2 & C2 & R2).
  assert (HN : max_name w1 = max_name w2) by congruence.
  split; [repeat split; congruence|]. split.
  - intros Hf1 Hf2.
    rewrite (fold_widen_fits _ _ Hf1) in F1. rewrite (fold_widen_fits _ _ Hf2) in F2.
    destruct w1, w2; simpl in *; congruence.
  - intros Hr.
    destruct (fold_widen_mono show_remote r1 r2 Hr
                (PyStr.len LABEL_DETACHED) (PyStr.len LABEL_NO_UPSTREAM)
                (PyStr.len LABEL_DETACHED) (PyStr.len LABEL_NO_UPSTREAM))
      as [Hb Hs]; [lia | lia |].
    rewrite <- F1, <- F2 in Hb, Hs. simpl in Hb, Hs. auto.
Qed.

Lemma column_widths_between_frames_witness :
  let w1 := mkWidths 1 8 8 9 11 in
  let w2 := mkWidths 1 19 8 9 11 in
  (max_name w1 = max_name w2 /\ max_clean w1 = max_clean w2
   /\ max_remote w1 = max_remote w2)
  /\ (forallb (fits_fixed_widths true) frame_pending = true ->
      forallb (fits_fixed_widths true) frame_first_done = true -> w1 = w2)
  /\ (resolves_further frame_pending frame_first_done ->
      max_branch w1 <= max_branch w2 /\ max_sync w1 <= max_sync w2).
Proof.
  apply (column_widths_between_frames frame_names frame_pending frame_first_done true
           (mkWidths 1 8 8 9 11) (mkWidths 1 19 8 9 11));
    reflexivity.
Defined.

(** C4 fails as stated: resolving a repository on a long branch widens
    the branch column, and the row of the entry that is still pending is
    padded differently in the two frames. *)
Lemma column_widths_change_between_frames :
  column_widths frame_names frame_pending true = Ok (mkWidths 1 8 8 9 11)
  /\ column_widths frame_names frame_first_done true = Ok (mkWidths 1 19 8 9 11)
  /\ _render_lines frame_names frame_pending false true
     = Ok ["a  pending                                   ";
           "b  pending                                   "]
  /\ _render_lines frame_names frame_first_done false true
     = Ok ["a  feature/sync-status  clean     origin     in-sync    ";
           "b  pending                                              "].
Proof. repeat split; reflexivity. Qed.

Section SyncColumn.

Variable use_color : bool.
Variable r : RepoResult.

Hypothesis Hrepo : is_repo r = true.

Lemma divergence_known_counts (a b : Z) :
  PyStr.otruthy (upstream_ref r) = true ->
  ahead_count r = Some a -> behind_count r = Some b ->
  divergence_known r = Some (a, b).
Proof. unfold divergence_known; now intros -> -> ->. Qed.

Lemma divergence_unknown :
  ahead_count r = None \/ behind_count r = None -> divergence_known r = None.
Proof.
  unfold divergence_known; intros [H | H]; rewrite H;
    destruct (PyStr.otruthy (upstream_ref r)); try reflexivity.
  now destruct (ahead_count r).
Qed.


(** A result whose counts are unknown shows the cells, and asks for the
    widths, of the same result without an upstream. *)
Lemma unknown_counts_same_row (show_remote : bool) :
  ahead_count r = None \/ behind_count r = None ->
  row_cells (Some r) use_color show_remote
  = row_cells (Some (without_upstream r)) use_color show_remote
  /\ slot_needs show_remote (Some r) = slot_needs show_remote (Some (without_upstream r)).
Proof.
  intros Hc; unfold slot_needs, widen, row_cells, repo_cells, without_upstream;
    cbn [is_repo branch is_clean origin_url error]; rewrite Hrepo; cbn [negb].
  rewrite (divergence_unknown Hc).
  change (divergence_known _) with (@None (Z * Z)).
  split; reflexivity.
Qed.


End SyncColumn.




(** A frame does not tell a repository whose divergence query failed
    from one without an upstream. *)
Lemma unknown_counts_frame (names : list string) (before after : list (option RepoResult))
  (r : RepoResult) (use_color : bool) :
  is_repo r = true ->
  ahead_count r = None \/ behind_count r = None ->
  _render_lines names (before ++ Some r :: after) use_color true
  = _render_lines names (before ++ Some (without_upstream r) :: after) use_color true.
Proof.
  intros Hr Hc.
  destruct (unknown_counts_same_row use_color r Hr true Hc) as [H3 H4].
  apply render_lines_ext.
  apply Forall2_app; [|constructor; [auto|]].
  - induction before; constructor; auto.
  - induction after; constructor; auto.
Qed.

(** What the probe returns with an upstream is a repository result
    without an error, so for it "in-sync" is what both zero counts show. *)
Lemma check_repo_upstream_no_error (env : Env) (dir label : string) :
  let r := result_of (_check_repo dir label) env in
  upstream_ref r <> None ->
  is_repo r = true /\ PyStr.otruthy (upstream_ref r) = true /\ error r = None.
Proof.
  intros r. subst r.
  destruct (succeeded env dir ARGS_WORK_TREE) eqn:H1.
  2: { destruct (check_repo_not_work_tree env dir label H1) as [-> _].
       simpl; congruence. }
  destruct (succeeded env dir ARGS_HEAD) eqn:H2.
  2: { destruct (check_repo_head_failed env dir label H1 H2) as [-> _].
       simpl; congruence. }
  destruct (succeeded env dir ARGS_STATUS) eqn:H3.
  2: { destruct (check_repo_status_failed env dir label H1 H2 H3) as [-> _].
       simpl; congruence. }
  pose proof (check_repo_probed env dir label H1 H2 H3) as E; cbv zeta in E.
  match type of E with (let '(_, _) := ?t in _) => destruct t as [b a] end.
  destruct E as [-> _]; simpl.
  destruct (succeeded env dir ARGS_UPSTREAM); simpl; [|congruence].
  destruct (PyStr.truthy (stdout_of env dir ARGS_UPSTREAM)) eqn:T; simpl;
    [auto | congruence].
Qed.

(** * The remote of an upstream ref *)

Lemma before_slash_append (remote rest : string) :
  has_slash remote = false ->
  before_slash (remote ++ "/" ++ rest) = Some remote.
Proof.
  induction remote as [|c remote IH]; simpl in *; [reflexivity|].
  intros H; apply orb_false_iff in H; destruct H as [Hc Hr].
  now rewrite Hc, IH.
Qed.

Lemma before_slash_none (ref : string) :
  has_slash ref = false <-> before_slash ref = None.
Proof.
  induction ref as [|c ref IH]; simpl; [tauto|].
  destruct (Ascii.eqb c "/"); simpl; [split; discriminate|].
  rewrite IH. destruct (before_slash ref); simpl; split; congruence.
Qed.

(** C3.  The remote name of an upstream ref is the text before its first
    slash, and there is none when the ref has no slash: ["origin/main"]
    gives ["origin"], ["upstream/feature/foo"] gives ["upstream"], and
    ["main"] gives nothing. *)
Theorem upstream_remote_name_before_first_slash :
  (forall remote rest, has_slash remote = false ->
     _upstream_remote_name (remote ++ "/" ++ rest) = Some remote)
  /\ (forall ref, has_slash ref = false <-> _upstream_remote_name ref = None)
  /\ _upstream_remote_name "origin/main" = Some "origin"
  /\ _upstream_remote_name "upstream/feature/foo" = Some "upstream"
  /\ _upstream_remote_name "main" = None.
Proof.
  unfold _upstream_remote_name; repeat split;
    try reflexivity; try apply before_slash_none; auto using before_slash_append.
Qed.

Lemma upstream_remote_name_before_first_slash_witness :
  _upstream_remote_name ("upstream" ++ "/" ++ "feature/foo") = Some "upstream"
  /\ _upstream_remote_name "HEAD" = None.
Proof.
  destruct upstream_remote_name_before_first_slash as (H1 & H2 & _).
  split; [apply H1; reflexivity | apply H2; reflexivity].
Defined.

(** * Facts about paths *)

Section PathFacts.

Lemma ltb_asym (x y : string) : String.ltb x y = true -> String.ltb y x = false.
Proof.
  unfold String.ltb; rewrite (String.compare_antisym y x).
  destruct (String.compare x y); simpl; congruence.
Qed.

Lemma ltb_trichotomy (x y : string) :
  String.ltb x y = false -> String.ltb y x = false -> x = y.
Proof.
  unfold String.ltb; rewrite (String.compare_antisym y x).
  destruct (String.compare x y) eqn:E; simpl; try discriminate.
  intros _ _; now apply String.compare_eq_iff.
Qed.

Lemma list_ltb_asym (a : list string) :
  forall b, PyPath.list_ltb a b = true -> PyPath.list_ltb b a = false.
Proof.
  induction a as [|x a IH]; intros [|y b]; simpl; try congruence.
  rewrite (String.eqb_sym y x).
  destruct (x =? y); [apply IH | apply ltb_asym].
Qed.

Lemma list_ltb_trichotomy (a : list string) :
  forall b, PyPath.list_ltb a b = false -> PyPath.list_ltb b a = false -> a = b.
Proof.
  induction a as [|x a IH]; intros [|y b]; simpl; try congruence.
  rewrite (String.eqb_sym y x).
  destruct (String.eqb_spec x y) as [->|Hne].
  - intros H1 H2; f_equal; auto.
  - intros H1 H2; elim Hne; now apply ltb_trichotomy.
Qed.

Lemma common_prefix_sym (a : list string) :
  forall b, common_prefix a b = common_prefix b a.
Proof.
  induction a as [|x a IH]; intros [|y b]; simpl; try reflexivity.
  rewrite (String.eqb_sym y x).
  destruct (String.eqb_spec x y) as [->|Hne]; [now rewrite IH | reflexivity].
Qed.

Lemma common_prefix_refl (a : list string) : common_prefix a a = a.
Proof. induction a; simpl; [|rewrite String.eqb_refl]; congruence. Qed.

(** The loop of [commonpath] finds the common prefix and stays within
    [s2] when [s2] is not below [s1]. *)
Lemma common_of_sorted (s1 : list string) :
  forall s2, PyPath.list_ltb s2 s1 = false ->
    PyPath.common_of s1 s2 = Ok (common_prefix s1 s2).
Proof.
  induction s1 as [|x s1 IH]; intros [|y s2]; simpl; try congruence.
  rewrite (String.eqb_sym y x).
  destruct (x =? y); [|reflexivity].
  intros H; now rewrite IH.
Qed.

Lemma common_of_min_max (a b : list string) :
  PyPath.common_of (PyPath.py_min a [b]) (PyPath.py_max a [b])
  = Ok (common_prefix a b).
Proof.
  unfold PyPath.py_min, PyPath.py_max; simpl.
  destruct (PyPath.list_ltb b a) eqn:Hba.
  - rewrite (list_ltb_asym _ _ Hba), (common_prefix_sym a b).
    apply common_of_sorted, (list_ltb_asym _ _ Hba).
  - destruct (PyPath.list_ltb a b) eqn:Hab.
    + now apply common_of_sorted.
    + pose proof (list_ltb_trichotomy _ _ Hab Hba) as E; subst b.
      now apply common_of_sorted.
Qed.

(** [commonpath] of two paths: a [ValueError] when one is absolute and the
    other is not, the joined common components otherwise. *)
Lemma commonpath_two (p q : string) :
  PyPath.commonpath [p; q]
  = if Bool.eqb (PyPath.isabs q) (PyPath.isabs p) then
      Ok ((if PyPath.isabs p then PyPath.sep else "")
          ++ PyStr.join PyPath.sep
               (common_prefix (filter PyPath.keeps (PyPath.split_sep p))
                              (filter PyPath.keeps (PyPath.split_sep q))))%string
    else Raise ValueError.
Proof.
  unfold PyPath.commonpath, PyPath.same_isabs; cbn [map forallb].
  rewrite andb_true_r.
  destruct (Bool.eqb (PyPath.isabs q) (PyPath.isabs p)); cbn [negb]; [|reflexivity].
  now rewrite common_of_min_max.
Qed.

(** [_is_ignored] returns for every path and every list of paths. *)
Lemma is_ignored_total (path : string) (ignored_paths : list string) :
  exists b, _is_ignored path ignored_paths = Ok b.
Proof.
  assert (H : exists b, is_ignored_loop path ignored_paths = Ok b).
  { induction ignored_paths as [|ig rest IH]; cbn [is_ignored_loop]; [eauto|].
    rewrite commonpath_two.
    destruct (Bool.eqb _ _); [|assumption].
    destruct (_ =? ig); eauto. }
  destruct ignored_paths; simpl; eauto.
Qed.

End PathFacts.

Section CanonicalPaths.

Lemma valid_component_inv (c : string) :
  valid_component c = true ->
  c <> "" /\ c <> "." /\ has_slash c = false /\ PyPath.keeps c = true.
Proof.
  unfold valid_component, PyPath.keeps, PyStr.truthy, PyPath.curdir; intros H.
  apply andb_true_iff in H; destruct H as [H Hs].
  pose proof H as Hk.
  apply andb_true_iff in H; destruct H as [H1 H2].
  apply negb_true_iff in Hs.
  repeat split; auto; intros ->; discriminate.
Qed.

Lemma split_sep_from_component (c : string) :
  has_slash c = false ->
  forall w rest,
    PyPath.split_sep_from w (c ++ String "/" rest)
    = (w ++ c)%string :: PyPath.split_sep_from "" rest.
Proof.
  induction c as [|x c IH]; simpl; intros H w rest.
  - now rewrite append_nil_r.
  - apply orb_false_iff in H; destruct H as [Hx Hc].
    rewrite Hx, IH by assumption. now rewrite append_assoc.
Qed.

Lemma split_sep_from_last (c : string) :
  has_slash c = false -> forall w, PyPath.split_sep_from w c = [(w ++ c)%string].
Proof.
  induction c as [|x c IH]; simpl; intros H w.
  - now rewrite append_nil_r.
  - apply orb_false_iff in H; destruct H as [Hx Hc].
    rewrite Hx, IH by assumption. now rewrite append_assoc.
Qed.

Lemma split_sep_join (c : string) (components : list string) :
  Forall (fun c => has_slash c = false) (c :: components) ->
  PyPath.split_sep (PyStr.join PyPath.sep (c :: components)) = c :: components.
Proof.
  revert c; induction components as [|d components IH]; intros c H;
    inversion H as [|? ? Hc Hrest]; subst.
  - apply (split_sep_from_last c Hc "").
  - change (PyStr.join PyPath.sep (c :: d :: components))
      with (c ++ String "/" (PyStr.join PyPath.sep (d :: components)))%string.
    unfold PyPath.split_sep.
    rewrite split_sep_from_component by assumption; simpl.
    f_equal. now apply IH.
Qed.

Lemma filter_keeps_valid (components : list string) :
  Forall (fun c => valid_component c = true) components ->
  filter PyPath.keeps components = components.
Proof.
  induction 1 as [|c components Hc _ IH]; simpl; [reflexivity|].
  destruct (valid_component_inv c Hc) as (_ & _ & _ & ->). now rewrite IH.
Qed.

(** The components [commonpath] sees in a normalised absolute path. *)
Lemma components_of_abs_path (components : list string) :
  Forall (fun c => valid_component c = true) components ->
  filter PyPath.keeps (PyPath.split_sep (abs_path components)) = components.
Proof.
  intros H. unfold abs_path, PyPath.sep.
  destruct components as [|c components]; [reflexivity|].
  change (PyPath.split_sep ("/" ++ PyStr.join "/" (c :: components)))
    with ("" :: PyPath.split_sep (PyStr.join PyPath.sep (c :: components))).
  rewrite split_sep_join.
  - change (filter PyPath.keeps ("" :: c :: components))
      with (filter PyPath.keeps (c :: components)).
    now apply filter_keeps_valid.
  - eapply Forall_impl; [|exact H]. intros a Ha.
    now destruct (valid_component_inv a Ha) as (_ & _ & Hs & _).
Qed.

Lemma isabs_abs_path (components : list string) :
  PyPath.isabs (abs_path components) = true.
Proof.
  unfold PyPath.isabs, PyPath.startswith, abs_path, PyPath.sep; simpl.
  now destruct (PyStr.join "/" components).
Qed.

Lemma abs_path_inj (a b : list string) :
  Forall (fun c => valid_component c = true) a ->
  Forall (fun c => valid_component c = true) b ->
  abs_path a = abs_path b -> a = b.
Proof.
  intros Ha Hb E.
  rewrite <- (components_of_abs_path a Ha), <- (components_of_abs_path b Hb).
  now rewrite E.
Qed.

Lemma common_prefix_valid (a : list string) :
  forall b, Forall (fun c => valid_component c = true) a ->
    Forall (fun c => valid_component c = true) (common_prefix a b).
Proof.
  induction a as [|x a IH]; intros [|y b] H; simpl; auto.
  inversion H; subst. destruct (x =? y); auto.
Qed.

Lemma common_prefix_is_prefix (a : list string) :
  forall b, common_prefix b a = a <-> is_prefix a b = true.
Proof.
  induction a as [|x a IH]; intros [|y b]; simpl; try (split; congruence).
  rewrite (String.eqb_sym y x).
  destruct (String.eqb_spec x y) as [->|Hne]; simpl.
  - rewrite <- IH. split; congruence.
  - split; congruence.
Qed.

Lemma is_prefix_spec (a : list string) :
  forall b, is_prefix a b = true <-> exists rest, b = a ++ rest.
Proof.
  induction a as [|x a IH]; intros [|y b]; simpl.
  - split; eauto.
  - split; eauto.
  - split; [discriminate | intros [rest H]; discriminate H].
  - rewrite andb_true_iff, IH. split.
    + intros [E [rest ->]]. apply String.eqb_eq in E; subst; eauto.
    + intros [rest H]; inversion H; subst. rewrite String.eqb_refl; eauto.
Qed.

(** On normalised absolute paths [_is_ignored] is the component-wise
    prefix test against each ignored path. *)
Lemma is_ignored_abs_path (folder : list string) (ignored : list (list string)) :
  Forall (fun c => valid_component c = true) folder ->
  Forall (Forall (fun c => valid_component c = true)) ignored ->
  _is_ignored (abs_path folder) (map abs_path ignored)
  = Ok (existsb (fun ig => is_prefix ig folder) ignored).
Proof.
  intros Hf Hi.
  assert (H : is_ignored_loop (abs_path folder) (map abs_path ignored)
              = Ok (existsb (fun ig => is_prefix ig folder) ignored)).
  { induction Hi as [|ig ignored Hig _ IH]; cbn [map is_ignored_loop existsb];
      [reflexivity|].
    rewrite commonpath_two, !isabs_abs_path; cbn [Bool.eqb].
    rewrite (components_of_abs_path folder Hf), (components_of_abs_path ig Hig).
    fold (abs_path (common_prefix folder ig)).
    destruct (is_prefix ig folder) eqn:P; cbn [orb].
    - apply common_prefix_is_prefix in P. now rewrite P, String.eqb_refl.
    - destruct (String.eqb_spec (abs_path (common_prefix folder ig)) (abs_path ig))
        as [E|_]; [|exact IH].
      apply abs_path_inj in E; auto using common_prefix_valid.
      apply common_prefix_is_prefix in E; congruence. }
  destruct ignored; [reflexivity | exact H].
Qed.

Lemma endswith_sep_append (a : string) (c : ascii) (s : string) :
  PyPath.endswith_sep (a ++ String c s) = PyPath.endswith_sep (String c s).
Proof.
  induction a as [|x a IH]; [reflexivity|].
  cbn [append PyPath.endswith_sep]. rewrite IH.
  destruct (a ++ String c s)%string eqn:E; [|reflexivity].
  destruct a; discriminate E.
Qed.

Lemma endswith_sep_component (c : string) :
  has_slash c = false -> c <> "" -> PyPath.endswith_sep c = false.
Proof.
  induction c as [|x c IH]; [congruence|]; simpl; intros H _.
  apply orb_false_iff in H; destruct H as [Hx Hc].
  destruct c; [assumption | apply IH; [assumption | discriminate]].
Qed.

Lemma join_append (components : list string) (c : string) :
  components <> [] ->
  PyStr.join PyPath.sep (components ++ [c])
  = (PyStr.join PyPath.sep components ++ PyPath.sep ++ c)%string.
Proof.
  induction components as [|d components IH]; [congruence|]; intros _.
  destruct components as [|e components]; [reflexivity|].
  change (PyStr.join PyPath.sep ((d :: e :: components) ++ [c]))
    with (d ++ PyPath.sep ++ PyStr.join PyPath.sep ((e :: components) ++ [c]))%string.
  rewrite IH by discriminate.
  change (PyStr.join PyPath.sep (d :: e :: components))
    with (d ++ PyPath.sep ++ PyStr.join PyPath.sep (e :: components))%string.
  now rewrite !append_assoc.
Qed.

Lemma endswith_sep_abs_path (components : list string) :
  Forall (fun c => valid_component c = true) components -> components <> [] ->
  PyPath.endswith_sep (abs_path components) = false.
Proof.
  intros H Hne.
  destruct (exists_last Hne) as (front & c & ->).
  apply Forall_app in H; destruct H as [_ H]; inversion H as [|? ? Hc _]; subst.
  destruct (valid_component_inv c Hc) as (Hc0 & _ & Hs & _).
  unfold abs_path.
  destruct c as [|x c]; [congruence|].
  destruct front as [|d front].
  - change (PyPath.sep ++ PyStr.join PyPath.sep ([] ++ [String x c]))%string
      with ("/" ++ String x c)%string.
    rewrite endswith_sep_append. now apply endswith_sep_component.
  - rewrite join_append by discriminate.
    rewrite <- !append_assoc, endswith_sep_append.
    now apply endswith_sep_component.
Qed.

(** [entry.path] of a child of a normalised absolute path. *)
Lemma entry_path_abs_path (base : list string) (e : DirEntry) :
  Forall (fun c => valid_component c = true) base ->
  valid_component (entry_name e) = true ->
  entry_path (abs_path base) e = abs_path (base ++ [entry_name e]).
Proof.
  intros Hb Hn. unfold entry_path, PyPath.join.
  destruct (valid_component_inv _ Hn) as (Hn0 & _ & Hs & _).
  assert (S1 : PyPath.startswith (entry_name e) PyPath.sep = false).
  { destruct (entry_name e) as [|x n]; [congruence|].
    cbn [has_slash] in Hs. apply orb_false_iff in Hs; destruct Hs as [Hx _].
    unfold PyPath.startswith, PyPath.sep; cbn [String.prefix].
    destruct (ascii_dec "/" x) as [E|E]; [|reflexivity].
    subst x; discriminate Hx. }
  rewrite S1; cbn [orb].
  assert (T : PyStr.truthy (abs_path base) = true) by reflexivity.
  rewrite T; cbn [negb].
  destruct base as [|d base].
  - reflexivity.
  - rewrite endswith_sep_abs_path by (auto; discriminate).
    unfold abs_path. rewrite join_append by discriminate.
    now rewrite !append_assoc.
Qed.

End CanonicalPaths.

(** * Facts about the stable sort *)

Section SortFacts.

Context {A : Type} (key : A -> string).

Lemma ascii_compare_trans_lt (a b c : ascii) :
  Ascii.compare a b = Lt -> Ascii.compare b c = Lt -> Ascii.compare a c = Lt.
Proof.
  unfold Ascii.compare; rewrite !N.compare_lt_iff; apply N.lt_trans.
Qed.

Lemma compare_trans_lt (x : string) :
  forall y z, String.compare x y = Lt -> String.compare y z = Lt ->
              String.compare x z = Lt.
Proof.
  induction x as [|a x IH]; intros [|b y] [|c z]; simpl; try congruence.
  destruct (Ascii.compare a b) eqn:Eab; try discriminate;
    destruct (Ascii.compare b c) eqn:Ebc; try discriminate; intros H1 H2.
  - apply Ascii.compare_eq_iff in Eab, Ebc; subst.
    assert (E : Ascii.compare c c = Eq)
      by (unfold Ascii.compare; apply N.compare_refl).
    rewrite E; eauto.
  - apply Ascii.compare_eq_iff in Eab; subst. now rewrite Ebc.
  - apply Ascii.compare_eq_iff in Ebc; subst. now rewrite Eab.
  - now rewrite (ascii_compare_trans_lt _ _ _ Eab Ebc).
Qed.

Lemma compare_refl (x : string) : String.compare x x = Eq.
Proof.
  induction x as [|a x IH]; simpl; [reflexivity|].
  assert (E : Ascii.compare a a = Eq) by (unfold Ascii.compare; apply N.compare_refl).
  now rewrite E.
Qed.

Lemma leb_trans (x y z : string) :
  String.leb x y = true -> String.leb y z = true -> String.leb x z = true.
Proof.
  unfold String.leb.
  destruct (String.compare x y) eqn:Exy; try discriminate;
    destruct (String.compare y z) eqn:Eyz; try discriminate; intros _ _.
  - apply String.compare_eq_iff in Exy, Eyz; subst. now rewrite compare_refl.
  - apply String.compare_eq_iff in Exy; subst. now rewrite Eyz.
  - apply String.compare_eq_iff in Eyz; subst. now rewrite Exy.
  - now rewrite (compare_trans_lt _ _ _ Exy Eyz).
Qed.

Lemma ltb_leb (x y : string) : String.ltb x y = true -> String.leb x y = true.
Proof. unfold String.ltb, String.leb; destruct (String.compare x y); congruence. Qed.

Lemma not_ltb_leb (x y : string) : String.ltb y x = false -> String.leb x y = true.
Proof.
  unfold String.ltb, String.leb; rewrite (String.compare_antisym x y).
  destruct (String.compare y x); simpl; congruence.
Qed.

Lemma insert_by_perm (x : A) (l : list A) : Permutation (insert_by key x l) (x :: l).
Proof.
  induction l as [|y l IH]; simpl; [reflexivity|].
  destruct (String.ltb (key y) (key x)); [|reflexivity].
  rewrite IH; apply perm_swap.
Qed.

Lemma sort_by_perm (l : list A) : Permutation (sort_by key l) l.
Proof.
  induction l as [|x l IH]; simpl; [reflexivity|].
  rewrite insert_by_perm; now constructor.
Qed.

Lemma insert_by_sorted (x : A) (l : list A) :
  sorted_by key l -> sorted_by key (insert_by key x l).
Proof.
  unfold sorted_by.
  induction 1 as [|y l Hs IH Hy]; simpl; [repeat constructor|].
  destruct (String.ltb (key y) (key x)) eqn:E.
  - constructor; [assumption|].
    eapply Permutation_Forall; [symmetry; apply insert_by_perm|].
    constructor; [now apply ltb_leb | assumption].
  - apply not_ltb_leb in E.
    constructor; [now constructor|].
    constructor; [assumption|].
    eapply Forall_impl; [|exact Hy]. intros z Hz; eauto using leb_trans.
Qed.

Lemma sort_by_sorted (l : list A) : sorted_by key (sort_by key l).
Proof.
  induction l as [|x l IH]; simpl; [constructor | now apply insert_by_sorted].
Qed.

Lemma sort_by_in (l : list A) (a : A) : In a (sort_by key l) <-> In a l.
Proof.
  split; apply Permutation_in; [|symmetry]; apply sort_by_perm.
Qed.

(** The sort is stable: entries with one key keep their order. *)
Lemma insert_by_filter (f : A -> bool) (x : A) (l : list A) :
  (forall y, f y = true -> f x = true -> String.ltb (key y) (key x) = false) ->
  filter f (insert_by key x l) = filter f (x :: l).
Proof.
  intros Hf; induction l as [|y l IH]; [reflexivity|].
  cbn [insert_by]. destruct (String.ltb (key y) (key x)) eqn:E; [|reflexivity].
  cbn [filter] in *. rewrite IH.
  pose proof (Hf y) as Hy.
  destruct (f y), (f x); try reflexivity.
  rewrite (Hy eq_refl eq_refl) in E; discriminate.
Qed.

Lemma sort_by_stable (k : string) (l : list A) :
  filter (fun a => key a =? k) (sort_by key l) = filter (fun a => key a =? k) l.
Proof.
  induction l as [|x l IH]; [reflexivity|].
  cbn [sort_by]. rewrite insert_by_filter.
  - cbn [filter]. now rewrite IH.
  - intros y Hy Hx. apply String.eqb_eq in Hy, Hx. rewrite Hy, Hx.
    unfold String.ltb. now rewrite compare_refl.
Qed.

End SortFacts.

(** * Facts about the sub-folder listing *)

Section ListingFacts.

Variable os : OS.
Variable base_path : string.
Variable include_hidden : bool.
Variable ignored_paths : list string.

Lemma collect_subfolders_eq (it : list DirEntry) :
  collect_subfolders base_path include_hidden ignored_paths it
  = Ok (map (fun e => (entry_name e, entry_path base_path e))
          (filter (listed base_path include_hidden ignored_paths) it)).
Proof.
  induction it as [|e it IH]; [reflexivity|].
  cbn [collect_subfolders filter]. unfold listed at 1, is_ignoredb.
  destruct (entry_is_dir e); cbn [negb andb]; [|exact IH].
  destruct (is_ignored_total (entry_path base_path e) ignored_paths) as [b ->].
  cbn [py_bind]. destruct b; cbn [negb andb]; [exact IH|].
  destruct (negb include_hidden && PyPath.startswith (entry_name e) ".");
    cbn [negb]; [exact IH|].
  rewrite IH; reflexivity.
Qed.

(** [_list_subfolders] fails only when [os.scandir] does; what it
    returns is the surviving entries, sorted on their lower-cased names. *)
Lemma list_subfolders_eq :
  _list_subfolders os base_path include_hidden ignored_paths
  = (it <- scandir os base_path ;;
     Ok (sort_by (fun item => lower os (fst item))
           (map (fun e => (entry_name e, entry_path base_path e))
              (filter (listed base_path include_hidden ignored_paths) it)))).
Proof.
  unfold _list_subfolders.
  destruct (scandir os base_path) as [it|]; [|reflexivity].
  cbn [py_bind]. now rewrite collect_subfolders_eq.
Qed.

Lemma list_subfolders_sorted (entries : list (string * string)) :
  _list_subfolders os base_path include_hidden ignored_paths = Ok entries ->
  sorted_by (fun item => lower os (fst item)) entries.
Proof.
  rewrite list_subfolders_eq.
  destruct (scandir os base_path); simpl; [|discriminate].
  intros H; inversion H; apply sort_by_sorted.
Qed.

Lemma list_subfolders_in (it : list DirEntry) (entries : list (string * string))
  (item : string * string) :
  scandir os base_path = Ok it ->
  _list_subfolders os base_path include_hidden ignored_paths = Ok entries ->
  In item entries
  <-> exists e, In e it /\ listed base_path include_hidden ignored_paths e = true
                /\ item = (entry_name e, entry_path base_path e).
Proof.
  intros Hit. rewrite list_subfolders_eq, Hit; simpl.
  intros H; inversion H; subst; clear H.
  rewrite sort_by_in, in_map_iff. split.
  - intros (e & <- & He). apply filter_In in He. exists e; tauto.
  - intros (e & He & Hl & ->). exists e; split; [reflexivity|].
    apply filter_In; tauto.
Qed.

End ListingFacts.

(** * The ignore rule *)

Section IgnoreRule.

Variable os : OS.
Variable base : list string.
Variable include_hidden : bool.
Variable ignored : list (list string).

Hypothesis Hbase : Forall (fun c => valid_component c = true) base.
Hypothesis Hignored : Forall (Forall (fun c => valid_component c = true)) ignored.

Lemma is_ignored_true_iff (folder : list string) :
  Forall (fun c => valid_component c = true) folder ->
  _is_ignored (abs_path folder) (map abs_path ignored) = Ok true
  <-> exists ig, In ig ignored /\ equal_or_under folder ig.
Proof.
  intros Hf. rewrite (is_ignored_abs_path folder ignored Hf Hignored).
  split.
  - intros H; inversion H as [E]. apply existsb_exists in E.
    destruct E as (ig & Hin & Hp). exists ig; split; [assumption|].
    now apply is_prefix_spec.
  - intros (ig & Hin & Hp). f_equal. apply existsb_exists.
    exists ig; split; [assumption|]. now apply is_prefix_spec.
Qed.

Lemma is_ignored_false_iff (folder : list string) :
  Forall (fun c => valid_component c = true) folder ->
  _is_ignored (abs_path folder) (map abs_path ignored) = Ok false
  <-> ~ exists ig, In ig ignored /\ equal_or_under folder ig.
Proof.
  intros Hf. rewrite <- (is_ignored_true_iff folder Hf).
  rewrite (is_ignored_abs_path folder ignored Hf Hignored).
  destruct (existsb _ ignored); split; congruence.
Qed.

(** On paths with a single leading slash the ignore rule is the one of
    the docstring of [_is_ignored]: a folder found under a normalised
    absolute base path, that is a directory and passes the hidden-folder
    filter, is left out of the enumeration if and only if its absolute
    path is one of the resolved ignore paths or lies under one of them,
    component by component. *)
Lemma folder_excluded_iff_ignored (it : list DirEntry) (e : DirEntry) :
  scandir os (abs_path base) = Ok it -> In e it ->
  valid_component (entry_name e) = true ->
  entry_is_dir e = true ->
  include_hidden = true \/ PyPath.startswith (entry_name e) "." = false ->
  let folder := base ++ [entry_name e] in
  let under_ignored := exists ig, In ig ignored /\ equal_or_under folder ig in
  entry_path (abs_path base) e = abs_path folder
  /\ (_is_ignored (abs_path folder) (map abs_path ignored) = Ok true <-> under_ignored)
  /\ exists entries,
       _list_subfolders os (abs_path base) include_hidden (map abs_path ignored)
       = Ok entries
       /\ (~ In (entry_name e, abs_path folder) entries <-> under_ignored).
Proof.
  intros Hit He Hn Hd Hh folder under_ignored; subst under_ignored.
  assert (Hf : Forall (fun c => valid_component c = true) folder)
    by (apply Forall_app; auto).
  assert (Hp : entry_path (abs_path base) e = abs_path folder)
    by now apply entry_path_abs_path.
  split; [exact Hp|]. split; [now apply is_ignored_true_iff|].
  pose proof (list_subfolders_eq os (abs_path base) include_hidden
                (map abs_path ignored)) as E.
  rewrite Hit in E; cbn [py_bind] in E.
  eexists; split; [exact E|].
  rewrite <- (is_ignored_true_iff folder Hf).
  rewrite (list_subfolders_in os _ _ _ it _ _ Hit E).
  assert (Hl : forall e', entry_name e' = entry_name e -> entry_is_dir e' = true ->
             listed (abs_path base) include_hidden (map abs_path ignored) e'
             = negb (existsb (fun ig => is_prefix ig folder) ignored)).
  { intros e' En Ed. unfold listed, is_ignoredb, entry_path.
    rewrite Ed, En. fold (entry_path (abs_path base) e). rewrite Hp.
    rewrite (is_ignored_abs_path folder ignored Hf Hignored).
    destruct Hh as [-> | ->]; cbn [negb andb]; now rewrite ?andb_false_r, andb_true_r. }
  rewrite (is_ignored_abs_path folder ignored Hf Hignored).
  destruct (existsb _ ignored) eqn:X; split; try congruence.
  - intros H [e' (_ & Hl' & Hi)]. inversion Hi as [[En Ep]].
    assert (Ed : entry_is_dir e' = true).
    { unfold listed in Hl'. destruct (entry_is_dir e'); [reflexivity | discriminate]. }
    rewrite (Hl e' (eq_sym En) Ed) in Hl'. discriminate.
  - intros H. exfalso; apply H. exists e. rewrite (Hl e eq_refl Hd).
    rewrite <- Hp. auto.
Qed.

(** A sibling is not under a folder, however their names begin. *)
Lemma sibling_not_under (name other : string) :
  name <> other -> ~ equal_or_under (base ++ [name]) (base ++ [other]).
Proof.
  intros Hne [rest E]. rewrite <- app_assoc in E.
  apply app_inv_head in E. inversion E; congruence.
Qed.

End IgnoreRule.

(** C6.  Under a root written with two leading slashes, which
    [os.path.abspath] keeps, the ignore rule is missed: [commonpath] drops
    the second slash, so a folder is not found equal to, or under, an
    ignored path that it is equal to, or under, and it is listed. *)
Theorem is_ignored_misses_double_slash :
  PyPath.commonpath ["//srv/vendor"; "//srv/vendor"] = Ok "/srv/vendor"
  /\ _resolve_ignore_paths sample_os "//srv" ["vendor"] = ["//srv/vendor"]
  /\ _is_ignored "//srv/vendor" ["//srv/vendor"] = Ok false
  /\ _is_ignored "//srv/vendor/lib" ["//srv/vendor"] = Ok false
  /\ _list_subfolders sample_os "//srv" true ["//srv/vendor"]
     = Ok [("app", "//srv/app"); ("vendor", "//srv/vendor")]
  /\ _is_ignored "/srv/vendor" ["/srv/vendor"] = Ok true.
Proof. repeat split; reflexivity. Qed.

Lemma folder_excluded_iff_ignored_sample :
  (_is_ignored "/srv/foo-bar" ["/srv/foo"] = Ok true
   <-> exists ig, In ig [["srv"; "foo"]] /\ equal_or_under ["srv"; "foo-bar"] ig)
  /\ _is_ignored "/srv/foo-bar" ["/srv/foo"] = Ok false
  /\ _list_subfolders sample_os "/srv" true ["/srv/foo"]
     = Ok [(".cache", "/srv/.cache"); ("alpha", "/srv/alpha");
           ("foo-bar", "/srv/foo-bar"); ("Zeta", "/srv/Zeta")].
Proof.
  destruct (folder_excluded_iff_ignored sample_os ["srv"] true [["srv"; "foo"]])
    with (it := [mkDirEntry "foo-bar" true; mkDirEntry "notes.txt" false;
                 mkDirEntry "Zeta" true; mkDirEntry "foo" true;
                 mkDirEntry ".cache" true; mkDirEntry "alpha" true])
         (e := mkDirEntry "foo-bar" true)
    as (_ & H & _); try reflexivity.
  - repeat constructor.
  - repeat constructor.
  - simpl; auto.
  - left; reflexivity.
  - split; [exact H | split; reflexivity].
Qed.

(** * The scan list *)

Section ScanFacts.

Variable os : OS.
Variable target_set : list string.
Variable include_hidden : bool.
Variable ignore_entries : list string.

Local Abbreviation listing := (Listing os target_set include_hidden ignore_entries).
Local Abbreviation blocks := (Blocks os target_set include_hidden ignore_entries).
Local Abbreviation scan_list := (ScanList os target_set include_hidden ignore_entries).
Local Abbreviation scan_base :=
  (add_for_base os target_set include_hidden ignore_entries).
Local Abbreviation scan_roots :=
  (add_for_roots os target_set include_hidden ignore_entries).

Lemma add_entries_blocks
  (nested : string -> string -> PyResult (list (string * string))) (prefix : string) :
  (forall path pre children, nested path pre = Ok children -> listing path pre children) ->
  forall entries out,
    add_entries nested target_set prefix entries = Ok out ->
    blocks prefix entries out.
Proof.
  intros Hn; induction entries as [|[name path] entries IH]; cbn [add_entries];
    intros out H.
  - inversion H; constructor.
  - destruct (in_set path target_set) eqn:T.
    + destruct (nested path (prefix ++ NEST)%string) as [children|] eqn:N;
        cbn [py_bind] in H; [|discriminate].
      destruct (add_entries nested target_set prefix entries) as [later|];
        cbn [py_bind] in H; [|discriminate].
      inversion H; subst. apply Blocks_target; auto.
    + cbn [py_bind] in H.
      destruct (add_entries nested target_set prefix entries) as [later|];
        cbn [py_bind] in H; [|discriminate].
      inversion H; subst. apply Blocks_plain; auto.
Qed.

(** Whatever [add_for_base] returns is the listing of its base. *)
Lemma add_for_base_listing (fuel : nat) :
  forall base_path prefix out,
    scan_base fuel base_path prefix = Ok out -> listing base_path prefix out.
Proof.
  induction fuel as [|fuel IH]; intros base_path prefix out H; [discriminate|].
  cbn [add_for_base] in H.
  destruct (_list_subfolders os base_path include_hidden _) as [entries|] eqn:L;
    cbn [py_bind] in H; [|discriminate].
  apply Listing_intro with entries; [assumption | |].
  - eapply list_subfolders_sorted; eassumption.
  - eapply add_entries_blocks; eauto.
Qed.

Lemma add_for_roots_scan_list (fuel : nat) (roots : list string) :
  forall out, scan_roots fuel roots = Ok out -> scan_list roots out.
Proof.
  induction roots as [|base_path roots IH]; cbn [add_for_roots]; intros out H.
  - inversion H; constructor.
  - destruct (scan_base fuel base_path "") as [here|] eqn:B;
      cbn [py_bind] in H; [|discriminate].
    destruct (scan_roots fuel roots) as [later|]; cbn [py_bind] in H; [|discriminate].
    inversion H; subst. constructor; eauto using add_for_base_listing.
Qed.

End ScanFacts.

Section ScanTotal.

Variable os : OS.
Variable target_set : list string.
Variable include_hidden : bool.
Variable ignore_entries : list string.

Hypothesis Hscan : scannable os target_set.

Lemma length_append (a b : string) :
  String.length (a ++ b) = String.length a + String.length b.
Proof. induction a; simpl; congruence. Qed.

Lemma in_set_In (path : string) : in_set path target_set = true <-> In path target_set.
Proof.
  unfold in_set; rewrite existsb_exists. split.
  - intros (t & Ht & E). apply String.eqb_eq in E. now subst.
  - intros H; exists path; split; [assumption | apply String.eqb_refl].
Qed.

(** [entry.path] is longer than the path that was scanned. *)
Lemma entry_path_longer (base_path : string) (e : DirEntry) :
  base_path <> "" -> entry_name e <> "" ->
  PyPath.startswith (entry_name e) PyPath.sep = false ->
  String.length base_path < String.length (entry_path base_path e).
Proof.
  intros Hb Hn Hs. unfold entry_path, PyPath.join. rewrite Hs.
  assert (T : PyStr.truthy base_path = true)
    by (destruct base_path; [congruence | reflexivity]).
  rewrite T; cbn [negb orb].
  assert (L : 0 < String.length (entry_name e))
    by (destruct (entry_name e); [congruence | simpl; lia]).
  destruct (PyPath.endswith_sep base_path); rewrite !length_append; lia.
Qed.

Lemma longer_targets_le (base_path : string) :
  longer_targets target_set base_path <= length target_set.
Proof. apply filter_length_le. Qed.

Lemma filter_length_mono {A} (f g : A -> bool) (l : list A) :
  (forall y, f y = true -> g y = true) ->
  List.length (filter f l) <= List.length (filter g l).
Proof.
  intros Hfg; induction l as [|y l IH]; cbn [filter]; [lia|].
  destruct (f y) eqn:F; [rewrite (Hfg y F); simpl; lia|].
  destruct (g y); simpl; lia.
Qed.

Lemma filter_length_lt {A} (f g : A -> bool) (l : list A) (x : A) :
  (forall y, f y = true -> g y = true) ->
  In x l -> f x = false -> g x = true ->
  List.length (filter f l) < List.length (filter g l).
Proof.
  intros Hfg Hin Fx Gx; induction l as [|y l IH]; [contradiction|].
  cbn [filter]. pose proof (filter_length_mono f g l Hfg) as Hle.
  destruct Hin as [-> | Hin].
  - rewrite Fx, Gx; simpl; lia.
  - specialize (IH Hin).
    destruct (f y) eqn:F; [rewrite (Hfg y F); simpl; lia|].
    destruct (g y); simpl; lia.
Qed.

Lemma longer_targets_lt (base_path path : string) :
  In path target_set -> String.length base_path < String.length path ->
  longer_targets target_set path < longer_targets target_set base_path.
Proof.
  unfold longer_targets. intros Hin Hlt.
  apply filter_length_lt with path; [|assumption| |].
  - intros y Hy. apply Nat.ltb_lt in Hy. apply Nat.ltb_lt. lia.
  - apply Nat.ltb_irrefl.
  - now apply Nat.ltb_lt.
Qed.

Lemma has_ancestor_total (path : string) (candidates : list string) :
  exists b, _has_ancestor path candidates = Ok b.
Proof.
  induction candidates as [|other rest IH]; cbn [_has_ancestor]; [eauto|].
  destruct (other =? path); [assumption|].
  rewrite commonpath_two.
  destruct (Bool.eqb _ _); [|assumption].
  destruct (_ =? other); eauto.
Qed.

Lemma root_targets_total (target_paths candidates : list string) :
  exists roots, root_targets_of target_paths candidates = Ok roots
                /\ incl roots target_paths.
Proof.
  induction target_paths as [|path rest (roots & IH & Hincl)];
    cbn [root_targets_of]; [exists []; split; [reflexivity | apply incl_nil_l]|].
  destruct (has_ancestor_total path candidates) as [anc ->].
  cbn [py_bind]. rewrite IH; cbn [py_bind].
  destruct anc; eexists; (split; [reflexivity|]).
  - now apply incl_tl.
  - apply incl_cons; [now left | now apply incl_tl].
Qed.

Lemma add_entries_total
  (nested : string -> string -> PyResult (list (string * string))) (prefix : string)
  (entries : list (string * string)) :
  (forall name path, In (name, path) entries -> in_set path target_set = true ->
     forall pre, exists children, nested path pre = Ok children) ->
  exists out, add_entries nested target_set prefix entries = Ok out.
Proof.
  induction entries as [|[name path] entries IH]; intros Hn; cbn [add_entries];
    [eauto|].
  destruct IH as [later Hl]; [intros n p Hin; apply (Hn n); now right|].
  rewrite Hl.
  destruct (in_set path target_set) eqn:T; cbn [py_bind]; [|eauto].
  destruct (Hn name path (or_introl eq_refl) T (prefix ++ NEST)%string) as [children ->].
  cbn [py_bind]; eauto.
Qed.

(** With more fuel than there are longer targets, [add_for_base] returns. *)
Lemma add_for_base_total (fuel : nat) :
  forall base_path prefix,
    In base_path target_set ->
    longer_targets target_set base_path < fuel ->
    exists out,
      add_for_base os target_set include_hidden ignore_entries fuel base_path prefix
      = Ok out.
Proof.
  induction fuel as [|fuel IH]; intros base_path prefix Hin Hfuel; [lia|].
  cbn [add_for_base].
  destruct (Hscan base_path Hin) as (Hne & it & Hit & Hnames).
  pose proof (list_subfolders_eq os base_path include_hidden
                (_resolve_ignore_paths os base_path ignore_entries)) as L.
  rewrite Hit in L; cbn [py_bind] in L. rewrite L; cbn [py_bind].
  apply add_entries_total.
  intros name path Hentry T pre.
  apply (list_subfolders_in os _ _ _ it _ _ Hit L) in Hentry.
  destruct Hentry as (e & He & _ & E); inversion E; subst; clear E.
  rewrite Forall_forall in Hnames. destruct (Hnames e He) as [Hn Hs].
  apply in_set_In in T.
  apply IH; [assumption|].
  pose proof (longer_targets_lt base_path (entry_path base_path e) T
                (entry_path_longer base_path e Hne Hn Hs)).
  lia.
Qed.

Lemma add_for_roots_total (fuel : nat) (roots : list string) :
  incl roots target_set -> length target_set < fuel ->
  exists out,
    add_for_roots os target_set include_hidden ignore_entries fuel roots = Ok out.
Proof.
  intros Hincl Hfuel; induction roots as [|base_path roots IH]; cbn [add_for_roots];
    [eauto|].
  destruct (add_for_base_total fuel base_path "") as [here ->].
  - apply Hincl; now left.
  - pose proof (longer_targets_le base_path); lia.
  - destruct IH as [later ->]; [intros p Hp; apply Hincl; now right|].
    cbn [py_bind]; eauto.
Qed.

End ScanTotal.

Lemma build_scan_list_shape (os : OS) (target_paths : list string)
  (include_hidden : bool) (ignore_entries : list string)
  (out : list (string * string)) :
  _build_scan_list os target_paths include_hidden ignore_entries = Ok out ->
  exists roots,
    root_targets_of target_paths target_paths = Ok roots
    /\ incl roots target_paths
    /\ ScanList os target_paths include_hidden ignore_entries roots out.
Proof.
  unfold _build_scan_list.
  destruct (root_targets_total target_paths target_paths) as (roots & -> & Hincl).
  cbn [py_bind]; intros H.
  exists roots; repeat split; auto.
  eapply add_for_roots_scan_list; eassumption.
Qed.

Lemma build_scan_list_total (os : OS) (target_paths : list string)
  (include_hidden : bool) (ignore_entries : list string) :
  scannable os target_paths ->
  exists out, _build_scan_list os target_paths include_hidden ignore_entries = Ok out.
Proof.
  intros Hscan. unfold _build_scan_list.
  destruct (root_targets_total target_paths target_paths) as (roots & -> & Hincl).
  cbn [py_bind].
  apply add_for_roots_total; [assumption | assumption | lia].
Qed.

(** C7.  With targets that can be scanned, [_build_scan_list] returns a
    list, and the list it returns is the listings of its top-level roots
    one after the other.  Each listing is in case-insensitive order of the
    folder names under its base path, and a folder that is itself a target
    is followed at once by the listing of its own sub-folders, one nesting
    marker deeper, before the row of its next sibling. *)
Theorem build_scan_list_order (os : OS) (target_paths : list string)
  (include_hidden : bool) (ignore_entries : list string) :
  scannable os target_paths ->
  exists roots out,
    root_targets_of target_paths target_paths = Ok roots
    /\ incl roots target_paths
    /\ _build_scan_list os target_paths include_hidden ignore_entries = Ok out
    /\ ScanList os target_paths include_hidden ignore_entries roots out.
Proof.
  intros Hscan.
  destruct (build_scan_list_total os target_paths include_hidden ignore_entries Hscan)
    as [out Hout].
  destruct (build_scan_list_shape _ _ _ _ _ Hout) as (roots & Hr & Hi & Hs).
  exists roots, out; auto.
Qed.

Lemma sample_scannable : scannable sample_os ["/srv"; "/srv/alpha"].
Proof.
  intros p [<- | [<- | []]]; (split; [discriminate|]);
    (eexists; split; [reflexivity|]);
    repeat constructor; discriminate.
Defined.

Lemma build_scan_list_order_witness :
  exists roots out,
    root_targets_of ["/srv"; "/srv/alpha"] ["/srv"; "/srv/alpha"] = Ok roots
    /\ incl roots ["/srv"; "/srv/alpha"]
    /\ _build_scan_list sample_os ["/srv"; "/srv/alpha"] false ["foo"] = Ok out
    /\ ScanList sample_os ["/srv"; "/srv/alpha"] false ["foo"] roots out.
Proof.
  apply (build_scan_list_order sample_os ["/srv"; "/srv/alpha"] false ["foo"]).
  exact sample_scannable.
Defined.

(** The scan list of the sample file system: [alpha] is a target, so its
    folders follow it, in order, before [foo-bar]. *)
Lemma build_scan_list_sample :
  _build_scan_list sample_os ["/srv"; "/srv/alpha"] false ["foo"]
  = Ok [("alpha", "/srv/alpha"); ((NEST ++ "App")%string, "/srv/alpha/App");
        ((NEST ++ "lib")%string, "/srv/alpha/lib"); ("foo-bar", "/srv/foo-bar");
        ("Zeta", "/srv/Zeta")].
Proof. reflexivity. Qed.

(** * Facts about [strip] and the lines of a file *)

Section TrimFacts.

Lemma lstrip_idem (s : string) : PyStr.lstrip (PyStr.lstrip s) = PyStr.lstrip s.
Proof.
  induction s as [|c s IH]; [reflexivity|]. cbn [PyStr.lstrip].
  destruct (PyStr.is_space c) eqn:E; [assumption|].
  cbn [PyStr.lstrip]; now rewrite E.
Qed.

Lemma rstrip_cons (c : ascii) (s : string) :
  PyStr.rstrip s <> "" -> PyStr.rstrip (String c s) = String c (PyStr.rstrip s).
Proof. cbn [PyStr.rstrip]. destruct (PyStr.rstrip s); [congruence | reflexivity]. Qed.

Lemma rstrip_idem (s : string) : PyStr.rstrip (PyStr.rstrip s) = PyStr.rstrip s.
Proof.
  induction s as [|c s IH]; [reflexivity|]. cbn [PyStr.rstrip].
  destruct (PyStr.rstrip s) as [|d r] eqn:E.
  - destruct (PyStr.is_space c) eqn:S; [reflexivity|].
    cbn [PyStr.rstrip]; now rewrite S.
  - rewrite rstrip_cons; [now rewrite IH | rewrite IH; discriminate].
Qed.

Lemma rstrip_fixed_tail (c : ascii) (s : string) :
  PyStr.is_space c = true -> PyStr.rstrip (String c s) = String c s ->
  PyStr.rstrip s = s.
Proof.
  cbn [PyStr.rstrip]; intros S.
  destruct (PyStr.rstrip s) as [|d r]; [rewrite S; discriminate|].
  congruence.
Qed.

Lemma rstrip_lstrip (s : string) :
  PyStr.rstrip s = s -> PyStr.rstrip (PyStr.lstrip s) = PyStr.lstrip s.
Proof.
  induction s as [|c s IH]; [reflexivity|]; intros H. cbn [PyStr.lstrip].
  destruct (PyStr.is_space c) eqn:S; [|assumption].
  apply IH. now apply rstrip_fixed_tail with c.
Qed.

(** What [strip] returns has no white space at either end. *)
Lemma strip_trimmed (s : string) : trimmed (PyStr.strip s).
Proof.
  unfold trimmed, PyStr.strip; split; [apply lstrip_idem|].
  apply rstrip_lstrip, rstrip_idem.
Qed.

Lemma trimmed_strip (s : string) : trimmed s -> PyStr.strip s = s.
Proof. unfold PyStr.strip; intros [H1 H2]; now rewrite H2. Qed.

Lemma rstrip_append (a b : string) :
  PyStr.rstrip b <> "" -> PyStr.rstrip (a ++ b) = (a ++ PyStr.rstrip b)%string.
Proof.
  intros H; induction a as [|c a IH]; [reflexivity|].
  cbn [append]. rewrite rstrip_cons; [now rewrite IH|].
  rewrite IH. destruct a; [assumption | discriminate].
Qed.

Lemma rstrip_spaces (ws : string) : PyStr.all_spaces ws = true -> PyStr.rstrip ws = "".
Proof.
  induction ws as [|c ws IH]; [reflexivity|]; cbn [PyStr.all_spaces PyStr.rstrip].
  intros H; apply andb_true_iff in H; destruct H as [Hc Hw].
  now rewrite IH, Hc.
Qed.

Lemma rstrip_append_spaces (s ws : string) :
  PyStr.all_spaces ws = true -> PyStr.rstrip (s ++ ws) = PyStr.rstrip s.
Proof.
  intros H; induction s as [|c s IH]; [now apply rstrip_spaces|].
  cbn [append PyStr.rstrip]. now rewrite IH.
Qed.

Lemma lstrip_spaces_append (ws s : string) :
  PyStr.all_spaces ws = true -> PyStr.lstrip (ws ++ s) = PyStr.lstrip s.
Proof.
  induction ws as [|c ws IH]; [reflexivity|]; cbn [PyStr.all_spaces append PyStr.lstrip].
  intros H; apply andb_true_iff in H; destruct H as [Hc Hw].
  rewrite Hc; auto.
Qed.

(** [strip] does not see white space around its argument. *)
Lemma strip_surrounded (ws1 s ws2 : string) :
  PyStr.all_spaces ws1 = true -> PyStr.all_spaces ws2 = true ->
  PyStr.strip (ws1 ++ s ++ ws2) = PyStr.strip s.
Proof.
  intros H1 H2; unfold PyStr.strip.
  rewrite <- append_assoc, (rstrip_append_spaces _ _ H2).
  destruct (PyStr.rstrip s) as [|c r] eqn:E.
  - assert (Hs : PyStr.rstrip (ws1 ++ s) = "").
    { clear H2. induction ws1 as [|d ws1 IH]; [assumption|].
      cbn [PyStr.all_spaces] in H1. apply andb_true_iff in H1; destruct H1 as [Hd Hw].
      cbn [append PyStr.rstrip]. now rewrite (IH Hw), Hd. }
    now rewrite Hs.
  - rewrite rstrip_append by (rewrite E; discriminate).
    rewrite E. now apply lstrip_spaces_append.
Qed.

Lemma no_newline_append (a b : string) :
  no_newline (a ++ b) = no_newline a && no_newline b.
Proof.
  induction a as [|c a IH]; [reflexivity|]. cbn [append no_newline].
  now rewrite IH, andb_assoc.
Qed.

Lemma file_lines_from_line (s : string) :
  no_newline s = true ->
  forall line rest,
    file_lines_from line (s ++ NL ++ rest)
    = (line ++ s)%string :: file_lines_from "" rest.
Proof.
  induction s as [|c s IH]; cbn [no_newline]; intros H line rest.
  - now rewrite append_nil_r.
  - apply andb_true_iff in H; destruct H as [Hc Hs].
    apply negb_true_iff in Hc.
    cbn [append file_lines_from]. rewrite Hc, IH by assumption.
    now rewrite append_assoc.
Qed.

Lemma concat_cons (x : string) (xs : list string) :
  String.concat "" (x :: xs) = (x ++ String.concat "" xs)%string.
Proof. destruct xs; simpl; [now rewrite append_nil_r | reflexivity]. Qed.

(** The lines of a text made of newline-free lines, each ended by a line
    feed, are those lines. *)
Lemma file_lines_concat (lines : list string) :
  Forall (fun l => no_newline l = true) lines ->
  file_lines (String.concat "" (map (fun l => l ++ NL)%string lines)) = lines.
Proof.
  unfold file_lines.
  induction 1 as [|l lines Hl _ IH]; [reflexivity|].
  cbn [map]. rewrite concat_cons, append_assoc.
  rewrite file_lines_from_line by assumption. now rewrite IH.
Qed.

Lemma collect_some_app {A B} (f : A -> option B) (l1 l2 : list A) :
  collect_some f (l1 ++ l2) = collect_some f l1 ++ collect_some f l2.
Proof.
  induction l1 as [|a l1 IH]; [reflexivity|]. cbn [app collect_some].
  destruct (f a); [cbn [app]|]; now rewrite IH.
Qed.

Lemma collect_some_in {A B} (f : A -> option B) (l : list A) (b : B) :
  In b (collect_some f l) <-> exists a, In a l /\ f a = Some b.
Proof.
  induction l as [|a l IH]; cbn [collect_some In].
  - split; [contradiction | intros (a & [] & _)].
  - destruct (f a) as [b'|] eqn:E; cbn [In]; rewrite IH; split.
    + intros [<- | (a' & Ha & Hf)]; eauto.
    + intros (a' & [<- | Ha] & Hf); [left; congruence | eauto].
    + intros (a' & Ha & Hf); eauto.
    + intros (a' & [<- | Ha] & Hf); [congruence | eauto].
Qed.

End TrimFacts.

(** * Properties of the configuration code *)

Section ParseBool.

Lemma is_space_ascii_lower (c : ascii) :
  PyStr.is_space (ascii_lower c) = PyStr.is_space c.
Proof. destruct c as [[] [] [] [] [] [] [] []]; reflexivity. Qed.

Lemma lstrip_lower (s : string) :
  lower_ascii (PyStr.lstrip s) = PyStr.lstrip (lower_ascii s).
Proof.
  induction s as [|c s IH]; [reflexivity|].
  cbn [PyStr.lstrip lower_ascii]. rewrite is_space_ascii_lower.
  destruct (PyStr.is_space c); [assumption | reflexivity].
Qed.

Lemma rstrip_lower (s : string) :
  lower_ascii (PyStr.rstrip s) = PyStr.rstrip (lower_ascii s).
Proof.
  induction s as [|c s IH]; [reflexivity|].
  cbn [PyStr.rstrip lower_ascii]. rewrite <- IH, is_space_ascii_lower.
  destruct (PyStr.rstrip s); [destruct (PyStr.is_space c)|]; reflexivity.
Qed.

Lemma strip_lower (s : string) :
  lower_ascii (PyStr.strip s) = PyStr.strip (lower_ascii s).
Proof. unfold PyStr.strip. now rewrite lstrip_lower, rstrip_lower. Qed.

(** X1.  On ASCII text [_parse_bool] sees neither the white space around
    a value nor the case of its letters: two values that differ only in
    these parse alike. *)
Theorem parse_bool_insensitive (ws1 v ws2 w : string) :
  is_ascii v = true ->
  PyStr.all_spaces ws1 = true -> PyStr.all_spaces ws2 = true ->
  lower_ascii v = lower_ascii w ->
  _parse_bool (ws1 ++ v ++ ws2) = _parse_bool w.
Proof.
  intros _ H1 H2 E. unfold _parse_bool.
  now rewrite strip_surrounded, !strip_lower, E by assumption.
Qed.

End ParseBool.

Lemma parse_bool_insensitive_witness :
  _parse_bool ("  " ++ "YeS" ++ " ") = _parse_bool "yes"
  /\ _parse_bool "yes" = Some true.
Proof.
  split; [|reflexivity].
  apply (parse_bool_insensitive "  " "YeS" " " "yes"); reflexivity.
Defined.

Section CoerceConfig.

Variable defaults : Config.

Lemma coerce_step_keeps (config : Config) (item : string * string) :
  (exclude_hidden config = "true" \/ exclude_hidden config = "false") ->
  PyStr.isdigit (max_workers config) = true /\ (0 < PyStr.int (max_workers config))%Z ->
  let config' := coerce_step config item in
  (exclude_hidden config' = "true" \/ exclude_hidden config' = "false")
  /\ PyStr.isdigit (max_workers config') = true
  /\ (0 < PyStr.int (max_workers config'))%Z.
Proof.
  intros He [Hd Hp]. destruct item as [key value]. unfold coerce_step.
  destruct ((key =? "path") && PyStr.truthy value); [simpl; auto|].
  destruct (key =? "exclude_hidden").
  - destruct (_parse_bool value) as [[|]|]; simpl; auto.
  - destruct (key =? "max_workers"); [|auto].
    destruct (PyStr.isdigit value) eqn:D; [|simpl; auto].
    destruct (PyStr.int value >? 0)%Z eqn:P; simpl; auto.
    repeat split; auto. now apply Z.gtb_lt in P.
Qed.

Lemma coerce_fold_keeps (values : list (string * string)) :
  forall config,
    (exclude_hidden config = "true" \/ exclude_hidden config = "false") ->
    PyStr.isdigit (max_workers config) = true /\ (0 < PyStr.int (max_workers config))%Z ->
    let config' := fold_left coerce_step values config in
    (exclude_hidden config' = "true" \/ exclude_hidden config' = "false")
    /\ PyStr.isdigit (max_workers config') = true
    /\ (0 < PyStr.int (max_workers config'))%Z.
Proof.
  induction values as [|item values IH]; intros config He Hm; cbn [fold_left];
    [tauto|].
  destruct (coerce_step_keeps config item He Hm) as (He' & Hd' & Hp').
  apply IH; auto.
Qed.

Lemma coerce_config_keeps_valid (values : list (string * string)) :
  valid_config defaults -> valid_config (_coerce_config values defaults).
Proof.
  intros (Hp & He & Hd & Hpos). unfold _coerce_config.
  destruct (coerce_fold_keeps values
              (mkConfig [] (exclude_hidden defaults) (max_workers defaults)))
    as (He' & Hd' & Hpos'); [exact He | split; assumption |].
  destruct (paths (fold_left coerce_step values _)) eqn:P; unfold valid_config.
  - simpl; auto.
  - rewrite P; repeat split; auto; discriminate.
Qed.


End CoerceConfig.

(** The defaults are valid when [os.cpu_count()] is [None] or a count. *)
Lemma default_config_valid (cwd : string) (cpu_count : option Z) :
  (forall n, cpu_count = Some n -> (0 <= n)%Z) ->
  valid_config (_default_config cwd cpu_count).
Proof.
  intros H. unfold valid_config, _default_config; cbn [paths exclude_hidden max_workers].
  set (count := match cpu_count with
                | Some n => if (n =? 0)%Z then 4%Z else n
                | None => 4%Z
                end).
  assert (Hc : (0 < count)%Z).
  { subst count. destruct cpu_count as [n|]; [|lia].
    specialize (H n eq_refl). destruct (Z.eqb_spec n 0); lia. }
  repeat split; [discriminate | auto | apply isdigit_str_of_int; lia |].
  rewrite int_str_of_int; lia.
Qed.


Section ConfigLines.

Lemma lstrip_length (s : string) : String.length (PyStr.lstrip s) <= String.length s.
Proof.
  induction s as [|c s IH]; [reflexivity|]. cbn [PyStr.lstrip].
  destruct (PyStr.is_space c); simpl; lia.
Qed.

Lemma lstrip_fixed_head (c : ascii) (s : string) :
  PyStr.lstrip (String c s) = String c s -> PyStr.is_space c = false.
Proof.
  cbn [PyStr.lstrip]. destruct (PyStr.is_space c); [|reflexivity].
  intros H. pose proof (lstrip_length s) as L. rewrite H in L. simpl in L. lia.
Qed.

Lemma lstrip_append_fixed (a b : string) :
  a <> "" -> PyStr.lstrip a = a -> PyStr.lstrip (a ++ b) = (a ++ b)%string.
Proof.
  destruct a as [|c a]; [congruence|]; intros _ H.
  cbn [append PyStr.lstrip]. now rewrite (lstrip_fixed_head _ _ H).
Qed.

Lemma split_first_eq_pair (key value : string) :
  has_eq key = false -> split_first_eq (key ++ "=" ++ value) = Some (key, value).
Proof.
  induction key as [|c key IH]; [reflexivity|]. cbn [has_eq]; intros H.
  apply orb_false_iff in H; destruct H as [Hc Hk].
  cbn [append split_first_eq] in *. now rewrite Hc, IH.
Qed.

(** The line [key=value] is read back as the pair [(key, value)]. *)
Lemma config_line_pair (key value : string) :
  key <> "" -> trimmed key -> has_eq key = false ->
  PyPath.startswith key "#" = false ->
  value <> "" -> trimmed value ->
  config_line (key ++ "=" ++ value) = Some (key, value).
Proof.
  intros Hk [Kl Kr] He Hh Hv [Vl Vr]. unfold config_line.
  assert (S : PyStr.strip (key ++ "=" ++ value) = (key ++ "=" ++ value)%string).
  { unfold PyStr.strip.
    assert (R : PyStr.rstrip ("=" ++ value) = ("=" ++ value)%string).
    { change ("=" ++ value)%string with (String "=" value).
      rewrite rstrip_cons; rewrite Vr; [reflexivity | assumption]. }
    rewrite rstrip_append; rewrite R; [|discriminate].
    now apply lstrip_append_fixed. }
  rewrite S.
  assert (T : PyStr.truthy (key ++ "=" ++ value) = true)
    by (destruct key; [congruence | reflexivity]).
  assert (P : PyPath.startswith (key ++ "=" ++ value) "#" = false).
  { destruct key as [|c key]; [congruence|].
    unfold PyPath.startswith in *; cbn [append String.prefix] in *.
    destruct (ascii_dec "#" c); [|reflexivity].
    destruct key; exact Hh. }
  rewrite T, P; cbn [negb orb].
  rewrite split_first_eq_pair by assumption.
  now rewrite !trimmed_strip by (split; assumption).
Qed.

Lemma digits_trimmed (s : string) : PyStr.isdigit s = true -> s <> "" /\ trimmed s.
Proof.
  intros H. destruct (isdigit_inv s H) as [Hne Hd]. split; [assumption|].
  split.
  - destruct s as [|c s]; [reflexivity|]. cbn [PyStr.all_digits] in Hd.
    apply andb_true_iff in Hd; destruct Hd as [Hc _].
    cbn [PyStr.lstrip]. now rewrite (is_digit_not_space c Hc).
  - clear H Hne. induction s as [|c s IH]; [reflexivity|].
    cbn [PyStr.all_digits] in Hd. apply andb_true_iff in Hd; destruct Hd as [Hc Hs].
    cbn [PyStr.rstrip]. rewrite (IH Hs).
    destruct s; [now rewrite (is_digit_not_space c Hc) | reflexivity].
Qed.

Lemma no_newline_digits (s : string) : PyStr.all_digits s = true -> no_newline s = true.
Proof.
  induction s as [|c s IH]; [reflexivity|]. cbn [PyStr.all_digits no_newline].
  intros H; apply andb_true_iff in H; destruct H as [Hc Hs].
  rewrite (IH Hs), andb_true_r. apply negb_true_iff.
  revert Hc. clear. destruct c as [[] [] [] [] [] [] [] []]; intros H;
    try reflexivity; discriminate H.
Qed.

Lemma concat_app (l1 l2 : list string) :
  String.concat "" (l1 ++ l2) = (String.concat "" l1 ++ String.concat "" l2)%string.
Proof.
  induction l1 as [|x l1 IH]; [reflexivity|].
  cbn [app]. now rewrite !concat_cons, IH, append_assoc.
Qed.

(** The text [_write_config] writes, as lines. *)
Lemma config_text_lines (c : Config) :
  config_text c
  = String.concat ""
      (map (fun l => l ++ NL)%string
         (map (fun item => fst item ++ "=" ++ snd item)%string (config_items c))).
Proof.
  unfold config_text, config_items. rewrite !map_app, !map_map, concat_app.
  reflexivity.
Qed.

Lemma coerce_fold_paths (ps : list string) :
  Forall (fun p => p <> "") ps ->
  forall acc e m,
    fold_left coerce_step (map (fun p => ("path", p)) ps) (mkConfig acc e m)
    = mkConfig (acc ++ ps) e m.
Proof.
  induction 1 as [|p ps Hp _ IH]; intros acc e m; cbn [map fold_left].
  - now rewrite app_nil_r.
  - unfold coerce_step at 2. cbn [paths exclude_hidden max_workers].
    assert (T : PyStr.truthy p = true) by (destruct p; [congruence | reflexivity]).
    rewrite T. cbn [String.eqb Ascii.eqb Bool.eqb andb].
    rewrite IH, <- app_assoc. reflexivity.
Qed.

Lemma config_line_path (p : string) :
  line_safe p -> config_line ("path" ++ "=" ++ p) = Some ("path", p).
Proof.
  intros (Hne & _ & Ht & _).
  apply config_line_pair; try assumption; try reflexivity; try discriminate;
    split; reflexivity.
Qed.

Lemma collect_path_lines (ps : list string) :
  Forall line_safe ps ->
  collect_some config_line
    (map (fun item => fst item ++ "=" ++ snd item)%string
       (map (fun p => ("path", p)) ps))
  = map (fun p => ("path", p)) ps.
Proof.
  induction 1 as [|p ps Hp _ IH]; [reflexivity|].
  cbn [map collect_some fst snd]. now rewrite (config_line_path p Hp), IH.
Qed.

Lemma no_newline_path_lines (ps : list string) :
  Forall line_safe ps ->
  Forall (fun l => no_newline l = true)
    (map (fun item => fst item ++ "=" ++ snd item)%string
       (map (fun p => ("path", p)) ps)).
Proof.
  induction 1 as [|p ps (_ & _ & _ & Hn) _ IH]; constructor; auto.
Qed.

End ConfigLines.

Section RoundTrip.

Variable fs : FS.
Variable path : string.
Variable c : Config.

Hypothesis Hpaths : Forall line_safe (paths c).
Hypothesis Hvalid : valid_config c.

Lemma load_written_config :
  _load_config (_write_config fs path c) path = config_items c.
Proof.
  destruct Hvalid as (_ & He & Hd & _).
  unfold _load_config, _write_config, fs_write. rewrite String.eqb_refl.
  rewrite config_text_lines, file_lines_concat.
  - unfold config_items. rewrite map_app, collect_some_app. f_equal.
    + now apply collect_path_lines.
    + cbn [map collect_some fst snd].
      assert (E : config_line ("exclude_hidden" ++ "=" ++ exclude_hidden c)
                  = Some ("exclude_hidden", exclude_hidden c))
        by (destruct He as [-> | ->]; reflexivity).
      rewrite E.
      destruct (digits_trimmed _ Hd) as [Hne Ht].
      assert (M : config_line ("max_workers" ++ "=" ++ max_workers c)
                  = Some ("max_workers", max_workers c)).
      { apply config_line_pair; try assumption; try reflexivity; try discriminate;
          split; reflexivity. }
      now rewrite M.
  - unfold config_items. rewrite map_app. apply Forall_app; split.
    + now apply no_newline_path_lines.
    + destruct (isdigit_inv _ Hd) as [_ Hd'].
      repeat constructor; cbn [fst snd]; rewrite !no_newline_append.
      * destruct He as [-> | ->]; reflexivity.
      * now rewrite (no_newline_digits _ Hd').
Qed.

Lemma coerce_config_items (defaults : Config) :
  _coerce_config (config_items c) defaults = c.
Proof.
  destruct Hvalid as (Hp & He & Hd & Hpos).
  unfold _coerce_config, config_items. rewrite fold_left_app, coerce_fold_paths.
  - cbn [app fold_left]. unfold coerce_step.
    cbn [String.eqb Ascii.eqb Bool.eqb andb paths exclude_hidden max_workers].
    assert (E : forall cfg,
               match _parse_bool (exclude_hidden c) with
               | Some parsed =>
                   mkConfig (paths c) (if parsed then "true" else "false")
                     (max_workers cfg)
               | None => mkConfig (paths c) (exclude_hidden cfg) (max_workers cfg)
               end = mkConfig (paths c) (exclude_hidden c) (max_workers cfg))
      by (intros cfg; destruct He as [-> | ->]; reflexivity).
    destruct (_parse_bool (exclude_hidden c)) as [parsed|] eqn:B.
    + cbn [paths exclude_hidden max_workers].
      assert (Eh : (if parsed then "true" else "false") = exclude_hidden c).
      { destruct He as [H | H]; rewrite H in B |- *; inversion B; reflexivity. }
      rewrite Hd. apply Z.gtb_lt in Hpos. rewrite Hpos. cbn [andb paths].
      destruct c as [ps e m]; cbn [paths exclude_hidden max_workers] in *.
      destruct ps; [congruence|]. now rewrite Eh.
    + destruct He as [H | H]; rewrite H in B; discriminate B.
  - eapply Forall_impl; [|exact Hpaths]. now intros p (Hne & _).
Qed.



End RoundTrip.


Section CharFacts.

Variable f : ascii -> bool.

Lemma string_forall_append (a b : string) :
  string_forall f (a ++ b) = string_forall f a && string_forall f b.
Proof.
  induction a as [|c a IH]; [reflexivity|]. cbn [append string_forall].
  now rewrite IH, andb_assoc.
Qed.

Lemma string_forall_lstrip (s : string) :
  string_forall f s = true -> string_forall f (PyStr.lstrip s) = true.
Proof.
  induction s as [|c s IH]; [reflexivity|]. cbn [PyStr.lstrip].
  destruct (PyStr.is_space c); [|auto]. cbn [string_forall].
  intros H; apply andb_true_iff in H; tauto.
Qed.

Lemma string_forall_rstrip (s : string) :
  string_forall f s = true -> string_forall f (PyStr.rstrip s) = true.
Proof.
  induction s as [|c s IH]; [reflexivity|]. cbn [string_forall PyStr.rstrip].
  intros H; apply andb_true_iff in H; destruct H as [Hc Hs].
  specialize (IH Hs).
  destruct (PyStr.rstrip s); [destruct (PyStr.is_space c)|];
    cbn [string_forall] in *; rewrite ?Hc; auto.
Qed.

Lemma string_forall_strip (s : string) :
  string_forall f s = true -> string_forall f (PyStr.strip s) = true.
Proof. intros H. now apply string_forall_lstrip, string_forall_rstrip. Qed.

Lemma string_forall_split_first_eq (s key value : string) :
  string_forall f s = true -> split_first_eq s = Some (key, value) ->
  string_forall f key = true /\ string_forall f value = true.
Proof.
  revert key value; induction s as [|c s IH]; intros key value H E;
    [discriminate|].
  cbn [string_forall] in H. apply andb_true_iff in H; destruct H as [Hc Hs].
  cbn [split_first_eq] in E. destruct (Ascii.eqb c "=").
  - inversion E; subst; auto.
  - destruct (split_first_eq s) as [[k v]|]; [|discriminate].
    inversion E; subst. destruct (IH k value Hs eq_refl) as [Hk Hv].
    cbn [string_forall]. rewrite Hc, Hk; auto.
Qed.

Lemma string_forall_file_lines (content : string) :
  string_forall f content = true ->
  forall line, string_forall f line = true ->
    Forall (fun l => string_forall f l = true) (file_lines_from line content).
Proof.
  induction content as [|c content IH]; cbn [string_forall file_lines_from];
    intros H line Hl.
  - destruct line; repeat constructor; assumption.
  - apply andb_true_iff in H; destruct H as [Hc Hs].
    destruct (is_newline c); [constructor; auto|].
    apply IH; [assumption|]. rewrite string_forall_append, Hl. cbn [string_forall].
    now rewrite Hc.
Qed.

End CharFacts.

Lemma is_ascii_forall (s : string) :
  is_ascii s = string_forall (fun c => (nat_of_ascii c <? 128)%nat) s.
Proof. induction s as [|c s IH]; [reflexivity|]. cbn; now rewrite IH. Qed.

Lemma no_newline_forall (s : string) :
  no_newline s = string_forall (fun c => negb (is_newline c)) s.
Proof. induction s as [|c s IH]; [reflexivity|]. cbn; now rewrite IH. Qed.

Lemma has_eq_forall (s : string) :
  has_eq s = negb (string_forall (fun c => negb (Ascii.eqb c "=")) s).
Proof.
  induction s as [|c s IH]; [reflexivity|]. cbn [has_eq string_forall].
  rewrite IH. now destruct (Ascii.eqb c "="), (string_forall _ s).
Qed.

(** The lines of a file hold no line break. *)
Lemma file_lines_no_newline (content : string) :
  Forall (fun l => no_newline l = true) (file_lines content).
Proof.
  unfold file_lines. generalize EmptyString at 1, (eq_refl : no_newline "" = true).
  induction content as [|c content IH]; cbn [file_lines_from]; intros line Hl.
  - destruct line; repeat constructor; assumption.
  - destruct (is_newline c) eqn:N; [constructor; auto|].
    apply IH. rewrite no_newline_append, Hl. cbn [no_newline]. now rewrite N.
Qed.

Lemma split_first_eq_key (s key value : string) :
  split_first_eq s = Some (key, value) -> has_eq key = false.
Proof.
  revert key value; induction s as [|c s IH]; intros key value E; [discriminate|].
  cbn [split_first_eq] in E. destruct (Ascii.eqb c "=") eqn:C.
  - inversion E; reflexivity.
  - destruct (split_first_eq s) as [[k v]|]; [|discriminate].
    inversion E; subst. cbn [has_eq]. now rewrite C, (IH k value eq_refl).
Qed.

Section LoadShape.

Variable fs : FS.
Variable path : string.

Lemma config_line_shape (line key value : string) :
  no_newline line = true -> config_line line = Some (key, value) ->
  has_eq key = false /\ trimmed key /\ trimmed value
  /\ no_newline key = true /\ no_newline value = true
  /\ (is_ascii line = true -> is_ascii value = true).
Proof.
  unfold config_line; intros Hn E.
  destruct (negb (PyStr.truthy (PyStr.strip line)) || _); [discriminate|].
  destruct (split_first_eq (PyStr.strip line)) as [[k v]|] eqn:S; [|discriminate].
  inversion E; subst; clear E.
  pose proof (split_first_eq_key _ _ _ S) as Hk.
  rewrite no_newline_forall in Hn.
  destruct (string_forall_split_first_eq _ _ _ _ (string_forall_strip _ _ Hn) S)
    as [Nk Nv].
  repeat split; try apply strip_trimmed.
  - rewrite has_eq_forall in *. apply negb_false_iff in Hk. apply negb_false_iff.
    now apply string_forall_strip.
  - rewrite no_newline_forall. now apply string_forall_strip.
  - rewrite no_newline_forall. now apply string_forall_strip.
  - rewrite !is_ascii_forall. intros Ha.
    destruct (string_forall_split_first_eq _ _ _ _ (string_forall_strip _ _ Ha) S)
      as [_ Av].
    now apply string_forall_strip.
Qed.

(** X5.  Every pair [_load_config] returns has a key without ["="], and
    a key and a value without white space at their ends and without line
    break; a missing file gives no pair at all. *)
Theorem load_config_shape :
  (fs path = None -> _load_config fs path = [])
  /\ forall key value, In (key, value) (_load_config fs path) ->
       has_eq key = false /\ trimmed key /\ trimmed value
       /\ no_newline key = true /\ no_newline value = true.
Proof.
  unfold _load_config; split; [now intros ->|].
  intros key value H. destruct (fs path) as [content|]; [|contradiction].
  apply collect_some_in in H. destruct H as (line & Hl & E).
  pose proof (file_lines_no_newline content) as N. rewrite Forall_forall in N.
  destruct (config_line_shape line key value (N line Hl) E) as (H1 & H2 & H3 & H4 & H5 & _).
  auto.
Qed.

(** X6.  Every entry [_load_ignore_entries] returns is non-empty, is not
    a comment, and has no white space at its ends and no line break; a
    missing ignore file gives no entry. *)
Theorem load_ignore_entries_shape :
  (fs path = None -> _load_ignore_entries fs path = [])
  /\ forall entry, In entry (_load_ignore_entries fs path) ->
       entry <> "" /\ PyPath.startswith entry "#" = false
       /\ trimmed entry /\ no_newline entry = true.
Proof.
  unfold _load_ignore_entries; split; [now intros ->|].
  intros entry H. destruct (fs path) as [content|]; [|contradiction].
  apply collect_some_in in H. destruct H as (line & Hl & E).
  pose proof (file_lines_no_newline content) as N. rewrite Forall_forall in N.
  specialize (N line Hl). unfold ignore_line in E.
  destruct (PyStr.truthy (PyStr.strip line)) eqn:T; [|discriminate].
  destruct (PyPath.startswith (PyStr.strip line) "#") eqn:P; [discriminate|].
  inversion E; subst; clear E. repeat split; try apply strip_trimmed; auto.
  - intros Z; rewrite Z in T; discriminate.
  - rewrite no_newline_forall in *. now apply string_forall_strip.
Qed.

End LoadShape.

Lemma load_config_shape_witness :
  let fs : FS := fun p => if p =? "config" then Some "# roots
path = /srv/code 
max_workers=4
" else None in
  _load_config fs "config" = [("path", "/srv/code"); ("max_workers", "4")]
  /\ trimmed "/srv/code" /\ _load_config fs "legacy" = [].
Proof.
  intros fs.
  destruct (load_config_shape fs "config") as [_ H].
  destruct (H "path" "/srv/code") as (_ & _ & Ht & _); [left; reflexivity|].
  destruct (load_config_shape fs "legacy") as [H0 _].
  split; [reflexivity|]. split; [exact Ht|]. now apply H0.
Defined.

Lemma load_ignore_entries_shape_witness :
  let fs : FS := fun p => if p =? "ignore" then Some "# vendored
  node_modules  

build" else None in
  _load_ignore_entries fs "ignore" = ["node_modules"; "build"]
  /\ trimmed "node_modules" /\ _load_ignore_entries fs "none" = [].
Proof.
  intros fs.
  destruct (load_ignore_entries_shape fs "ignore") as [_ H].
  destruct (H "node_modules") as (_ & _ & Ht & _); [left; reflexivity|].
  destruct (load_ignore_entries_shape fs "none") as [H0 _].
  split; [reflexivity|]. split; [exact Ht|]. now apply H0.
Defined.

Section EnsureConfig.

Variable defaults : Config.
Variables config_path legacy_path : string.

Lemma fs_write_same (fs : FS) (path content : string) :
  fs_write fs path content path = Some content.
Proof. unfold fs_write. now rewrite String.eqb_refl. Qed.

Lemma fs_write_other (fs : FS) (path content p : string) :
  p <> path -> fs_write fs path content p = fs p.
Proof.
  unfold fs_write; intros H. destruct (String.eqb_spec p path); congruence.
Qed.

(** X4.  After [_ensure_config] the configuration file exists; a file
    that existed is not rewritten; no other file, the legacy file
    included, is touched; and a second run changes nothing and returns the
    same configuration. *)
Theorem ensure_config_settles (fs : FS) :
  let config := fst (_ensure_config defaults config_path legacy_path fs) in
  let fs' := snd (_ensure_config defaults config_path legacy_path fs) in
  fs_exists fs' config_path = true
  /\ (fs_exists fs config_path = true -> fs' = fs)
  /\ (forall p, p <> config_path -> fs' p = fs p)
  /\ _ensure_config defaults config_path legacy_path fs' = (config, fs').
Proof.
  intros config fs'.
  assert (He : fs_exists fs' config_path = true).
  { subst fs'. unfold _ensure_config; cbn [snd].
    destruct (fs_exists fs config_path) eqn:E; cbn [negb]; [assumption|].
    destruct (fs_exists fs legacy_path); unfold fs_exists, _write_config;
      now rewrite fs_write_same. }
  split; [exact He|]. split; [|split].
  - intros E. subst fs'. unfold _ensure_config; cbn [snd]. now rewrite E.
  - intros p Hp. subst fs'. unfold _ensure_config; cbn [snd].
    destruct (fs_exists fs config_path); cbn [negb]; [reflexivity|].
    destruct (fs_exists fs legacy_path); unfold _write_config;
      now apply fs_write_other.
  - unfold _ensure_config at 1. rewrite He; cbn [negb].
    subst config fs'. reflexivity.
Qed.

Lemma coerce_fold_paths_from (values : list (string * string)) :
  forall config p,
    In p (paths (fold_left coerce_step values config)) ->
    In p (paths config) \/ (p <> "" /\ In p (map snd values)).
Proof.
  induction values as [|[key value] values IH]; intros config p H;
    cbn [fold_left] in H; [auto|].
  destruct (IH _ _ H) as [Hc | [Hne Hin]]; [|right; split; [assumption | now right]].
  unfold coerce_step in Hc.
  destruct ((key =? "path") && PyStr.truthy value) eqn:K.
  - cbn [paths] in Hc. apply in_app_or in Hc. destruct Hc as [Hc | [<- | []]]; auto.
    right; split; [|now left].
    apply andb_true_iff in K; destruct K as [_ T].
    intros Z; rewrite Z in T; discriminate.
  - destruct (key =? "exclude_hidden").
    + destruct (_parse_bool value) as [[|]|]; auto.
    + destruct (key =? "max_workers"); [|auto].
      destruct (PyStr.isdigit value && (PyStr.int value >? 0)%Z); auto.
Qed.

(** The paths of a coerced configuration come from the defaults or are
    non-empty values of the pairs. *)
Lemma coerce_config_paths_from (values : list (string * string)) (p : string) :
  In p (paths (_coerce_config values defaults)) ->
  In p (paths defaults) \/ (p <> "" /\ In p (map snd values)).
Proof.
  unfold _coerce_config.
  destruct (paths (fold_left coerce_step values _)) eqn:P; cbn [paths]; [auto|].
  intros H.
  assert (H' : In p (paths (fold_left coerce_step values
                              (mkConfig [] (exclude_hidden defaults)
                                 (max_workers defaults)))))
    by (rewrite P; first [exact H | rewrite <- P; exact H]).
  destruct (coerce_fold_paths_from _ _ _ H') as [[] | Hv]; auto.
Qed.

Lemma load_config_value_safe (fs : FS) (path content value : string) :
  fs path = Some content -> is_ascii content = true ->
  value <> "" -> In value (map snd (_load_config fs path)) -> line_safe value.
Proof.
  intros Hf Ha Hne Hin. apply in_map_iff in Hin. destruct Hin as ([key v] & <- & Hin).
  cbn [snd] in *. unfold _load_config in Hin. rewrite Hf in Hin.
  apply collect_some_in in Hin. destruct Hin as (line & Hl & E).
  pose proof (file_lines_no_newline content) as N. rewrite Forall_forall in N.
  assert (Al : is_ascii line = true).
  { rewrite is_ascii_forall in *.
    pose proof (string_forall_file_lines _ content Ha "" eq_refl) as F.
    rewrite Forall_forall in F. now apply F. }
  destruct (config_line_shape line key v (N line Hl) E) as (_ & _ & Ht & _ & Hn & Hasc).
  repeat split; auto; apply Ht.
Qed.


End EnsureConfig.

Lemma ensure_config_settles_witness :
  let fs : FS := fun p => if p =? "config" then Some "path=/srv
" else None in
  snd (_ensure_config (_default_config "/home/me" None) "config" "legacy" fs) = fs
  /\ fst (_ensure_config (_default_config "/home/me" None) "config" "legacy" fs)
     = mkConfig ["/srv"] "false" "4".
Proof.
  intros fs.
  destruct (ensure_config_settles (_default_config "/home/me" None) "config" "legacy" fs)
    as (_ & H & _).
  split; [now apply H | reflexivity].
Defined.


(** * Properties of the path resolver *)

Section NormalizePaths.

Variable os : OS.

Let resolve (p : string) : string := abspath os (expanduser os p).

Lemma normalize_loop_spec (paths : list string) :
  forall normalized seen,
    (forall x, In x seen <-> In x normalized) -> NoDup normalized ->
    let result := normalize_loop os normalized seen paths in
    NoDup result
    /\ (forall q, In q result <->
          In q normalized \/ exists p, In p paths /\ p <> "" /\ q = resolve p)
    /\ (NoDup (map resolve (filter PyStr.truthy paths)) ->
        (forall p, In p paths -> p <> "" -> ~ In (resolve p) normalized) ->
        result = normalized ++ map resolve (filter PyStr.truthy paths)).
Proof.
  induction paths as [|p paths IH]; intros normalized seen Hs Hn; cbn [normalize_loop].
  - split; [assumption|]. split.
    + intros q; split; [auto | intros [H | (p & [] & _)]; exact H].
    + intros _ _. cbn. now rewrite app_nil_r.
  - destruct (PyStr.truthy p) eqn:T; cbn [negb filter].
    + assert (Hp : p <> "") by (intros ->; discriminate T).
      fold (resolve p).
      destruct (in_set (resolve p) seen) eqn:S.
      * assert (Hin : In (resolve p) normalized).
        { apply Hs. unfold in_set in S. apply existsb_exists in S.
          destruct S as (x & Hx & E). apply String.eqb_eq in E. now subst. }
        destruct (IH normalized seen Hs Hn) as (H1 & H2 & H3).
        split; [exact H1|]. split.
        -- intros q. rewrite H2. split.
           ++ intros [H | (p' & Hp' & Hne & E)]; [auto|].
              right; exists p'; split; [now right | auto].
           ++ intros [H | (p' & [<- | Hp'] & Hne & E)]; [auto | subst; auto |].
              right; exists p'; auto.
        -- intros _ Hfresh. exfalso. apply (Hfresh p); [now left | assumption|].
           exact Hin.
      * assert (Hnot : ~ In (resolve p) normalized).
        { intros Hin. apply Hs in Hin.
          assert (S' : in_set (resolve p) seen = true).
          { unfold in_set. apply existsb_exists. exists (resolve p).
            split; [assumption | apply String.eqb_refl]. }
          congruence. }
        destruct (IH (normalized ++ [resolve p]) (resolve p :: seen))
          as (H1 & H2 & H3).
        { intros x. cbn [In]. rewrite in_app_iff, Hs. cbn [In]. tauto. }
        { apply NoDup_app; [assumption | repeat constructor; intros [] |].
          intros x Hx [<- | []]. contradiction. }
        split; [exact H1|]. split.
        -- intros q. rewrite H2, in_app_iff. cbn [In]. split.
           ++ intros [[H | [<- | []]] | (p' & Hp' & Hne & E)]; auto.
              ** right; exists p; auto.
              ** right; exists p'; auto.
           ++ intros [H | (p' & [<- | Hp'] & Hne & E)]; auto.
              right; exists p'; auto.
        -- cbn [filter]. rewrite T. cbn [map]. intros Hnd Hfresh. inversion Hnd as [|? ? Hx Hnd']; subst.
           rewrite H3; [rewrite <- app_assoc; reflexivity | assumption |].
           intros p' Hp' Hne Hin. apply in_app_or in Hin.
           destruct Hin as [Hin | [E | []]].
           ++ apply (Hfresh p'); [now right | assumption | assumption].
           ++ apply Hx. rewrite E. apply in_map. apply filter_In; split; [assumption|].
              destruct p'; [congruence | reflexivity].
    + assert (Hp : p = "") by (destruct p; [reflexivity | discriminate T]).
      destruct (IH normalized seen Hs Hn) as (H1 & H2 & H3).
      split; [exact H1|]. split.
      * intros q. rewrite H2. split.
        -- intros [H | (p' & Hp' & Hne & E)]; [auto|].
           right; exists p'; split; [now right | auto].
        -- intros [H | (p' & [<- | Hp'] & Hne & E)]; [auto | congruence |].
           right; exists p'; auto.
      * cbn [filter]. rewrite T. intros Hnd Hfresh. apply H3; [assumption|].
        intros p' Hp'. apply Hfresh. now right.
Qed.

(** X8.  [_normalize_paths] returns each resolved path once: the result
    has no duplicates, holds exactly the resolved forms of the non-empty
    inputs, and keeps the order of the input when no two non-empty inputs
    resolve to the same path. *)
Theorem normalize_paths_distinct (paths : list string) :
  let result := _normalize_paths os paths in
  NoDup result
  /\ (forall q, In q result <->
        exists p, In p paths /\ p <> "" /\ q = abspath os (expanduser os p))
  /\ (NoDup (map (fun p => abspath os (expanduser os p)) (filter PyStr.truthy paths)) ->
      result = map (fun p => abspath os (expanduser os p)) (filter PyStr.truthy paths)).
Proof.
  destruct (normalize_loop_spec paths [] []) as (H1 & H2 & H3);
    [tauto | constructor |].
  split; [exact H1|]. split.
  - intros q. rewrite (H2 q). cbn [In]. tauto.
  - intros Hnd. apply H3; [exact Hnd | intros p _ _ []].
Qed.

End NormalizePaths.

Lemma normalize_paths_distinct_witness :
  _normalize_paths sample_os ["/srv"; ""; "/data"; "/srv"] = ["/srv"; "/data"]
  /\ NoDup (_normalize_paths sample_os ["/srv"; ""; "/data"; "/srv"])
  /\ _normalize_paths sample_os ["/data"; ""; "/srv"] = ["/data"; "/srv"].
Proof.
  split; [reflexivity|]. split.
  - apply (normalize_paths_distinct sample_os ["/srv"; ""; "/data"; "/srv"]).
  - apply (normalize_paths_distinct sample_os ["/data"; ""; "/srv"]).
    repeat constructor; simpl; intuition discriminate.
Defined.

(** * Properties of the nesting test *)

Section Ancestors.

Local Abbreviation valid_path := (Forall (fun c => valid_component c = true)).

Lemma components_eqb_eq (a : list string) :
  forall b, components_eqb a b = true <-> a = b.
Proof.
  induction a as [|x a IH]; intros [|y b]; cbn [components_eqb];
    try (split; congruence).
  rewrite andb_true_iff, String.eqb_eq, IH. split; [intros [-> ->] | intros E; inversion E]; auto.
Qed.

Lemma proper_ancestor_spec (folder other : list string) :
  proper_ancestor folder other = true
  <-> other <> folder /\ equal_or_under folder other.
Proof.
  unfold proper_ancestor, equal_or_under.
  rewrite andb_true_iff, negb_true_iff, is_prefix_spec.
  destruct (components_eqb other folder) eqn:E.
  - apply components_eqb_eq in E. split; [intros [? _]; discriminate | tauto].
  - split; intros [_ H]; (split; [|exact H]); [|reflexivity].
    intros E'. apply components_eqb_eq in E'. congruence.
Qed.

Lemma has_ancestor_abs_path (folder : list string) (candidates : list (list string)) :
  valid_path folder -> Forall valid_path candidates ->
  _has_ancestor (abs_path folder) (map abs_path candidates)
  = Ok (existsb (proper_ancestor folder) candidates).
Proof.
  intros Hf Hc.
  induction Hc as [|other candidates Ho _ IH]; cbn [map _has_ancestor existsb];
    [reflexivity|].
  unfold proper_ancestor at 1.
  destruct (String.eqb_spec (abs_path other) (abs_path folder)) as [E|Hne].
  - apply abs_path_inj in E; auto. subst other.
    replace (components_eqb folder folder) with true
      by (symmetry; now apply components_eqb_eq).
    exact IH.
  - replace (components_eqb other folder) with false.
    2:{ symmetry. destruct (components_eqb other folder) eqn:E; [|reflexivity].
        apply components_eqb_eq in E. now subst. }
    cbn [negb andb].
    rewrite commonpath_two, !isabs_abs_path; cbn [Bool.eqb].
    rewrite (components_of_abs_path folder Hf), (components_of_abs_path other Ho).
    fold (abs_path (common_prefix folder other)).
    destruct (is_prefix other folder) eqn:P; cbn [orb].
    + apply common_prefix_is_prefix in P. now rewrite P, String.eqb_refl.
    + destruct (String.eqb_spec (abs_path (common_prefix folder other)) (abs_path other))
        as [E|_]; [|exact IH].
      apply abs_path_inj in E; auto using common_prefix_valid.
      apply common_prefix_is_prefix in E; congruence.
Qed.

(** X9.  On normalised absolute paths [_has_ancestor] never raises, and it
    answers true exactly when some candidate other than the path itself is
    a component-wise prefix of the path: a sibling whose name merely starts
    with the same characters does not count, and neither does the path
    itself. *)
Theorem has_ancestor_proper_prefix (folder : list string) (candidates : list (list string)) :
  valid_path folder -> Forall valid_path candidates ->
  exists answer,
    _has_ancestor (abs_path folder) (map abs_path candidates) = Ok answer
    /\ (answer = true <->
        exists other, In other candidates /\ other <> folder
                      /\ equal_or_under folder other).
Proof.
  intros Hf Hc. eexists; split; [now apply has_ancestor_abs_path|].
  rewrite existsb_exists. split.
  - intros (other & Hin & H). apply proper_ancestor_spec in H. eauto.
  - intros (other & Hin & H). exists other; split; [assumption|].
    now apply proper_ancestor_spec.
Qed.

Lemma root_targets_abs_path (targets : list (list string)) :
  forall candidates, Forall valid_path targets -> Forall valid_path candidates ->
  root_targets_of (map abs_path targets) (map abs_path candidates)
  = Ok (map abs_path (filter (is_root_target candidates) targets)).
Proof.
  induction targets as [|t targets IH]; intros candidates Ht Hc;
    cbn [map root_targets_of filter]; [reflexivity|].
  inversion Ht as [|? ? Hv Ht']; subst.
  rewrite has_ancestor_abs_path by assumption. cbn [py_bind].
  rewrite IH by assumption. cbn [py_bind].
  replace (is_root_target candidates t)
    with (negb (existsb (proper_ancestor t) candidates)) by reflexivity.
  now destruct (existsb (proper_ancestor t) candidates).
Qed.

Lemma covered_by_root (targets : list (list string)) (n : nat) :
  forall t, length t <= n -> In t targets ->
  exists r, In r (filter (is_root_target targets) targets) /\ equal_or_under t r.
Proof.
  induction n as [|n IH]; intros t Hlen Hin.
  - destruct t; [|cbn in Hlen; lia].
    exists []; split; [|exists []; reflexivity].
    apply filter_In; split; [assumption|].
    unfold is_root_target. apply negb_true_iff.
    destruct (existsb (proper_ancestor []) targets) eqn:E; [|reflexivity].
    apply existsb_exists in E. destruct E as (o & _ & H).
    apply proper_ancestor_spec in H. destruct H as (Hne & rest & H).
    symmetry in H. apply app_eq_nil in H. destruct H; congruence.
  - destruct (is_root_target targets t) eqn:R.
    + exists t; split; [now apply filter_In | exists []; now rewrite app_nil_r].
    + unfold is_root_target in R. apply negb_false_iff, existsb_exists in R.
      destruct R as (o & Ho & H). apply proper_ancestor_spec in H.
      destruct H as (Hne & rest & ->).
      destruct rest as [|x rest]; [now rewrite app_nil_r in Hne|].
      destruct (IH o) as (r & Hr & rest' & ->); [|assumption|].
      { rewrite length_app in Hlen. cbn in Hlen. lia. }
      exists r; split; [assumption|]. exists (rest' ++ x :: rest).
      now rewrite app_assoc.
Qed.


End Ancestors.

Lemma has_ancestor_proper_prefix_witness :
  exists answer,
    _has_ancestor (abs_path ["srv"; "foo-bar"])
      (map abs_path [["srv"; "foo"]; ["srv"; "foo-bar"]]) = Ok answer
    /\ (answer = true <->
        exists other, In other [["srv"; "foo"]; ["srv"; "foo-bar"]]
                      /\ other <> ["srv"; "foo-bar"]
                      /\ equal_or_under ["srv"; "foo-bar"] other).
Proof.
  apply (has_ancestor_proper_prefix ["srv"; "foo-bar"]
           [["srv"; "foo"]; ["srv"; "foo-bar"]]).
  - repeat constructor.
  - repeat constructor.
Defined.


(** * Properties of the sub-folder listing *)

Section SortedUnique.

Context {A : Type}.
Variable key : A -> string.

Lemma sorted_perm_unique (l : list A) :
  forall l', sorted_by key l -> sorted_by key l' -> Permutation l l' ->
    NoDup (map key l) -> l = l'.
Proof.
  unfold sorted_by.
  induction l as [|x l IH]; intros l' Hs Hs' Hp Hn.
  - now apply Permutation_nil in Hp.
  - destruct l' as [|y l'];
      [apply Permutation_sym, Permutation_nil in Hp; discriminate|].
    inversion Hs as [|? ? Hs1 Hx]; inversion Hs' as [|? ? Hs2 Hy]; subst.
    cbn [map] in Hn. inversion Hn as [|? ? Hnot Hn1]; subst.
    assert (E : x = y).
    { assert (Hxin : In x (y :: l')) by (eapply Permutation_in; [exact Hp | now left]).
      assert (Hyin : In y (x :: l))
        by (eapply Permutation_in; [symmetry; exact Hp | now left]).
      destruct Hxin as [E | Hxin]; [now symmetry|].
      destruct Hyin as [E | Hyin]; [assumption|].
      exfalso. apply Hnot.
      rewrite Forall_forall in Hx, Hy.
      rewrite (String.leb_antisym _ _ (Hx y Hyin) (Hy x Hxin)).
      now apply in_map. }
    subst y. f_equal. apply IH; auto.
    now apply Permutation_cons_inv in Hp.
Qed.

Lemma sort_by_ext (key' : A -> string) (l : list A) :
  (forall a, key' a = key a) -> sort_by key' l = sort_by key l.
Proof.
  intros E. induction l as [|x l IH]; [reflexivity|].
  cbn [sort_by]. rewrite IH. generalize (sort_by key l) as s.
  induction s as [|y s IHs]; [reflexivity|].
  cbn [insert_by]. rewrite !E, IHs. reflexivity.
Qed.

End SortedUnique.

Lemma filter_perm {A} (f : A -> bool) (l l' : list A) :
  Permutation l l' -> Permutation (filter f l) (filter f l').
Proof.
  induction 1 as [|x l l' _ IH|x y l|l l' l'' _ IH1 _ IH2]; cbn [filter].
  - constructor.
  - destruct (f x); [now constructor | assumption].
  - destruct (f x), (f y); try reflexivity. constructor.
  - now transitivity (filter f l').
Qed.

Lemma nodup_map_filter {A B} (h : A -> B) (f : A -> bool) (l : list A) :
  NoDup (map h l) -> NoDup (map h (filter f l)).
Proof.
  induction l as [|x l IH]; cbn [map filter]; [auto|].
  intros H; inversion H as [|? ? Hx Hl]; subst.
  destruct (f x); [|auto]. cbn [map]. constructor; [|auto].
  intros Hin. apply Hx. apply in_map_iff in Hin. destruct Hin as (a & E & Ha).
  apply filter_In in Ha. apply in_map_iff. exists a; tauto.
Qed.

Section ListingRule.

Variable os : OS.
Variable base : list string.
Variable include_hidden : bool.
Variable ignored : list (list string).
Variable it : list DirEntry.

Hypothesis Hbase : Forall (fun c => valid_component c = true) base.
Hypothesis Hignored : Forall (Forall (fun c => valid_component c = true)) ignored.
Hypothesis Hit : scandir os (abs_path base) = Ok it.
Hypothesis Hnames : Forall (fun e => valid_component (entry_name e) = true) it.

(** X11.  Under a normalised absolute base path whose directory can be
    read, [_list_subfolders] returns, sorted on the lower-cased name,
    exactly the entries that are directories, are not hidden (unless hidden
    folders are asked for) and are neither equal to nor under a resolved
    ignore path, each with the path of the base joined with its name; it
    lists nothing that [os.scandir] did not yield. *)
Theorem list_subfolders_members :
  exists entries,
    _list_subfolders os (abs_path base) include_hidden (map abs_path ignored)
    = Ok entries
    /\ sorted_by (fun item => lower os (fst item)) entries
    /\ length entries <= length it
    /\ forall name path,
         In (name, path) entries
         <-> path = abs_path (base ++ [name])
             /\ (exists e, In e it /\ entry_name e = name /\ entry_is_dir e = true)
             /\ (include_hidden = false -> PyPath.startswith name "." = false)
             /\ ~ (exists ig, In ig ignored /\ equal_or_under (base ++ [name]) ig).
Proof.
  eexists. split; [rewrite list_subfolders_eq, Hit; reflexivity|].
  split; [apply sort_by_sorted|]. split.
  - rewrite (Permutation_length (sort_by_perm _ _)), length_map.
    apply filter_length_le.
  - intros name path. rewrite sort_by_in, in_map_iff.
    assert (L : forall e, In e it ->
              (listed (abs_path base) include_hidden (map abs_path ignored) e = true
               <-> entry_is_dir e = true
                   /\ (include_hidden = false ->
                       PyPath.startswith (entry_name e) "." = false)
                   /\ ~ (exists ig, In ig ignored
                                    /\ equal_or_under (base ++ [entry_name e]) ig))).
    { intros e He. rewrite Forall_forall in Hnames. pose proof (Hnames e He) as Hn.
      assert (Hf : Forall (fun c => valid_component c = true) (base ++ [entry_name e])).
      { apply Forall_app; split; [assumption | now repeat constructor]. }
      unfold listed, is_ignoredb.
      rewrite (entry_path_abs_path base e Hbase Hn).
      rewrite <- (is_ignored_false_iff ignored Hignored _ Hf).
      rewrite (is_ignored_abs_path _ ignored Hf Hignored).
      rewrite !andb_true_iff, !negb_true_iff, andb_false_iff, negb_false_iff.
      destruct include_hidden, (existsb _ ignored);
        split; intros H; repeat split; try tauto; try congruence;
        try (destruct H as ((? & ?) & [? | ?]); congruence);
        try (destruct H as (? & ? & ?); congruence). }
    split.
    + intros (e & E & He). apply filter_In in He. destruct He as (He & Hl).
      inversion E; subst. rewrite Forall_forall in Hnames.
      split; [now apply entry_path_abs_path; auto|].
      apply (L e He) in Hl. destruct Hl as (Hd & Hh & Hi).
      split; [exists e; auto | auto].
    + intros (-> & (e & He & <- & Hd) & Hh & Hi).
      exists e. rewrite Forall_forall in Hnames.
      split; [now rewrite (entry_path_abs_path base e Hbase (Hnames e He))|].
      apply filter_In; split; [assumption|]. apply (L e He). auto.
Qed.

End ListingRule.

Lemma list_subfolders_members_witness :
  exists entries,
    _list_subfolders sample_os (abs_path ["srv"]) false (map abs_path [["srv"; "foo"]])
    = Ok entries
    /\ sorted_by (fun item => lower sample_os (fst item)) entries
    /\ length entries <= 6
    /\ forall name path,
         In (name, path) entries
         <-> path = abs_path (["srv"] ++ [name])
             /\ (exists e, In e srv_entries /\ entry_name e = name
                           /\ entry_is_dir e = true)
             /\ (false = false -> PyPath.startswith name "." = false)
             /\ ~ (exists ig, In ig [["srv"; "foo"]]
                              /\ equal_or_under (["srv"] ++ [name]) ig).
Proof.
  apply (list_subfolders_members sample_os ["srv"] false [["srv"; "foo"]]
           srv_entries).
  - repeat constructor.
  - repeat constructor.
  - reflexivity.
  - repeat constructor.
Defined.

Section ListingOrder.

Variables os os' : OS.
Variable base_path : string.
Variable include_hidden : bool.
Variable ignored_paths : list string.
Variables it it' : list DirEntry.

Hypothesis Hlower : forall s, lower os' s = lower os s.
Hypothesis Hit : scandir os base_path = Ok it.
Hypothesis Hit' : scandir os' base_path = Ok it'.
Hypothesis Hperm : Permutation it it'.
Hypothesis Hdistinct : NoDup (map (fun e => lower os (entry_name e)) it).

(** X12.  The listing does not depend on the order in which [os.scandir]
    yields the entries, as long as no two entries have the same lower-cased
    name: two directory reads that yield the same entries in different
    orders give the same list. *)
Theorem list_subfolders_order_free :
  _list_subfolders os' base_path include_hidden ignored_paths
  = _list_subfolders os base_path include_hidden ignored_paths.
Proof.
  rewrite !list_subfolders_eq, Hit, Hit'. cbn [py_bind]. f_equal.
  rewrite (sort_by_ext (fun item => lower os (fst item))
             (fun item => lower os' (fst item))) by (intros a; apply Hlower).
  apply (sorted_perm_unique (fun item => lower os (fst item)));
    try apply sort_by_sorted.
  - rewrite !sort_by_perm. apply Permutation_map, filter_perm. now symmetry.
  - eapply Permutation_NoDup;
      [apply Permutation_map; symmetry; apply sort_by_perm|].
    rewrite map_map. cbn [fst]. apply nodup_map_filter.
    eapply Permutation_NoDup; [apply Permutation_map; exact Hperm | exact Hdistinct].
Qed.

End ListingOrder.

Lemma list_subfolders_order_free_witness :
  _list_subfolders reversed_os "/srv" false ["/srv/foo"]
  = _list_subfolders sample_os "/srv" false ["/srv/foo"].
Proof.
  apply (list_subfolders_order_free sample_os reversed_os "/srv" false ["/srv/foo"]
           srv_entries (rev srv_entries)).
  - reflexivity.
  - reflexivity.
  - reflexivity.
  - apply Permutation_rev.
  - repeat constructor; simpl; intuition discriminate.
Defined.

(** * Properties of the scan list *)

Section AncestorSet.

Variable path : string.

(** What one turn of the loop of [_has_ancestor] looks for. *)
Let above (other : string) : bool :=
  negb (other =? path)
  && match PyPath.commonpath [path; other] with
     | Ok common => common =? other
     | Raise _ => false
     end.

Lemma has_ancestor_existsb (candidates : list string) :
  _has_ancestor path candidates = Ok (existsb above candidates).
Proof.
  induction candidates as [|other rest IH]; cbn [_has_ancestor existsb];
    [reflexivity|].
  unfold above at 1.
  destruct (other =? path); cbn [negb andb orb]; [exact IH|].
  rewrite commonpath_two.
  destruct (Bool.eqb _ _); [|exact IH].
  destruct (_ =? other); cbn [orb]; [reflexivity | exact IH].
Qed.

(** X13.  The answer of [_has_ancestor] depends only on which paths are
    among the candidates, not on the order in which the set is gone
    through nor on repetitions. *)
Theorem has_ancestor_order_free (candidates candidates' : list string) :
  (forall other, In other candidates <-> In other candidates') ->
  _has_ancestor path candidates = _has_ancestor path candidates'.
Proof.
  intros H. rewrite !has_ancestor_existsb. f_equal.
  destruct (existsb above candidates) eqn:E.
  - symmetry. apply existsb_exists in E. destruct E as (o & Ho & A).
    apply existsb_exists. exists o. split; [now apply H | assumption].
  - destruct (existsb above candidates') eqn:E'; [|reflexivity].
    apply existsb_exists in E'. destruct E' as (o & Ho & A).
    rewrite <- E. apply existsb_exists. exists o. split; [now apply H | assumption].
Qed.

End AncestorSet.

Lemma has_ancestor_order_free_witness :
  _has_ancestor "/srv/foo/lib" ["/data"; "/srv/foo"]
  = _has_ancestor "/srv/foo/lib" ["/srv/foo"; "/data"; "/srv/foo"].
Proof.
  apply (has_ancestor_order_free "/srv/foo/lib" ["/data"; "/srv/foo"]
           ["/srv/foo"; "/data"; "/srv/foo"]).
  intros other; simpl; tauto.
Defined.

Section ScanRows.

Variable os : OS.
Variable target_set : list string.
Variable include_hidden : bool.
Variable ignore_entries : list string.

Local Abbreviation row_ok := (row_of_target os target_set include_hidden ignore_entries).

Lemma add_entries_rows
  (nested : string -> string -> PyResult (list (string * string))) (prefix : string) :
  (forall path children, In path target_set ->
     nested path (prefix ++ NEST)%string = Ok children -> Forall row_ok children) ->
  forall entries out,
    Forall (fun item => row_ok ((prefix ++ fst item)%string, snd item)) entries ->
    add_entries nested target_set prefix entries = Ok out ->
    Forall row_ok out.
Proof.
  intros Hn; induction entries as [|[name path] entries IH]; cbn [add_entries];
    intros out He H.
  - inversion H; constructor.
  - inversion He as [|? ? Hrow He']; subst. cbn [fst snd] in Hrow.
    destruct (in_set path target_set) eqn:T.
    + destruct (nested path (prefix ++ NEST)%string) as [children|] eqn:N;
        cbn [py_bind] in H; [|discriminate].
      destruct (add_entries nested target_set prefix entries) as [later|];
        cbn [py_bind] in H; [|discriminate].
      inversion H; subst. constructor; [assumption|].
      apply Forall_app; split; [|now apply IH].
      apply (Hn path); [|assumption].
      unfold in_set in T. apply existsb_exists in T. destruct T as (t & Ht & E).
      apply String.eqb_eq in E. now subst.
    + cbn [py_bind] in H.
      destruct (add_entries nested target_set prefix entries) as [later|];
        cbn [py_bind] in H; [|discriminate].
      inversion H; subst. constructor; [assumption | now apply IH].
Qed.

Lemma add_for_base_rows (fuel : nat) :
  forall base_path depth out,
    In base_path target_set ->
    add_for_base os target_set include_hidden ignore_entries fuel base_path (nest depth)
    = Ok out ->
    Forall row_ok out.
Proof.
  induction fuel as [|fuel IH]; intros base_path depth out Hin H;
    cbn [add_for_base] in H; [discriminate|].
  rewrite list_subfolders_eq in H.
  destruct (scandir os base_path) as [it|] eqn:Hit; cbn [py_bind] in H; [|discriminate].
  revert H. apply add_entries_rows.
  - intros path children Hp. apply (IH path (S depth)). exact Hp.
  - apply Forall_forall. intros [name path] Hitem. cbn [fst snd].
    apply sort_by_in, in_map_iff in Hitem. destruct Hitem as (e & E & He).
    apply filter_In in He. destruct He as (He & Hl). inversion E; subst.
    exists base_path, it, e, depth. auto.
Qed.

Lemma add_for_roots_rows (fuel : nat) (roots : list string) :
  forall out, incl roots target_set ->
    add_for_roots os target_set include_hidden ignore_entries fuel roots = Ok out ->
    Forall row_ok out.
Proof.
  induction roots as [|base_path roots IH]; intros out Hincl H; cbn [add_for_roots] in H.
  - inversion H; constructor.
  - destruct (add_for_base os target_set include_hidden ignore_entries fuel base_path "")
      as [here|] eqn:Hh; cbn [py_bind] in H; [|discriminate].
    destruct (add_for_roots os target_set include_hidden ignore_entries fuel roots)
      as [later|]; cbn [py_bind] in H; [|discriminate].
    inversion H; subst. apply Forall_app; split.
    + apply (add_for_base_rows fuel base_path 0); [apply Hincl; now left | exact Hh].
    + apply IH; [intros p Hp; apply Hincl; now right | reflexivity].
Qed.

(** X14.  Every row of the list [_build_scan_list] returns shows a folder
    that [os.scandir] yielded for one of the target paths: a directory
    that passed the ignore rule and the hidden-folder rule of that target,
    with the path of the target joined with its name, and displayed under
    its own name behind nesting markers only.  Nothing else gets into the
    list, at any depth. *)
Theorem build_scan_list_rows (out : list (string * string)) :
  _build_scan_list os target_set include_hidden ignore_entries = Ok out ->
  Forall row_ok out.
Proof.
  unfold _build_scan_list.
  destruct (root_targets_total target_set target_set) as (roots & -> & Hincl).
  cbn [py_bind]. now apply add_for_roots_rows.
Qed.

End ScanRows.

Lemma build_scan_list_rows_witness :
  Forall (row_of_target sample_os ["/srv"; "/srv/alpha"] false ["foo"])
    [("alpha", "/srv/alpha"); ((NEST ++ "App")%string, "/srv/alpha/App");
     ((NEST ++ "lib")%string, "/srv/alpha/lib"); ("foo-bar", "/srv/foo-bar");
     ("Zeta", "/srv/Zeta")].
Proof.
  apply (build_scan_list_rows sample_os ["/srv"; "/srv/alpha"] false ["foo"]).
  reflexivity.
Defined.

Section SingleTarget.

Variable os : OS.
Variable target : string.
Variable include_hidden : bool.
Variable ignore_entries : list string.

Hypothesis Htarget : target <> "".
Hypothesis Hnames :
  forall it, scandir os target = Ok it ->
    Forall (fun e => entry_name e <> ""
                     /\ PyPath.startswith (entry_name e) PyPath.sep = false) it.

Lemma add_entries_flat
  (nested : string -> string -> PyResult (list (string * string)))
  (entries : list (string * string)) :
  Forall (fun item => in_set (snd item) [target] = false) entries ->
  add_entries nested [target] "" entries = Ok entries.
Proof.
  induction 1 as [|[name path] entries Hp _ IH]; cbn [add_entries]; [reflexivity|].
  cbn [snd] in Hp. rewrite Hp, IH. reflexivity.
Qed.

(** X15.  With one target path, the scan list is the listing of that
    folder: the rows carry no nesting marker and none of them is expanded,
    and a directory that cannot be read makes [_build_scan_list] raise what
    [os.scandir] raised. *)
Theorem build_scan_list_single :
  _build_scan_list os [target] include_hidden ignore_entries
  = _list_subfolders os target include_hidden
      (_resolve_ignore_paths os target ignore_entries).
Proof.
  unfold _build_scan_list. cbn [root_targets_of _has_ancestor].
  rewrite String.eqb_refl. cbn [py_bind add_for_roots length add_for_base].
  rewrite list_subfolders_eq.
  destruct (scandir os target) as [it|e] eqn:Hit; cbn [py_bind]; [|reflexivity].
  rewrite add_entries_flat.
  - cbn [py_bind]. now rewrite app_nil_r.
  - apply Forall_forall. intros [name path] Hitem. cbn [snd].
    apply sort_by_in, in_map_iff in Hitem. destruct Hitem as (d & E & Hd).
    apply filter_In in Hd. destruct Hd as (Hd & _). inversion E; subst.
    pose proof (Hnames it eq_refl) as Hn. rewrite Forall_forall in Hn.
    destruct (Hn d Hd) as (Hne & Hs).
    pose proof (entry_path_longer target d Htarget Hne Hs) as L.
    unfold in_set; cbn [existsb]. rewrite orb_false_r.
    apply String.eqb_neq. intros E'. rewrite E' in L. lia.
Qed.

End SingleTarget.

Lemma build_scan_list_single_witness :
  _build_scan_list sample_os ["/srv"] false ["foo"]
  = _list_subfolders sample_os "/srv" false (_resolve_ignore_paths sample_os "/srv" ["foo"]).
Proof.
  apply (build_scan_list_single sample_os "/srv" false ["foo"]).
  - discriminate.
  - intros it H. inversion H; subst. repeat constructor; discriminate.
Defined.

(** * Invariants of the probe *)

Section ProbeInvariants.

Variable env : Env.
Variables dir label : string.

Let r : RepoResult := result_of (_check_repo dir label) env.

Lemma int_from_nonneg (s : string) :
  forall acc, PyStr.all_digits s = true -> (0 <= acc)%Z -> (0 <= PyStr.int_from acc s)%Z.
Proof.
  induction s as [|c s IH]; intros acc Hd Ha; cbn [PyStr.int_from]; [assumption|].
  cbn [PyStr.all_digits] in Hd. apply andb_true_iff in Hd. destruct Hd as [Hc Hs].
  apply IH; [assumption|].
  unfold PyStr.is_digit in Hc. apply andb_true_iff in Hc. destruct Hc as [Hc _].
  apply Nat.leb_le in Hc. unfold PyStr.digit_value. lia.
Qed.

Lemma parse_counts_cases (counts : string) :
  parse_counts counts = (None, None)
  \/ exists b a, parse_counts counts = (Some b, Some a) /\ (0 <= b)%Z /\ (0 <= a)%Z.
Proof.
  unfold parse_counts.
  destruct (PyStr.split counts) as [|sl [|sr [|? ?]]]; cbn [length Nat.eqb andb];
    auto.
  destruct (forallb PyStr.isdigit [sl; sr]) eqn:D; [|auto].
  cbn [forallb] in D. rewrite andb_true_r in D. apply andb_true_iff in D.
  destruct D as [Dl Dr]. apply isdigit_inv in Dl, Dr.
  right. eexists; eexists; split; [reflexivity|].
  cbn [nth]. split; apply int_from_nonneg; tauto || lia.
Qed.


(** X17.  The probe only reads: the invocations it makes are the first
    queries of the fixed list of six, in order and each once, all on the
    folder it was given.  It stops after the first of the three fatal
    checks that fails, and it asks for the divergence only when the
    upstream query named an upstream. *)
Theorem check_repo_queries :
  calls_of (_check_repo dir label) env
  = map (pair dir) (firstn (queries_made env dir) QUERIES).
Proof.
  unfold queries_made.
  destruct (succeeded env dir ARGS_WORK_TREE) eqn:H1; cbn [negb].
  2: { now destruct (check_repo_not_work_tree env dir label H1) as [_ ->]. }
  destruct (succeeded env dir ARGS_HEAD) eqn:H2; cbn [negb].
  2: { now destruct (check_repo_head_failed env dir label H1 H2) as [_ ->]. }
  destruct (succeeded env dir ARGS_STATUS) eqn:H3; cbn [negb].
  2: { now destruct (check_repo_status_failed env dir label H1 H2 H3) as [_ ->]. }
  pose proof (check_repo_probed env dir label H1 H2 H3) as E; cbv zeta in E.
  destruct (if _ && _ then _ else _) in E.
  destruct E as [_ ->]. fold (has_upstream env dir).
  now destruct (has_upstream env dir).
Qed.

End ProbeInvariants.

(** * Properties of the renderer *)

Section Alignment.

Variable show_remote : bool.

Lemma len_append (a b : string) : PyStr.len (a ++ b) = PyStr.len a + PyStr.len b.
Proof.
  induction a as [|c a IH]; [reflexivity|].
  cbn [append PyStr.len]. rewrite IH. now destruct (PyStr.is_continuation c).
Qed.

Lemma len_spaces (n : nat) : PyStr.len (PyStr.spaces n) = n.
Proof. induction n as [|n IH]; [reflexivity|]. cbn. now rewrite IH. Qed.

Lemma len_format_cell (raw : string) (width : nat) :
  PyStr.len raw <= width -> PyStr.len (format_cell raw raw width) = width.
Proof.
  intros H. unfold format_cell. rewrite len_append, len_spaces. lia.
Qed.

Lemma fold_max_len_ge (names : list string) :
  forall m, m <= fold_left (fun m n => Nat.max m (PyStr.len n)) names m
            /\ forall n, In n names ->
                 PyStr.len n <= fold_left (fun m n => Nat.max m (PyStr.len n)) names m.
Proof.
  induction names as [|x names IH]; intros m; cbn [fold_left]; [split; [lia | intros ? []]|].
  destruct (IH (Nat.max m (PyStr.len x))) as [H1 H2].
  split; [lia|]. intros n [<- | Hn]; [lia | auto].
Qed.

Lemma max_len_ge (names : list string) (m : nat) :
  max_len names = Ok m -> forall n, In n names -> PyStr.len n <= m.
Proof.
  destruct names as [|first rest]; [discriminate|].
  cbn [max_len]. intros H; inversion H; subst.
  destruct (fold_max_len_ge rest (PyStr.len first)) as [H1 H2].
  intros n [<- | Hn]; auto.
Qed.

Lemma fold_widen_slot (results : list (option RepoResult)) (slot : option RepoResult) :
  In slot results ->
  forall b s,
    fst (slot_needs show_remote slot) <= fst (fold_left (widen show_remote) results (b, s))
    /\ snd (slot_needs show_remote slot)
       <= snd (fold_left (widen show_remote) results (b, s)).
Proof.
  induction results as [|x results IH]; intros Hin b s; [destruct Hin|].
  cbn [fold_left]. rewrite widen_needs.
  destruct Hin as [-> | Hin]; [|now apply IH].
  destruct (fold_widen_ge show_remote results
              (Nat.max b (fst (slot_needs show_remote slot)))
              (Nat.max s (snd (slot_needs show_remote slot)))) as [H1 H2].
  split; lia.
Qed.

Ltac len_const :=
  match goal with
  | |- ?l <= _ => let v := eval vm_compute in l in change l with v
  end; lia.

Ltac fit_done :=
  cbn [branch_raw branch_colored clean_raw clean_colored remote_raw remote_colored
       sync_raw sync_colored _color negb];
  repeat split; intros;
  first [assumption | reflexivity | lia | len_const | congruence].

(** The raw texts of a row fit columns that are as wide as the fixed
    labels and as the slot itself asks. *)
Lemma row_cells_fit (slot : option RepoResult) (b s : nat) :
  PyStr.len LABEL_DETACHED <= b -> PyStr.len LABEL_NO_UPSTREAM <= s ->
  fst (slot_needs show_remote slot) <= b -> snd (slot_needs show_remote slot) <= s ->
  let c := row_cells slot false show_remote in
  PyStr.len (branch_raw c) <= b
  /\ PyStr.len (clean_raw c) <= PyStr.len LABEL_NOT_INIT
  /\ PyStr.len (remote_raw c) <= PyStr.len LABEL_NO_REMOTE
  /\ (show_remote = true -> PyStr.len (sync_raw c) <= s)
  /\ branch_colored c = branch_raw c /\ clean_colored c = clean_raw c
  /\ remote_colored c = remote_raw c /\ sync_colored c = sync_raw c.
Proof.
  change (PyStr.len LABEL_DETACHED) with 8. change (PyStr.len LABEL_NO_UPSTREAM) with 11.
  change (PyStr.len LABEL_NOT_INIT) with 8. change (PyStr.len LABEL_NO_REMOTE) with 9.
  intros Hb Hs Nb Ns.
  destruct slot as [r|]; cbn [row_cells];
    [|unfold placeholder_cells; fit_done].
  unfold slot_needs, widen in Nb, Ns.
  destruct (is_repo r); cbn [negb] in *;
    [|unfold placeholder_cells; fit_done].
  cbn [fst snd] in Nb, Ns. unfold repo_cells.
  assert (B : PyStr.len (let br := match branch r with
                                   | Some x => if PyStr.truthy x then x else LABEL_UNKNOWN
                                   | None => LABEL_UNKNOWN
                                   end in
                          if br =? "HEAD" then LABEL_DETACHED else br) <= b).
  { cbv zeta. destruct (branch r) as [x|].
    - destruct (PyStr.truthy x).
      + destruct (x =? "HEAD"); [len_const | lia].
      + len_const.
    - len_const. }
  cbv zeta in B. clear Nb.
  destruct show_remote.
  - destruct (divergence_known r) as [[a d]|].
    + destruct ((d =? 0)%Z && (a =? 0)%Z).
      * destruct (is_clean r) as [[|]|], (PyStr.otruthy (origin_url r)),
          (PyStr.otruthy (error r)); fit_done.
      * destruct (divergence_parts a d) as [|part parts];
          destruct (is_clean r) as [[|]|], (PyStr.otruthy (origin_url r)),
            (PyStr.otruthy (error r)); fit_done.
    + destruct (is_clean r) as [[|]|], (PyStr.otruthy (origin_url r)),
        (PyStr.otruthy (error r)); fit_done.
  - destruct (is_clean r) as [[|]|], (PyStr.otruthy (error r)); fit_done.
Qed.

Lemma render_rows_aligned (w : Widths) (results : list (option RepoResult))
  (names : list string) :
  PyStr.len LABEL_DETACHED <= max_branch w ->
  PyStr.len LABEL_NO_UPSTREAM <= max_sync w ->
  max_clean w = PyStr.len LABEL_NOT_INIT ->
  max_remote w = PyStr.len LABEL_NO_REMOTE ->
  (forall slot, In slot results ->
     fst (slot_needs show_remote slot) <= max_branch w
     /\ snd (slot_needs show_remote slot) <= max_sync w) ->
  (forall n, In n names -> PyStr.len n <= max_name w) ->
  forall idx lines,
    render_rows w results false show_remote idx names = Ok lines ->
    Forall (fun line => PyStr.len line = line_width w show_remote) lines.
Proof.
  intros Hb Hs Hc Hr Hslots.
  induction names as [|n names IH]; intros Hn idx lines H; cbn [render_rows] in H.
  - inversion H; constructor.
  - destruct (nth_error results idx) as [slot|] eqn:E; [|discriminate].
    destruct (render_rows w results false show_remote (S idx) names) as [rest|] eqn:R;
      cbn [py_bind] in H; [|discriminate].
    inversion H; subst; clear H. constructor.
    + destruct (Hslots slot (nth_error_In _ _ E)) as [Nb Ns].
      destruct (row_cells_fit slot (max_branch w) (max_sync w) Hb Hs Nb Ns)
        as (F1 & F2 & F3 & F4 & C1 & C2 & C3 & C4).
      pose proof (Hn n (or_introl eq_refl)) as Fn.
      unfold format_line, line_width. rewrite C1, C2, C3, C4, Hc, Hr.
      destruct show_remote.
      * specialize (F4 eq_refl).
        rewrite !len_append, !len_format_cell by assumption.
        change (PyStr.len "  ") with 2. lia.
      * rewrite !len_append, !len_format_cell by assumption.
        change (PyStr.len "  ") with 2. lia.
    + apply (IH (fun m Hm => Hn m (or_intror Hm)) (S idx)). exact R.
Qed.

(** X18.  Without colour every line of a frame has the same number of
    characters: the sum of the five (or, in short mode, three) column
    widths and of the two blanks between neighbouring columns.  No name,
    branch or status label is wider than its column, whatever the
    results are. *)
Theorem render_lines_aligned (names : list string) (results : list (option RepoResult))
  (lines : list string) :
  _render_lines names results false show_remote = Ok lines ->
  exists w,
    column_widths names results show_remote = Ok w
    /\ Forall (fun line => PyStr.len line = line_width w show_remote) lines.
Proof.
  unfold _render_lines. intros H.
  destruct (column_widths names results show_remote) as [w|] eqn:W;
    cbn [py_bind] in H; [|discriminate].
  exists w; split; [reflexivity|].
  destruct (column_widths_eq show_remote names results w W) as (Hn & Hbs & Hc & Hr).
  assert (Hb : PyStr.len LABEL_DETACHED <= max_branch w
               /\ PyStr.len LABEL_NO_UPSTREAM <= max_sync w).
  { pose proof (fold_widen_ge show_remote results (PyStr.len LABEL_DETACHED)
                  (PyStr.len LABEL_NO_UPSTREAM)) as G.
    rewrite <- Hbs in G. exact G. }
  destruct Hb as [Hb Hs].
  apply (render_rows_aligned w results names Hb Hs Hc Hr) with (idx := 0); [| |exact H].
  - intros slot Hin.
    pose proof (fold_widen_slot results slot Hin (PyStr.len LABEL_DETACHED)
                  (PyStr.len LABEL_NO_UPSTREAM)) as G.
    rewrite <- Hbs in G. exact G.
  - now apply max_len_ge.
Qed.

End Alignment.

Lemma render_lines_aligned_witness :
  exists lines w,
    _render_lines frame_names frame_first_done false true = Ok lines
    /\ column_widths frame_names frame_first_done true = Ok w
    /\ Forall (fun line => PyStr.len line = line_width w true) lines.
Proof.
  assert (E : exists lines,
             _render_lines frame_names frame_first_done false true = Ok lines)
    by (eexists; reflexivity).
  destruct E as [lines E].
  destruct (render_lines_aligned true frame_names frame_first_done lines E)
    as (w & W & F).
  exists lines, w. auto.
Defined.

(** * The probe and the renderer together *)

Section ProbeRendered.

Variable env : Env.
Variables dir label : string.
Variables use_color show_remote : bool.

Let r : RepoResult := result_of (_check_repo dir label) env.

Lemma check_repo_counts_nonneg (a b : Z) :
  ahead_count r = Some a -> behind_count r = Some b -> (0 <= a)%Z /\ (0 <= b)%Z.
Proof.
  subst r.
  destruct (succeeded env dir ARGS_WORK_TREE) eqn:H1.
  2: { destruct (check_repo_not_work_tree env dir label H1) as [-> _]. discriminate. }
  destruct (succeeded env dir ARGS_HEAD) eqn:H2.
  2: { destruct (check_repo_head_failed env dir label H1 H2) as [-> _]. discriminate. }
  destruct (succeeded env dir ARGS_STATUS) eqn:H3.
  2: { destruct (check_repo_status_failed env dir label H1 H2 H3) as [-> _].
       discriminate. }
  pose proof (check_repo_probed env dir label H1 H2 H3) as E; cbv zeta in E.
  destruct (parse_counts_cases (stdout_of env dir ARGS_COUNTS))
    as [P | (b0 & a0 & P & Hb & Ha)]; rewrite P in E.
  - destruct (_ && _) in E; destruct E as [-> _]; discriminate.
  - destruct (_ && _) in E; destruct E as [-> _]; cbn; intros A B;
      inversion A; inversion B; subst; auto.
Qed.

Lemma divergence_label_head (a b : Z) :
  (0 <= a)%Z -> (0 <= b)%Z -> ((b =? 0)%Z && (a =? 0)%Z) = false ->
  exists c rest,
    match divergence_parts a b with
    | [] => "out-of-sync"
    | _ => PyStr.join ", " (divergence_parts a b)
    end = String c rest
    /\ (c = "a"%char \/ c = "b"%char).
Proof.
  intros Ha Hb Hz. unfold divergence_parts.
  destruct (a >? 0)%Z eqn:A.
  - destruct (b >? 0)%Z; cbn; eauto.
  - destruct (b >? 0)%Z eqn:B; [cbn; eauto|].
    exfalso. apply andb_false_iff in Hz.
    destruct Hz as [Hz | Hz]; apply Z.eqb_neq in Hz; lia.
Qed.

(** X19.  The label "out-of-sync" never reaches the screen for a result
    of [_check_repo]: the counts the probe reads are non-negative, so a
    divergence that is not zero on both sides is always rendered as
    "ahead N", "behind N" or both. *)
Theorem probe_never_out_of_sync :
  sync_raw (row_cells (Some r) use_color show_remote) <> "out-of-sync".
Proof.
  pose proof check_repo_counts_nonneg as N.
  cbn [row_cells]. destruct (is_repo r); cbn [negb]; [|discriminate].
  unfold repo_cells.
  destruct show_remote.
  - unfold divergence_known in *.
    destruct (PyStr.otruthy (upstream_ref r)).
    + destruct (ahead_count r) as [a|], (behind_count r) as [b|].
      * destruct (N a b eq_refl eq_refl) as [Ha Hb].
        destruct ((b =? 0)%Z && (a =? 0)%Z) eqn:Z0.
        -- destruct (is_clean r) as [[|]|], (PyStr.otruthy (origin_url r)),
             (PyStr.otruthy (error r)); discriminate.
        -- destruct (divergence_label_head a b Ha Hb Z0) as (c & rest & E & Hc).
           destruct (is_clean r) as [[|]|], (PyStr.otruthy (origin_url r)),
             (PyStr.otruthy (error r));
             cbn [sync_raw]; try discriminate;
             rewrite E; destruct Hc; subst; discriminate.
      * destruct (is_clean r) as [[|]|], (PyStr.otruthy (origin_url r)),
          (PyStr.otruthy (error r)); discriminate.
      * destruct (is_clean r) as [[|]|], (PyStr.otruthy (origin_url r)),
          (PyStr.otruthy (error r)); discriminate.
      * destruct (is_clean r) as [[|]|], (PyStr.otruthy (origin_url r)),
          (PyStr.otruthy (error r)); discriminate.
    + destruct (is_clean r) as [[|]|], (PyStr.otruthy (origin_url r)),
        (PyStr.otruthy (error r)); discriminate.
  - destruct (is_clean r) as [[|]|], (PyStr.otruthy (error r)); discriminate.
Qed.

End ProbeRendered.

(** * Properties of the scheduler *)

Section Scheduler.

Variable env : Env.
Variable names_and_paths : list (string * string).
Variables use_color show_remote : bool.

Let names : list string := map fst names_and_paths.
Let entries : nat := length names_and_paths.

Lemma set_item_nth {A} (l : list A) (a : A) :
  forall idx l', set_item l idx a = Ok l' ->
    length l' = length l
    /\ forall i, nth_error l' i = if (i =? idx)%nat then Some a else nth_error l i.
Proof.
  induction l as [|x l IH]; intros idx l' H; cbn [set_item] in H.
  - destruct idx; discriminate.
  - destruct idx as [|idx].
    + inversion H; subst. split; [reflexivity|]. now intros [|i].
    + destruct (set_item l idx a) as [l''|] eqn:E; cbn [py_bind] in H; [|discriminate].
      inversion H; subst. destruct (IH idx l'' E) as [Hl Hi].
      split; [cbn; congruence|]. intros [|i]; [reflexivity|]. cbn. apply Hi.
Qed.

Lemma complete_results (allow_dynamic : bool) (schedule : list nat) :
  forall results results' out,
    complete env names_and_paths names use_color allow_dynamic show_remote
      results schedule = Ok (results', out) ->
    length results' = length results
    /\ forall i, nth_error results' i
                 = if existsb (Nat.eqb i) schedule
                   then nth_error (probe_all env names_and_paths) i
                   else nth_error results i.
Proof.
  induction schedule as [|idx schedule IH]; intros results results' out H;
    cbn [complete] in H.
  - inversion H; subst. split; reflexivity.
  - destruct (nth_error names_and_paths idx) as [[name path]|] eqn:E; [|discriminate].
    unfold run_one in H.
    destruct (set_item results idx
                (Some (result_of (_check_repo path name) env))) as [results1|] eqn:S;
      cbn [py_bind] in H; [|discriminate].
    destruct (set_item_nth _ _ _ _ S) as [L1 N1].
    assert (H' : exists out1,
               complete env names_and_paths names use_color allow_dynamic show_remote
                 results1 schedule = Ok (results', out1)).
    { destruct allow_dynamic.
      - destruct (_render_lines names results1 use_color show_remote);
          cbn [py_bind] in H; [|discriminate].
        destruct (complete env names_and_paths names use_color true show_remote
                    results1 schedule) as [[r o]|]; cbn [py_bind] in H; [|discriminate].
        inversion H; subst. eauto.
      - cbn [py_bind] in H.
        destruct (complete env names_and_paths names use_color false show_remote
                    results1 schedule) as [[r o]|]; cbn [py_bind] in H; [|discriminate].
        inversion H; subst. eauto. }
    destruct H' as [out1 H'].
    destruct (IH _ _ _ H') as [L2 N2].
    split; [congruence|]. intros i. rewrite N2. cbn [existsb].
    destruct (existsb (Nat.eqb i) schedule); [now rewrite orb_true_r|].
    rewrite orb_false_r, N1.
    destruct (Nat.eqb_spec i idx) as [->|]; [|reflexivity].
    unfold probe_all. rewrite nth_error_map, E. reflexivity.
Qed.

Lemma complete_all (allow_dynamic : bool) (schedule : list nat)
  (results results' : list (option RepoResult)) (out : list Event) :
  length results = entries ->
  (forall i, i < entries -> In i schedule) ->
  complete env names_and_paths names use_color allow_dynamic show_remote
    results schedule = Ok (results', out) ->
  results' = probe_all env names_and_paths.
Proof.
  intros Hl Hall H. destruct (complete_results _ _ _ _ _ H) as [L N].
  apply nth_error_ext. intros i. rewrite N.
  destruct (existsb (Nat.eqb i) schedule) eqn:X; [reflexivity|].
  destruct (Nat.lt_ge_cases i entries) as [Hi | Hi].
  - exfalso. assert (X' : existsb (Nat.eqb i) schedule = true); [|congruence].
    apply existsb_exists. exists i; split; [now apply Hall | apply Nat.eqb_refl].
  - transitivity (@None (option RepoResult)); [|symmetry];
      apply nth_error_None; [lia|].
    unfold probe_all. rewrite length_map. exact Hi.
Qed.

Lemma complete_static (schedule : list nat) :
  forall results results' out,
    complete env names_and_paths names use_color false show_remote
      results schedule = Ok (results', out) -> out = [].
Proof.
  induction schedule as [|idx schedule IH]; intros results results' out H;
    cbn [complete] in H.
  - now inversion H.
  - destruct (nth_error names_and_paths idx) as [[name path]|]; [|discriminate].
    unfold run_one in H.
    destruct (set_item results idx _) as [results1|]; cbn [py_bind] in H; [|discriminate].
    destruct (complete env names_and_paths names use_color false show_remote
                results1 schedule) as [[r o]|] eqn:C; cbn [py_bind] in H; [|discriminate].
    inversion H; subst. now rewrite (IH _ _ _ C).
Qed.

Lemma complete_live (schedule : list nat) :
  entries <> 0 ->
  forall results results' out,
    complete env names_and_paths names use_color true show_remote
      results schedule = Ok (results', out) ->
    exists frames,
      out = flat_map (fun frame => [Cleared entries; Printed frame]) frames
      /\ length frames = length schedule
      /\ (schedule <> [] ->
          _render_lines names results' use_color show_remote = Ok (last frames [])).
Proof.
  intros Hn.
  induction schedule as [|idx schedule IH]; intros results results' out H;
    cbn [complete] in H.
  - inversion H; subst. exists []. repeat split; congruence.
  - destruct (nth_error names_and_paths idx) as [[name path]|]; [|discriminate].
    unfold run_one in H.
    destruct (set_item results idx _) as [results1|]; cbn [py_bind] in H; [|discriminate].
    destruct (_render_lines names results1 use_color show_remote) as [lines|] eqn:R;
      cbn [py_bind] in H; [|discriminate].
    destruct (complete env names_and_paths names use_color true show_remote
                results1 schedule) as [[r o]|] eqn:C; cbn [py_bind] in H; [|discriminate].
    inversion H; subst; clear H.
    destruct (IH _ _ _ C) as (frames & -> & Hl & Hlast).
    exists (lines :: frames). split; [|split].
    + cbn [flat_map]. unfold _clear_lines, _print_block.
      replace (length names) with entries by (subst names entries; now rewrite length_map).
      destruct entries; [congruence | reflexivity].
    + cbn; congruence.
    + intros _. destruct schedule as [|idx' schedule].
      * cbn [complete] in C. inversion C; subst.
        destruct frames; [exact R | discriminate Hl].
      * destruct frames as [|f frames]; [discriminate Hl|].
        change (last (lines :: f :: frames) []) with (last (f :: frames) []).
        apply Hlast. discriminate.
Qed.



End Scheduler.



Section ListingTies.

Variable os : OS.
Variable base_path : string.
Variable include_hidden : bool.
Variable ignored_paths : list string.

(** X22.  Folders whose names are the same once lower-cased come out of
    [_list_subfolders] in the order in which [os.scandir] yielded them:
    the sort is on the lower-cased name alone and keeps ties in place. *)
Theorem list_subfolders_ties (it : list DirEntry) (entries : list (string * string))
  (k : string) :
  scandir os base_path = Ok it ->
  _list_subfolders os base_path include_hidden ignored_paths = Ok entries ->
  filter (fun item => lower os (fst item) =? k) entries
  = map (fun e => (entry_name e, entry_path base_path e))
      (filter (fun e => listed base_path include_hidden ignored_paths e
                        && (lower os (entry_name e) =? k)) it).
Proof.
  intros Hit. rewrite list_subfolders_eq, Hit. cbn [py_bind].
  intros H; inversion H; subst; clear H.
  rewrite (sort_by_stable (fun item => lower os (fst item))). clear Hit.
  induction it as [|e it IH]; [reflexivity|].
  cbn [filter map].
  destruct (listed base_path include_hidden ignored_paths e); cbn [andb map filter fst].
  - destruct (lower os (entry_name e) =? k); cbn [map]; [f_equal|]; apply IH.
  - apply IH.
Qed.

End ListingTies.

Lemma list_subfolders_ties_witness :
  filter (fun item => lower reversed_os (fst item) =? "alpha")
    [(".cache", "/srv/.cache"); ("alpha", "/srv/alpha"); ("foo", "/srv/foo");
     ("foo-bar", "/srv/foo-bar"); ("Zeta", "/srv/Zeta")]
  = map (fun e => (entry_name e, entry_path "/srv" e))
      (filter (fun e => listed "/srv" true [] e
                        && (lower reversed_os (entry_name e) =? "alpha"))
         (rev srv_entries)).
Proof.
  apply (list_subfolders_ties reversed_os "/srv" true [] (rev srv_entries)).
  - reflexivity.
  - reflexivity.
Defined.
